(** * The O3 instruction fetch stage (cpu/o3/fetch.cc)

    A shallow embedding of the request handling of the fetch stage: the
    per-thread fetch state machine, the request builder, the translation
    and cache-access paths, the FTQ prefetcher, squashing and the SMT
    arbiter.  Every member function of [Fetch] that is modelled below is a
    computation in a state-and-abort monad over [FetchState]; a failed
    [assert], a [panic] or a [fatal] aborts.  Calls into collaborators of
    the stage (CPU, MMU, I-cache port, decoder, probes) are recorded in a
    trace, and what they answer is read from the [World] part of the
    state. *)

From Stdlib Require Import ZArith.
From stdpp Require Import base tactics option functions list gmap strings.

Local Open Scope Z_scope.

(** ** Machine-level types *)

Definition Addr := Z.
Definition Tick := Z.
Definition ThreadID := Z.
Definition InstSeqNum := Z.

(** [InvalidThreadID] is [(ThreadID)-1]. *)
Definition InvalidThreadID : ThreadID := -1.

(** The per-thread states of the fetch state machine. *)
Inductive ThreadStatus :=
  | Running | Idle | Squashing | Blocked | FTQEmpty | QuiescePending
  | ItlbWait | IcacheWaitResponse | IcacheWaitRetry | IcacheAccessComplete
  | NoGoodAddr | TrapPending.

(** The stage-level status. *)
Inductive FetchStatus := Active | Inactive.

Inductive SMTFetchPolicy := RoundRobin | IQCount | LSQCount | Branch.

#[global] Instance ThreadStatus_eq_dec : EqDecision ThreadStatus.
Proof. solve_decision. Defined.
#[global] Instance FetchStatus_eq_dec : EqDecision FetchStatus.
Proof. solve_decision. Defined.

(** A [Fault] is a nullable pointer; [NoFault] is the null one. *)
Definition Fault := option nat.
Definition NoFault : Fault := None.

(** ** Requests and packets

    A [RequestPtr] is a shared pointer: two pointers are equal when they
    name the same request object.  [req_id] is that identity; the other
    fields are the contents the fetch stage reads. *)
Record Request := {
  req_id : nat;
  req_vaddr : Addr;
  req_size : Z;
  req_pc : Addr;
  req_contextId : Z;
  req_paddr : option Addr;
  req_accessDepth : Z
}.

Definition RequestPtr := option Request.

Definition hasPaddr (r : Request) : bool := bool_decide (is_Some (req_paddr r)).
Definition getPaddr (r : Request) : Addr := default 0 (req_paddr r).
Definition getVaddr (r : Request) : Addr := req_vaddr r.

Definition setPaddr (pa : Addr) (r : Request) : Request :=
  {| req_id := req_id r; req_vaddr := req_vaddr r; req_size := req_size r;
     req_pc := req_pc r; req_contextId := req_contextId r;
     req_paddr := Some pa; req_accessDepth := req_accessDepth r |}.

(** Pointer comparison [a == b] of two request pointers. *)
Definition req_ptr_eqb (a b : RequestPtr) : bool :=
  match a, b with
  | None, None => true
  | Some x, Some y => Nat.eqb (req_id x) (req_id y)
  | _, _ => false
  end.

Record Packet := {
  pkt_req : Request;
  pkt_data : list Byte.byte
}.

Definition PacketPtr := option Packet.

(** ** Instructions and program counters *)

Record PCState := { instAddr : Addr; microPC : Z }.

Record StaticInst := {
  si_id : nat;
  si_isLastMicroop : bool;
  si_isDelayedCommit : bool
}.

Definition nopStaticInst : StaticInst :=
  {| si_id := 0; si_isLastMicroop := false; si_isDelayedCommit := false |}.

Record DynInst := {
  seqNum : InstSeqNum;
  di_tid : ThreadID;
  staticInst : StaticInst;
  di_macroop : option StaticInst;
  pcState : PCState;
  predTarg : PCState;
  notAnInst : bool;
  di_fault : Fault
}.

Definition DynInstPtr := option DynInst.

(** ** Fetch targets and the fetch target queue

    The FTQ and its entries are declared outside fetch.cc; the stage
    holds shared pointers to the entries.  Entries live in a store and a
    [FetchTargetPtr] is a nullable key of that store. *)

Inductive FTState :=
  | Initial | TranslationInProgress | TranslationReady | TranslationFailed
  | PrefetchInProgress | ReadyToFetch.

#[global] Instance FTState_eq_dec : EqDecision FTState.
Proof. solve_decision. Defined.

Record FetchTarget := {
  ft_state : FTState;
  ft_req : RequestPtr;
  ft_start : Addr;
  ft_end : Addr;
  ft_blkAddr : Addr;
  ft_paddr : option Addr;
  ft_fallThrough : bool;
  ft_fault : Fault;
  ft_valid : bool
}.

Definition FetchTargetPtr := option nat.

Definition ft_set_state (x : FTState) (ft : FetchTarget) : FetchTarget :=
  {| ft_state := x; ft_req := ft_req ft; ft_start := ft_start ft;
     ft_end := ft_end ft; ft_blkAddr := ft_blkAddr ft;
     ft_paddr := ft_paddr ft; ft_fallThrough := ft_fallThrough ft;
     ft_fault := ft_fault ft; ft_valid := ft_valid ft |}.

Definition ft_set_req (x : RequestPtr) (ft : FetchTarget) : FetchTarget :=
  {| ft_state := ft_state ft; ft_req := x; ft_start := ft_start ft;
     ft_end := ft_end ft; ft_blkAddr := ft_blkAddr ft;
     ft_paddr := ft_paddr ft; ft_fallThrough := ft_fallThrough ft;
     ft_fault := ft_fault ft; ft_valid := ft_valid ft |}.

Definition ft_set_translation (pa : option Addr) (f : Fault)
    (ft : FetchTarget) : FetchTarget :=
  {| ft_state := ft_state ft; ft_req := ft_req ft; ft_start := ft_start ft;
     ft_end := ft_end ft; ft_blkAddr := ft_blkAddr ft;
     ft_paddr := pa; ft_fallThrough := ft_fallThrough ft;
     ft_fault := f; ft_valid := ft_valid ft |}.

(** Modelled from the spec: the member functions of a fetch target
    (declared with the FTQ, outside fetch.cc).  The lifecycle is
    Initial, TranslationInProgress, TranslationReady or TranslationFailed,
    PrefetchInProgress, ReadyToFetch.  [ft_startTranslation] binds the
    request and moves the target to TranslationInProgress; [ft_markReady]
    moves it to ReadyToFetch; [ft_prefetchIssued] to PrefetchInProgress;
    [ft_popReq] is the target with its request taken away (the caller
    reads [ft_req] first).  [ft_finishTranslation] records the outcome of
    the translation: a target still in TranslationInProgress becomes
    TranslationReady or TranslationFailed, a target that was promoted
    meanwhile keeps its state. *)
Definition ft_markReady : FetchTarget → FetchTarget := ft_set_state ReadyToFetch.
Definition ft_prefetchIssued : FetchTarget → FetchTarget :=
  ft_set_state PrefetchInProgress.
Definition ft_popReq : FetchTarget → FetchTarget := ft_set_req None.
Definition ft_startTranslation (r : Request) (ft : FetchTarget) : FetchTarget :=
  ft_set_state TranslationInProgress (ft_set_req (Some r) ft).
Definition ft_finishTranslation (f : Fault) (r : Request)
    (ft : FetchTarget) : FetchTarget :=
  let ft1 :=
    ft_set_translation (if f is None then req_paddr r else ft_paddr ft) f
      (if ft_req ft is Some _ then ft_set_req (Some r) ft else ft) in
  if decide (ft_state ft = TranslationInProgress)
  then ft_set_state (if f is None then TranslationReady else TranslationFailed) ft1
  else ft1.
Definition ft_requiresTranslation (ft : FetchTarget) : bool :=
  bool_decide (ft_state ft = Initial).
Definition ft_translationReady (ft : FetchTarget) : bool :=
  bool_decide (ft_state ft = TranslationReady).
Definition ft_initial (ft : FetchTarget) : bool :=
  bool_decide (ft_state ft = Initial).
Definition ft_hasPaddr (ft : FetchTarget) : bool :=
  bool_decide (is_Some (ft_paddr ft)).
Definition ft_getPaddr (ft : FetchTarget) : Addr := default 0 (ft_paddr ft).
Definition ft_inRange (a : Addr) (ft : FetchTarget) : bool :=
  bool_decide (ft_start ft ≤ a < ft_end ft).

Record FTQ := {
  fts : nat → FetchTarget;
  ftq_entries : ThreadID → list nat;
  ftq_valid : ThreadID → bool;
  ftq_headReady : ThreadID → bool
}.

(** Modelled from the spec: the queries of the FTQ.  [readHead] and
    [readNextHead] are the first and second entry (null when absent);
    [findAfterHead] is the first entry after the head that satisfies the
    predicate (null when there is none); [invalidate] marks the queue of
    the thread invalid.  Whether the head is ready to be fetched from is
    the FTQ's own decision, [ftq_headReady]. *)
Definition ftq_size (q : FTQ) (tid : ThreadID) : Z :=
  Z.of_nat (length (ftq_entries q tid)).
Definition ftq_isValid (q : FTQ) (tid : ThreadID) : bool := ftq_valid q tid.
Definition ftq_readHead (q : FTQ) (tid : ThreadID) : FetchTargetPtr :=
  head (ftq_entries q tid).
Definition ftq_readNextHead (q : FTQ) (tid : ThreadID) : FetchTargetPtr :=
  ftq_entries q tid !! 1%nat.
Definition ftq_findAfterHead (q : FTQ) (tid : ThreadID)
    (f : FetchTarget → bool) : FetchTargetPtr :=
  find (λ i, f (fts q i)) (tail (ftq_entries q tid)).

Definition ftq_isHeadReady (q : FTQ) (tid : ThreadID) : bool :=
  ftq_headReady q tid.
Definition ftq_isEmpty (q : FTQ) (tid : ThreadID) : bool :=
  bool_decide (ftq_entries q tid = []).

Definition ftq_update (i : nat) (g : FetchTarget → FetchTarget) (q : FTQ) : FTQ :=
  {| fts := alter g i (fts q); ftq_entries := ftq_entries q;
     ftq_valid := ftq_valid q; ftq_headReady := ftq_headReady q |}.
Definition ftq_invalidate (tid : ThreadID) (q : FTQ) : FTQ :=
  {| fts := fts q; ftq_entries := ftq_entries q;
     ftq_valid := <[tid := false]> (ftq_valid q);
     ftq_headReady := ftq_headReady q |}.

(** ** Configuration, statistics, trace and environment *)

Record Params := {
  numThreads : Z;
  numFetchingThreads : Z;
  fetchPolicy : SMTFetchPolicy;
  decoupledFrontEnd : bool;
  fetchWidth : Z;
  decodeWidth : Z;
  fetchQueueSize : Z;
  fetchBufferSize : Z;
  cacheBlkSize : Z;
  maxOutstandingPrefetches : Z;
  maxOutstandingTranslations : Z
}.

(** [fetchBufferMask] is initialised to [fetchBufferSize - 1]. *)
Definition fetchBufferMask (p : Params) : Z := fetchBufferSize p - 1.

(** The scalar counters of [FetchStatGroup], and the per-thread
    [icacheStallCycles] counter that the stage bumps in the CPU's
    statistics. *)
Inductive Stat :=
  | predictedBranches | cycles | squashCycles | tlbCycles | ftqStallCycles
  | idleCycles | blockedCycles | miscStallCycles | pendingDrainCycles
  | noActiveThreadStallCycles | pendingTrapStallCycles
  | pendingQuiesceStallCycles | icacheWaitRetryStallCycles | cacheLines
  | icacheSquashes | tlbSquashes | ftReadyToFetch | ftPrefetchInProgress
  | ftTranslationInProgress | ftTranslationReady | ftTranslationFailed
  | ftCrossCacheBlock | ftCrossCacheBlockNotNext | demandHit | demandMiss
  | pfIssued | pfReceived | pfLate | pfInCache | pfSquashed | pfLimitReached
  | pfTranslationLimitReached
  | cpuIcacheStallCycles (tid : ThreadID).

#[global] Instance Stat_eq_dec : EqDecision Stat.
Proof. solve_decision. Defined.

Inductive Dist := instrAccessLatency | translationLatency | memReqInFlight.

(** What the stage asks of its collaborators, in program order. *)
Inductive Effect :=
  | EWarnBadAddr (pa : Addr)
  | ESendTimingReq (pkt : Packet) (accepted : bool)
  | EDeletePacket (pkt : Packet)
  | ETranslateTiming (req : Request) (tid : ThreadID) (ft : FetchTargetPtr)
  | ENotifyFetchRequestSent (req : RequestPtr)
  | ENotifyInstAccessComplete (pkt : Packet)
  | EWakeCPU
  | EActivateStage
  | EDeactivateStage
  | EActivityThisCycle
  | EDecoderReset (tid : ThreadID)
  | ERemoveInstsUntil (seq : InstSeqNum) (tid : ThreadID)
  | ERemoveInstsNotInROB (tid : ThreadID)
  | EAddInst (inst : DynInst)
  | EScheduleProcessTrap
  | EBacResteer (tid : ThreadID) (new_pc : PCState)
  | ESample (d : Dist) (v : Z).

(** The environment of the stage.  [portAccepts n] is the answer of the
    I-cache port to the [n]-th [sendTimingReq]; [mmuImmediate n] tells
    whether the [n]-th [translateTiming] completes inside the call, and
    with which fault and physical address.  [pcMask tid] is the mask of
    the decoder of the thread and [isRomMicroPC] the test for a micro-op
    ROM address.  [mmuPending] and
    [icachePending] are the translations and packets the MMU and the
    I-cache have accepted and not answered yet. *)
Record World := {
  isMemAddr : Addr → bool;
  portAccepts : nat → bool;
  sendCount : nat;
  mmuImmediate : nat → option (Fault * Addr);
  translateCount : nat;
  curTick : Tick;
  switchedOut : bool;
  isDraining : bool;
  contextId : ThreadID → Z;
  contextToThread : Z → ThreadID;
  instSeq : InstSeqNum;
  nextReqId : nat;
  cpuPcState : ThreadID → PCState;
  pcMask : ThreadID → Addr;
  isRomMicroPC : Z → bool;
  activeThreads : list ThreadID;
  iqCount_of : ThreadID → Z;
  ldstqCount_of : ThreadID → Z;
  accessLatencyCycles : Request → Z;
  translationLatencyCycles : Request → Z;
  mmuPending : list (Request * FetchTargetPtr);
  icachePending : list Packet
}.

(** ** The state of the fetch stage *)

Record ThreadState := {
  fetchStatus : ThreadStatus;
  pc : PCState;
  fetchOffset : Addr;
  macroop : option StaticInst;
  delayedCommit : bool;
  memReq : RequestPtr;
  stalls_decode : bool;
  stalls_drain : bool;
  fetchBuffer : list Byte.byte;
  fetchBufferPC : Addr;
  fetchBufferValid : bool;
  lastIcacheStall : Tick;
  issuePipelinedIfetch : bool;
  fetchQueue : list DynInst
}.

Record FetchState := {
  cfg : Params;
  thr : ThreadID → ThreadState;
  outstandingPrefetches : Z;
  outstandingTranslations : Z;
  retryPkt : PacketPtr;
  retryTid : ThreadID;
  cacheBlocked : bool;
  interruptPending : bool;
  fetchesInProgress : gset Z;
  priorityList : list ThreadID;
  threadFetched : Z;
  numInst : Z;
  wroteToTimeBuffer : bool;
  stage_status : FetchStatus;
  processTrapEvent : option (ThreadID * Fault * RequestPtr);
  fetchStats : Stat → Z;
  ftq : FTQ;
  world : World;
  trace : list Effect;
  bac_attached : bool;
  ftq_attached : bool
}.

(** *** Field updates *)

Definition set_fetchStatus x (t : ThreadState) : ThreadState :=
  {| fetchStatus := x; pc := pc t; fetchOffset := fetchOffset t;
     macroop := macroop t; delayedCommit := delayedCommit t;
     memReq := memReq t; stalls_decode := stalls_decode t;
     stalls_drain := stalls_drain t; fetchBuffer := fetchBuffer t;
     fetchBufferPC := fetchBufferPC t; fetchBufferValid := fetchBufferValid t;
     lastIcacheStall := lastIcacheStall t;
     issuePipelinedIfetch := issuePipelinedIfetch t;
     fetchQueue := fetchQueue t |}.

Definition set_pc x (t : ThreadState) : ThreadState :=
  {| fetchStatus := fetchStatus t; pc := x; fetchOffset := fetchOffset t;
     macroop := macroop t; delayedCommit := delayedCommit t;
     memReq := memReq t; stalls_decode := stalls_decode t;
     stalls_drain := stalls_drain t; fetchBuffer := fetchBuffer t;
     fetchBufferPC := fetchBufferPC t; fetchBufferValid := fetchBufferValid t;
     lastIcacheStall := lastIcacheStall t;
     issuePipelinedIfetch := issuePipelinedIfetch t;
     fetchQueue := fetchQueue t |}.

Definition set_fetchOffset x (t : ThreadState) : ThreadState :=
  {| fetchStatus := fetchStatus t; pc := pc t; fetchOffset := x;
     macroop := macroop t; delayedCommit := delayedCommit t;
     memReq := memReq t; stalls_decode := stalls_decode t;
     stalls_drain := stalls_drain t; fetchBuffer := fetchBuffer t;
     fetchBufferPC := fetchBufferPC t; fetchBufferValid := fetchBufferValid t;
     lastIcacheStall := lastIcacheStall t;
     issuePipelinedIfetch := issuePipelinedIfetch t;
     fetchQueue := fetchQueue t |}.

Definition set_macroop x (t : ThreadState) : ThreadState :=
  {| fetchStatus := fetchStatus t; pc := pc t; fetchOffset := fetchOffset t;
     macroop := x; delayedCommit := delayedCommit t;
     memReq := memReq t; stalls_decode := stalls_decode t;
     stalls_drain := stalls_drain t; fetchBuffer := fetchBuffer t;
     fetchBufferPC := fetchBufferPC t; fetchBufferValid := fetchBufferValid t;
     lastIcacheStall := lastIcacheStall t;
     issuePipelinedIfetch := issuePipelinedIfetch t;
     fetchQueue := fetchQueue t |}.

Definition set_delayedCommit x (t : ThreadState) : ThreadState :=
  {| fetchStatus := fetchStatus t; pc := pc t; fetchOffset := fetchOffset t;
     macroop := macroop t; delayedCommit := x;
     memReq := memReq t; stalls_decode := stalls_decode t;
     stalls_drain := stalls_drain t; fetchBuffer := fetchBuffer t;
     fetchBufferPC := fetchBufferPC t; fetchBufferValid := fetchBufferValid t;
     lastIcacheStall := lastIcacheStall t;
     issuePipelinedIfetch := issuePipelinedIfetch t;
     fetchQueue := fetchQueue t |}.

Definition set_memReq x (t : ThreadState) : ThreadState :=
  {| fetchStatus := fetchStatus t; pc := pc t; fetchOffset := fetchOffset t;
     macroop := macroop t; delayedCommit := delayedCommit t;
     memReq := x; stalls_decode := stalls_decode t;
     stalls_drain := stalls_drain t; fetchBuffer := fetchBuffer t;
     fetchBufferPC := fetchBufferPC t; fetchBufferValid := fetchBufferValid t;
     lastIcacheStall := lastIcacheStall t;
     issuePipelinedIfetch := issuePipelinedIfetch t;
     fetchQueue := fetchQueue t |}.

Definition set_stalls (d dr : bool) (t : ThreadState) : ThreadState :=
  {| fetchStatus := fetchStatus t; pc := pc t; fetchOffset := fetchOffset t;
     macroop := macroop t; delayedCommit := delayedCommit t;
     memReq := memReq t; stalls_decode := d;
     stalls_drain := dr; fetchBuffer := fetchBuffer t;
     fetchBufferPC := fetchBufferPC t; fetchBufferValid := fetchBufferValid t;
     lastIcacheStall := lastIcacheStall t;
     issuePipelinedIfetch := issuePipelinedIfetch t;
     fetchQueue := fetchQueue t |}.

Definition set_fetchBuffer x (t : ThreadState) : ThreadState :=
  {| fetchStatus := fetchStatus t; pc := pc t; fetchOffset := fetchOffset t;
     macroop := macroop t; delayedCommit := delayedCommit t;
     memReq := memReq t; stalls_decode := stalls_decode t;
     stalls_drain := stalls_drain t; fetchBuffer := x;
     fetchBufferPC := fetchBufferPC t; fetchBufferValid := fetchBufferValid t;
     lastIcacheStall := lastIcacheStall t;
     issuePipelinedIfetch := issuePipelinedIfetch t;
     fetchQueue := fetchQueue t |}.

Definition set_fetchBufferPC x (t : ThreadState) : ThreadState :=
  {| fetchStatus := fetchStatus t; pc := pc t; fetchOffset := fetchOffset t;
     macroop := macroop t; delayedCommit := delayedCommit t;
     memReq := memReq t; stalls_decode := stalls_decode t;
     stalls_drain := stalls_drain t; fetchBuffer := fetchBuffer t;
     fetchBufferPC := x; fetchBufferValid := fetchBufferValid t;
     lastIcacheStall := lastIcacheStall t;
     issuePipelinedIfetch := issuePipelinedIfetch t;
     fetchQueue := fetchQueue t |}.

Definition set_fetchBufferValid x (t : ThreadState) : ThreadState :=
  {| fetchStatus := fetchStatus t; pc := pc t; fetchOffset := fetchOffset t;
     macroop := macroop t; delayedCommit := delayedCommit t;
     memReq := memReq t; stalls_decode := stalls_decode t;
     stalls_drain := stalls_drain t; fetchBuffer := fetchBuffer t;
     fetchBufferPC := fetchBufferPC t; fetchBufferValid := x;
     lastIcacheStall := lastIcacheStall t;
     issuePipelinedIfetch := issuePipelinedIfetch t;
     fetchQueue := fetchQueue t |}.

Definition set_lastIcacheStall x (t : ThreadState) : ThreadState :=
  {| fetchStatus := fetchStatus t; pc := pc t; fetchOffset := fetchOffset t;
     macroop := macroop t; delayedCommit := delayedCommit t;
     memReq := memReq t; stalls_decode := stalls_decode t;
     stalls_drain := stalls_drain t; fetchBuffer := fetchBuffer t;
     fetchBufferPC := fetchBufferPC t; fetchBufferValid := fetchBufferValid t;
     lastIcacheStall := x;
     issuePipelinedIfetch := issuePipelinedIfetch t;
     fetchQueue := fetchQueue t |}.

Definition set_fetchQueue x (t : ThreadState) : ThreadState :=
  {| fetchStatus := fetchStatus t; pc := pc t; fetchOffset := fetchOffset t;
     macroop := macroop t; delayedCommit := delayedCommit t;
     memReq := memReq t; stalls_decode := stalls_decode t;
     stalls_drain := stalls_drain t; fetchBuffer := fetchBuffer t;
     fetchBufferPC := fetchBufferPC t; fetchBufferValid := fetchBufferValid t;
     lastIcacheStall := lastIcacheStall t;
     issuePipelinedIfetch := issuePipelinedIfetch t;
     fetchQueue := x |}.

Definition set_thr x (s : FetchState) : FetchState :=
  {| cfg := cfg s; thr := x;
     outstandingPrefetches := outstandingPrefetches s;
     outstandingTranslations := outstandingTranslations s;
     retryPkt := retryPkt s; retryTid := retryTid s;
     cacheBlocked := cacheBlocked s; interruptPending := interruptPending s;
     fetchesInProgress := fetchesInProgress s;
     priorityList := priorityList s; threadFetched := threadFetched s;
     numInst := numInst s; wroteToTimeBuffer := wroteToTimeBuffer s;
     stage_status := stage_status s; processTrapEvent := processTrapEvent s;
     fetchStats := fetchStats s; ftq := ftq s; world := world s;
     trace := trace s; bac_attached := bac_attached s;
     ftq_attached := ftq_attached s |}.

Definition set_outstandingPrefetches x (s : FetchState) : FetchState :=
  {| cfg := cfg s; thr := thr s;
     outstandingPrefetches := x;
     outstandingTranslations := outstandingTranslations s;
     retryPkt := retryPkt s; retryTid := retryTid s;
     cacheBlocked := cacheBlocked s; interruptPending := interruptPending s;
     fetchesInProgress := fetchesInProgress s;
     priorityList := priorityList s; threadFetched := threadFetched s;
     numInst := numInst s; wroteToTimeBuffer := wroteToTimeBuffer s;
     stage_status := stage_status s; processTrapEvent := processTrapEvent s;
     fetchStats := fetchStats s; ftq := ftq s; world := world s;
     trace := trace s; bac_attached := bac_attached s;
     ftq_attached := ftq_attached s |}.

Definition set_outstandingTranslations x (s : FetchState) : FetchState :=
  {| cfg := cfg s; thr := thr s;
     outstandingPrefetches := outstandingPrefetches s;
     outstandingTranslations := x;
     retryPkt := retryPkt s; retryTid := retryTid s;
     cacheBlocked := cacheBlocked s; interruptPending := interruptPending s;
     fetchesInProgress := fetchesInProgress s;
     priorityList := priorityList s; threadFetched := threadFetched s;
     numInst := numInst s; wroteToTimeBuffer := wroteToTimeBuffer s;
     stage_status := stage_status s; processTrapEvent := processTrapEvent s;
     fetchStats := fetchStats s; ftq := ftq s; world := world s;
     trace := trace s; bac_attached := bac_attached s;
     ftq_attached := ftq_attached s |}.

Definition set_retry (p : PacketPtr) (t : ThreadID) (s : FetchState) : FetchState :=
  {| cfg := cfg s; thr := thr s;
     outstandingPrefetches := outstandingPrefetches s;
     outstandingTranslations := outstandingTranslations s;
     retryPkt := p; retryTid := t;
     cacheBlocked := cacheBlocked s; interruptPending := interruptPending s;
     fetchesInProgress := fetchesInProgress s;
     priorityList := priorityList s; threadFetched := threadFetched s;
     numInst := numInst s; wroteToTimeBuffer := wroteToTimeBuffer s;
     stage_status := stage_status s; processTrapEvent := processTrapEvent s;
     fetchStats := fetchStats s; ftq := ftq s; world := world s;
     trace := trace s; bac_attached := bac_attached s;
     ftq_attached := ftq_attached s |}.

Definition set_cacheBlocked x (s : FetchState) : FetchState :=
  {| cfg := cfg s; thr := thr s;
     outstandingPrefetches := outstandingPrefetches s;
     outstandingTranslations := outstandingTranslations s;
     retryPkt := retryPkt s; retryTid := retryTid s;
     cacheBlocked := x; interruptPending := interruptPending s;
     fetchesInProgress := fetchesInProgress s;
     priorityList := priorityList s; threadFetched := threadFetched s;
     numInst := numInst s; wroteToTimeBuffer := wroteToTimeBuffer s;
     stage_status := stage_status s; processTrapEvent := processTrapEvent s;
     fetchStats := fetchStats s; ftq := ftq s; world := world s;
     trace := trace s; bac_attached := bac_attached s;
     ftq_attached := ftq_attached s |}.

Definition set_interruptPending x (s : FetchState) : FetchState :=
  {| cfg := cfg s; thr := thr s;
     outstandingPrefetches := outstandingPrefetches s;
     outstandingTranslations := outstandingTranslations s;
     retryPkt := retryPkt s; retryTid := retryTid s;
     cacheBlocked := cacheBlocked s; interruptPending := x;
     fetchesInProgress := fetchesInProgress s;
     priorityList := priorityList s; threadFetched := threadFetched s;
     numInst := numInst s; wroteToTimeBuffer := wroteToTimeBuffer s;
     stage_status := stage_status s; processTrapEvent := processTrapEvent s;
     fetchStats := fetchStats s; ftq := ftq s; world := world s;
     trace := trace s; bac_attached := bac_attached s;
     ftq_attached := ftq_attached s |}.

Definition set_fetchesInProgress x (s : FetchState) : FetchState :=
  {| cfg := cfg s; thr := thr s;
     outstandingPrefetches := outstandingPrefetches s;
     outstandingTranslations := outstandingTranslations s;
     retryPkt := retryPkt s; retryTid := retryTid s;
     cacheBlocked := cacheBlocked s; interruptPending := interruptPending s;
     fetchesInProgress := x;
     priorityList := priorityList s; threadFetched := threadFetched s;
     numInst := numInst s; wroteToTimeBuffer := wroteToTimeBuffer s;
     stage_status := stage_status s; processTrapEvent := processTrapEvent s;
     fetchStats := fetchStats s; ftq := ftq s; world := world s;
     trace := trace s; bac_attached := bac_attached s;
     ftq_attached := ftq_attached s |}.

Definition set_priorityList x (s : FetchState) : FetchState :=
  {| cfg := cfg s; thr := thr s;
     outstandingPrefetches := outstandingPrefetches s;
     outstandingTranslations := outstandingTranslations s;
     retryPkt := retryPkt s; retryTid := retryTid s;
     cacheBlocked := cacheBlocked s; interruptPending := interruptPending s;
     fetchesInProgress := fetchesInProgress s;
     priorityList := x; threadFetched := threadFetched s;
     numInst := numInst s; wroteToTimeBuffer := wroteToTimeBuffer s;
     stage_status := stage_status s; processTrapEvent := processTrapEvent s;
     fetchStats := fetchStats s; ftq := ftq s; world := world s;
     trace := trace s; bac_attached := bac_attached s;
     ftq_attached := ftq_attached s |}.

Definition set_threadFetched x (s : FetchState) : FetchState :=
  {| cfg := cfg s; thr := thr s;
     outstandingPrefetches := outstandingPrefetches s;
     outstandingTranslations := outstandingTranslations s;
     retryPkt := retryPkt s; retryTid := retryTid s;
     cacheBlocked := cacheBlocked s; interruptPending := interruptPending s;
     fetchesInProgress := fetchesInProgress s;
     priorityList := priorityList s; threadFetched := x;
     numInst := numInst s; wroteToTimeBuffer := wroteToTimeBuffer s;
     stage_status := stage_status s; processTrapEvent := processTrapEvent s;
     fetchStats := fetchStats s; ftq := ftq s; world := world s;
     trace := trace s; bac_attached := bac_attached s;
     ftq_attached := ftq_attached s |}.

Definition set_numInst x (s : FetchState) : FetchState :=
  {| cfg := cfg s; thr := thr s;
     outstandingPrefetches := outstandingPrefetches s;
     outstandingTranslations := outstandingTranslations s;
     retryPkt := retryPkt s; retryTid := retryTid s;
     cacheBlocked := cacheBlocked s; interruptPending := interruptPending s;
     fetchesInProgress := fetchesInProgress s;
     priorityList := priorityList s; threadFetched := threadFetched s;
     numInst := x; wroteToTimeBuffer := wroteToTimeBuffer s;
     stage_status := stage_status s; processTrapEvent := processTrapEvent s;
     fetchStats := fetchStats s; ftq := ftq s; world := world s;
     trace := trace s; bac_attached := bac_attached s;
     ftq_attached := ftq_attached s |}.

Definition set_wroteToTimeBuffer x (s : FetchState) : FetchState :=
  {| cfg := cfg s; thr := thr s;
     outstandingPrefetches := outstandingPrefetches s;
     outstandingTranslations := outstandingTranslations s;
     retryPkt := retryPkt s; retryTid := retryTid s;
     cacheBlocked := cacheBlocked s; interruptPending := interruptPending s;
     fetchesInProgress := fetchesInProgress s;
     priorityList := priorityList s; threadFetched := threadFetched s;
     numInst := numInst s; wroteToTimeBuffer := x;
     stage_status := stage_status s; processTrapEvent := processTrapEvent s;
     fetchStats := fetchStats s; ftq := ftq s; world := world s;
     trace := trace s; bac_attached := bac_attached s;
     ftq_attached := ftq_attached s |}.

Definition set_stage_status x (s : FetchState) : FetchState :=
  {| cfg := cfg s; thr := thr s;
     outstandingPrefetches := outstandingPrefetches s;
     outstandingTranslations := outstandingTranslations s;
     retryPkt := retryPkt s; retryTid := retryTid s;
     cacheBlocked := cacheBlocked s; interruptPending := interruptPending s;
     fetchesInProgress := fetchesInProgress s;
     priorityList := priorityList s; threadFetched := threadFetched s;
     numInst := numInst s; wroteToTimeBuffer := wroteToTimeBuffer s;
     stage_status := x; processTrapEvent := processTrapEvent s;
     fetchStats := fetchStats s; ftq := ftq s; world := world s;
     trace := trace s; bac_attached := bac_attached s;
     ftq_attached := ftq_attached s |}.

Definition set_processTrapEvent x (s : FetchState) : FetchState :=
  {| cfg := cfg s; thr := thr s;
     outstandingPrefetches := outstandingPrefetches s;
     outstandingTranslations := outstandingTranslations s;
     retryPkt := retryPkt s; retryTid := retryTid s;
     cacheBlocked := cacheBlocked s; interruptPending := interruptPending s;
     fetchesInProgress := fetchesInProgress s;
     priorityList := priorityList s; threadFetched := threadFetched s;
     numInst := numInst s; wroteToTimeBuffer := wroteToTimeBuffer s;
     stage_status := stage_status s; processTrapEvent := x;
     fetchStats := fetchStats s; ftq := ftq s; world := world s;
     trace := trace s; bac_attached := bac_attached s;
     ftq_attached := ftq_attached s |}.

Definition set_fetchStats x (s : FetchState) : FetchState :=
  {| cfg := cfg s; thr := thr s;
     outstandingPrefetches := outstandingPrefetches s;
     outstandingTranslations := outstandingTranslations s;
     retryPkt := retryPkt s; retryTid := retryTid s;
     cacheBlocked := cacheBlocked s; interruptPending := interruptPending s;
     fetchesInProgress := fetchesInProgress s;
     priorityList := priorityList s; threadFetched := threadFetched s;
     numInst := numInst s; wroteToTimeBuffer := wroteToTimeBuffer s;
     stage_status := stage_status s; processTrapEvent := processTrapEvent s;
     fetchStats := x; ftq := ftq s; world := world s;
     trace := trace s; bac_attached := bac_attached s;
     ftq_attached := ftq_attached s |}.

Definition set_ftq x (s : FetchState) : FetchState :=
  {| cfg := cfg s; thr := thr s;
     outstandingPrefetches := outstandingPrefetches s;
     outstandingTranslations := outstandingTranslations s;
     retryPkt := retryPkt s; retryTid := retryTid s;
     cacheBlocked := cacheBlocked s; interruptPending := interruptPending s;
     fetchesInProgress := fetchesInProgress s;
     priorityList := priorityList s; threadFetched := threadFetched s;
     numInst := numInst s; wroteToTimeBuffer := wroteToTimeBuffer s;
     stage_status := stage_status s; processTrapEvent := processTrapEvent s;
     fetchStats := fetchStats s; ftq := x; world := world s;
     trace := trace s; bac_attached := bac_attached s;
     ftq_attached := ftq_attached s |}.

Definition set_world x (s : FetchState) : FetchState :=
  {| cfg := cfg s; thr := thr s;
     outstandingPrefetches := outstandingPrefetches s;
     outstandingTranslations := outstandingTranslations s;
     retryPkt := retryPkt s; retryTid := retryTid s;
     cacheBlocked := cacheBlocked s; interruptPending := interruptPending s;
     fetchesInProgress := fetchesInProgress s;
     priorityList := priorityList s; threadFetched := threadFetched s;
     numInst := numInst s; wroteToTimeBuffer := wroteToTimeBuffer s;
     stage_status := stage_status s; processTrapEvent := processTrapEvent s;
     fetchStats := fetchStats s; ftq := ftq s; world := x;
     trace := trace s; bac_attached := bac_attached s;
     ftq_attached := ftq_attached s |}.

Definition set_trace x (s : FetchState) : FetchState :=
  {| cfg := cfg s; thr := thr s;
     outstandingPrefetches := outstandingPrefetches s;
     outstandingTranslations := outstandingTranslations s;
     retryPkt := retryPkt s; retryTid := retryTid s;
     cacheBlocked := cacheBlocked s; interruptPending := interruptPending s;
     fetchesInProgress := fetchesInProgress s;
     priorityList := priorityList s; threadFetched := threadFetched s;
     numInst := numInst s; wroteToTimeBuffer := wroteToTimeBuffer s;
     stage_status := stage_status s; processTrapEvent := processTrapEvent s;
     fetchStats := fetchStats s; ftq := ftq s; world := world s;
     trace := x; bac_attached := bac_attached s;
     ftq_attached := ftq_attached s |}.

(** The member pointers [bac] and [ftq]: the model keeps whether each is
    non-null; the queue the [ftq] pointer designates is the field [ftq]. *)
Definition set_attached (b f : bool) (s : FetchState) : FetchState :=
  {| cfg := cfg s; thr := thr s;
     outstandingPrefetches := outstandingPrefetches s;
     outstandingTranslations := outstandingTranslations s;
     retryPkt := retryPkt s; retryTid := retryTid s;
     cacheBlocked := cacheBlocked s; interruptPending := interruptPending s;
     fetchesInProgress := fetchesInProgress s;
     priorityList := priorityList s; threadFetched := threadFetched s;
     numInst := numInst s; wroteToTimeBuffer := wroteToTimeBuffer s;
     stage_status := stage_status s; processTrapEvent := processTrapEvent s;
     fetchStats := fetchStats s; ftq := ftq s; world := world s;
     trace := trace s; bac_attached := b; ftq_attached := f |}.

Definition set_world_counters (sends translates : nat) (seq : InstSeqNum)
    (rid : nat) (mp : list (Request * FetchTargetPtr)) (ip : list Packet)
    (w : World) : World :=
  {| isMemAddr := isMemAddr w; portAccepts := portAccepts w;
     sendCount := sends; mmuImmediate := mmuImmediate w;
     translateCount := translates; curTick := curTick w;
     switchedOut := switchedOut w; isDraining := isDraining w;
     contextId := contextId w; contextToThread := contextToThread w;
     instSeq := seq; nextReqId := rid; cpuPcState := cpuPcState w;
     pcMask := pcMask w; isRomMicroPC := isRomMicroPC w;
     activeThreads := activeThreads w;
     iqCount_of := iqCount_of w; ldstqCount_of := ldstqCount_of w;
     accessLatencyCycles := accessLatencyCycles w;
     translationLatencyCycles := translationLatencyCycles w;
     mmuPending := mp; icachePending := ip |}.

(** ** The monad of the stage: state, and abort on a failed assertion *)

Inductive Res (A : Type) :=
  | Ok (a : A) (s : FetchState)
  | Abort (msg : string).
Arguments Ok {A} a s.
Arguments Abort {A} msg.

Definition M (A : Type) : Type := FetchState → Res A.

#[global] Instance M_ret : MRet M := λ A a s, Ok a s.
#[global] Instance M_bind : MBind M := λ A B f m s,
  match m s with
  | Ok a s' => f a s'
  | Abort msg => Abort msg
  end.

Definition get : M FetchState := λ s, Ok s s.
Definition modify (f : FetchState → FetchState) : M unit := λ s, Ok tt (f s).
Definition assert (b : bool) (msg : string) : M unit :=
  λ s, if b then Ok tt s else Abort msg.
Definition panic {A} (msg : string) : M A := λ _, Abort msg.
Definition emit (e : Effect) : M unit :=
  modify (λ s, set_trace (trace s ++ [e]) s).
Definition when (b : bool) (m : M unit) : M unit := if b then m else mret tt.

(** [++fetchStats.x] and [fetchStats.x += n]. *)
Definition stat_add (x : Stat) (n : Z) : M unit :=
  modify (λ s, set_fetchStats (<[x := fetchStats s x + n]> (fetchStats s)) s).
Definition stat_inc (x : Stat) : M unit := stat_add x 1.

(** An assignment to one field of the per-thread arrays. *)
Definition upd_thread (tid : ThreadID) (f : ThreadState → ThreadState) : M unit :=
  modify (λ s, set_thr (alter f tid (thr s)) s).

(** A member function call through a fetch target pointer. *)
Definition upd_ft (i : nat) (g : FetchTarget → FetchTarget) : M unit :=
  modify (λ s, set_ftq (ftq_update i g (ftq s)) s).

(** ** Calls into the environment *)

(** [icachePort.sendTimingReq(pkt)]: the port answers; a packet it
    accepts is in flight until its response is delivered. *)
Definition sendTimingReq (pkt : Packet) : M bool := λ s,
  let w := world s in
  let ok := portAccepts w (sendCount w) in
  let w' := set_world_counters (S (sendCount w)) (translateCount w)
              (instSeq w) (nextReqId w) (mmuPending w)
              (if ok then icachePending w ++ [pkt] else icachePending w) w in
  Ok ok (set_trace (trace s ++ [ESendTimingReq pkt ok]) (set_world w' s)).

(** [cpu->getAndIncrementInstSeq()]. *)
Definition getAndIncrementInstSeq : M InstSeqNum := λ s,
  let w := world s in
  Ok (instSeq w)
     (set_world (set_world_counters (sendCount w) (translateCount w)
                   (instSeq w + 1) (nextReqId w) (mmuPending w)
                   (icachePending w) w) s).

(** [std::make_shared<Request>(vaddr, fetchBufferSize, INST_FETCH, ..., pc,
    contextId)]: a request object nobody else points to. *)
Definition newRequest (vaddr : Addr) (tid : ThreadID) (pc_ : Addr) : M Request :=
  λ s,
  let w := world s in
  Ok {| req_id := nextReqId w; req_vaddr := vaddr;
        req_size := fetchBufferSize (cfg s); req_pc := pc_;
        req_contextId := contextId w tid; req_paddr := None;
        req_accessDepth := 0 |}
     (set_world (set_world_counters (sendCount w) (translateCount w)
                   (instSeq w) (S (nextReqId w)) (mmuPending w)
                   (icachePending w) w) s).

(** Modelled from the spec: the helpers declared in the header of the
    stage.  [fetchBufferAlignPC] aligns an address down to the fetch
    buffer size, [cacheBlockAligned] down to the cache block size, and
    [checkInterrupt] tells whether an interrupt is pending. *)
Definition fetchBufferAlignPC (p : Params) (addr : Addr) : Addr :=
  Z.land addr (Z.lnot (fetchBufferMask p)).
Definition cacheBlockAligned (p : Params) (addr : Addr) : Addr :=
  Z.land addr (Z.lnot (cacheBlkSize p - 1)).
Definition checkInterrupt (pc_ : Addr) : M bool :=
  s ← get; mret (interruptPending s).

(** [latency > 0 ? floorLog2(latency) : 0]. *)
Definition log2_or_0 (lat : Z) : Z := if decide (0 < lat) then Z.log2 lat else 0.

(** ** Stalls and stage activity *)

Definition checkStall (tid : ThreadID) : M bool :=
  s ← get;
  if stalls_drain (thr s tid)
  then assert (isDraining (world s)) "cpu->isDraining()";; mret true
  else mret false.

Definition switchToActive : M unit :=
  s ← get;
  when (bool_decide (stage_status s = Inactive))
    (emit EActivateStage;; modify (set_stage_status Active)).

Definition switchToInactive : M unit :=
  s ← get;
  when (bool_decide (stage_status s = Active))
    (emit EDeactivateStage;; modify (set_stage_status Inactive)).

Definition is_active_status (x : ThreadStatus) : bool :=
  match x with
  | Running | Squashing | IcacheAccessComplete => true
  | _ => false
  end.

Definition updateFetchStatus : M FetchStatus :=
  s ← get;
  if existsb (λ tid, is_active_status (fetchStatus (thr s tid)))
       (activeThreads (world s))
  then when (bool_decide (stage_status s = Inactive)) (emit EActivateStage);;
       mret Active
  else when (bool_decide (stage_status s = Active)) (emit EDeactivateStage);;
       mret Inactive.

(** ** Building instructions and traps *)

Definition buildInst (tid : ThreadID) (si : StaticInst)
    (curMacroop : option StaticInst) (this_pc next_pc : PCState) : M DynInst :=
  seq ← getAndIncrementInstSeq;
  let instruction :=
    {| seqNum := seq; di_tid := tid; staticInst := si;
       di_macroop := curMacroop; pcState := this_pc; predTarg := next_pc;
       notAnInst := false; di_fault := NoFault |} in
  emit (EAddInst instruction);;
  s ← get;
  assert (bool_decide (numInst s < fetchWidth (cfg s))) "numInst < fetchWidth";;
  upd_thread tid (λ t, set_fetchQueue (fetchQueue t ++ [instruction]) t);;
  s ← get;
  assert (bool_decide (Z.of_nat (length (fetchQueue (thr s tid)))
                         ≤ fetchQueueSize (cfg s)))
    "fetchQueue[tid].size() <= fetchQueueSize";;
  upd_thread tid (set_delayedCommit (si_isDelayedCommit si));;
  mret instruction.

(** The instruction a trap is carried by is changed through its pointer
    after [buildInst] has queued it: the queued entry changes with it. *)
Definition update_last {A} (f : A → A) (l : list A) : list A :=
  match reverse l with
  | [] => []
  | x :: r => reverse r ++ [f x]
  end.

Definition processTrap (tid : ThreadID) (fault : Fault) (mem_req : RequestPtr)
    : M unit :=
  s ← get;
  if negb (bool_decide (numInst s < fetchWidth (cfg s)))
     || negb (bool_decide (Z.of_nat (length (fetchQueue (thr s tid)))
                             < fetchQueueSize (cfg s)))
  then
    assert (bool_decide (processTrapEvent s = None))
      "!processTrapEvent.scheduled()";;
    modify (set_processTrapEvent (Some (tid, fault, mem_req)));;
    emit EScheduleProcessTrap
  else
    upd_thread tid (set_memReq None);;
    let fetch_pc := pc (thr s tid) in
    _ ← buildInst tid nopStaticInst None fetch_pc fetch_pc;
    upd_thread tid (λ t, set_fetchQueue
      (update_last (λ i, {| seqNum := seqNum i; di_tid := di_tid i;
                            staticInst := staticInst i;
                            di_macroop := di_macroop i; pcState := pcState i;
                            predTarg := fetch_pc; notAnInst := true;
                            di_fault := fault |}) (fetchQueue t)) t);;
    modify (set_wroteToTimeBuffer true);;
    emit EActivityThisCycle;;
    upd_thread tid (set_fetchStatus TrapPending).

(** ** The cache-access engine *)

Definition performCacheAccess (vaddr : Addr) (tid : ThreadID)
    (mem_req : Request) (prefetch : bool) : M bool :=
  s ← get;
  if negb (isMemAddr (world s) (getPaddr mem_req)) then
    emit (EWarnBadAddr (getPaddr mem_req));;
    upd_thread tid (set_fetchStatus NoGoodAddr);;
    upd_thread tid (set_memReq None);;
    mret false
  else
    let data_pkt :=
      {| pkt_req := mem_req;
         pkt_data := replicate (Z.to_nat (fetchBufferSize (cfg s))) Byte.x00 |} in
    when (negb prefetch)
      (upd_thread tid (set_fetchBufferPC vaddr);;
       upd_thread tid (set_fetchBufferValid false);;
       assert (bool_decide (vaddr = getVaddr mem_req))
         "vaddr == mem_req->getVaddr()";;
       stat_inc cacheLines);;
    sent ← sendTimingReq data_pkt;
    if negb sent then
      s ← get;
      assert (bool_decide (retryPkt s = None)) "retryPkt == NULL";;
      assert (bool_decide (retryTid s = InvalidThreadID))
        "retryTid == InvalidThreadID";;
      (if prefetch then emit (EDeletePacket data_pkt)
       else
         upd_thread tid (set_fetchStatus IcacheWaitRetry);;
         modify (set_retry (Some data_pkt) tid);;
         modify (set_cacheBlocked true));;
      mret false
    else
      modify (λ s, set_fetchesInProgress
                     ({[getPaddr mem_req]} ∪ fetchesInProgress s) s);;
      s ← get;
      emit (ESample memReqInFlight (Z.of_nat (size (fetchesInProgress s))));;
      when (negb prefetch)
        (upd_thread tid (set_lastIcacheStall (curTick (world s)));;
         upd_thread tid (set_fetchStatus IcacheWaitResponse);;
         emit (ENotifyFetchRequestSent (Some mem_req)));;
      mret true.

(** ** The translation manager *)

Definition ft_isValid_ptr (q : FTQ) (ft : FetchTargetPtr) : bool :=
  match ft with
  | Some i => ft_valid (fts q i)
  | None => false
  end.

Definition finishTranslation (fault : Fault) (mem_req : Request)
    (ft : FetchTargetPtr) : M unit :=
  s ← get;
  let tid := contextToThread (world s) (req_contextId mem_req) in
  let fetchBufferBlockPC := getVaddr mem_req in
  assert (negb (switchedOut (world s))) "!cpu->switchedOut()";;
  emit EWakeCPU;;
  modify (λ s, set_outstandingTranslations (outstandingTranslations s - 1) s);;
  let record_on_ft (prefetch : bool) : M unit :=
    match ft with
    | Some i =>
        upd_ft i (ft_finishTranslation fault mem_req);;
        emit (ESample translationLatency
                (log2_or_0 (translationLatencyCycles (world s) mem_req)))
    | None => mret tt
    end in
  if negb (bool_decide (fetchStatus (thr s tid) = ItlbWait))
     || negb (req_ptr_eqb (Some mem_req) (memReq (thr s tid)))
     || negb (bool_decide (Some (getVaddr mem_req)
                             = getVaddr <$> memReq (thr s tid)))
  then
    if ft_isValid_ptr (ftq s) ft then record_on_ft true
    else stat_inc tlbSquashes
  else
    when (ft_isValid_ptr (ftq s) ft) (record_on_ft false);;
    (if fault is None
     then _ ← performCacheAccess fetchBufferBlockPC tid mem_req false; mret tt
     else processTrap tid fault (Some mem_req));;
    st ← updateFetchStatus;
    modify (set_stage_status st).

(** [cpu->mmu->translateTiming(mem_req, tc, trans, BaseMMU::Execute)]: the
    MMU either completes inside the call, calling back
    [finishTranslation] with the translated request, or keeps the
    translation pending. *)
Definition translateTiming (mem_req : Request) (tid : ThreadID)
    (ft : FetchTargetPtr) : M unit :=
  emit (ETranslateTiming mem_req tid ft);;
  s ← get;
  let w := world s in
  let n := translateCount w in
  match mmuImmediate w n with
  | Some (fault, pa) =>
      modify (set_world (set_world_counters (sendCount w) (S n) (instSeq w)
                           (nextReqId w) (mmuPending w) (icachePending w) w));;
      finishTranslation fault
        (if fault is None then setPaddr pa mem_req else mem_req) ft
  | None =>
      modify (set_world (set_world_counters (sendCount w) (S n) (instSeq w)
                           (nextReqId w) (mmuPending w ++ [(mem_req, ft)])
                           (icachePending w) w))
  end.

Definition startTranslation (mem_req : Request) (tid : ThreadID)
    (ft : FetchTargetPtr) : M unit :=
  (if ft is Some i then upd_ft i (ft_startTranslation mem_req) else mret tt);;
  modify (λ s, set_outstandingTranslations (outstandingTranslations s + 1) s);;
  translateTiming mem_req tid ft.

(** ** The request builder *)

Definition makeRequest (vaddr : Addr) (tid : ThreadID) (pc_ : Addr)
    (ft : FetchTargetPtr) : M Request :=
  s ← get;
  (* First check if we can reuse the request from the fetch target. *)
  reused ←
    match ft with
    | Some i =>
        match ft_req (fts (ftq s) i) with
        | Some r =>
            if bool_decide (getVaddr r = vaddr)
            then upd_ft i ft_popReq;; upd_ft i ft_markReady;; mret (Some r)
            else mret None
        | None => mret None
        end
    | None => mret None
    end;
  req ← (if reused is Some r then mret r else newRequest vaddr tid pc_);
  s ← get;
  match ft with
  | Some i =>
      let t := fts (ftq s) i in
      if ft_hasPaddr t && bool_decide (ft_blkAddr t = cacheBlockAligned (cfg s) vaddr)
      then
        let cl_pa := Z.land (ft_getPaddr t) (Z.lnot (cacheBlkSize (cfg s) - 1)) in
        let cl_pa := cl_pa + Z.land vaddr (cacheBlkSize (cfg s) - 1) in
        mret (setPaddr cl_pa req)
      else mret req
  | None => mret req
  end.

(** ** Fetching a cache line *)

(** The fetch target [fetchCacheLine] works with in the decoupled front
    end: the head of the FTQ when it covers the cache block, otherwise the
    next entry when the head falls through to it and it covers the block,
    otherwise none. *)
Definition selectFetchTarget (vaddr : Addr) (tid : ThreadID)
    : M FetchTargetPtr :=
  s ← get;
  let cacheBlock := cacheBlockAligned (cfg s) vaddr in
  match ftq_readHead (ftq s) tid with
  | None => panic "assert(ft)"
  | Some h =>
      if bool_decide (ft_blkAddr (fts (ftq s) h) ≠ cacheBlock) then
        stat_inc ftCrossCacheBlock;;
        if ft_fallThrough (fts (ftq s) h) then
          match ftq_readNextHead (ftq s) tid with
          | Some n =>
              if bool_decide (ft_blkAddr (fts (ftq s) n) ≠ cacheBlock)
              then stat_inc ftCrossCacheBlockNotNext;; mret None
              else mret (Some n)
          | None => mret None
          end
        else mret None
      else mret (Some h)
  end.

Definition fetchCacheLine (vaddr : Addr) (tid : ThreadID) (pc_ : Addr)
    (ft : FetchTargetPtr) : M bool :=
  s ← get;
  assert (negb (switchedOut (world s))) "!cpu->switchedOut()";;
  irq ← checkInterrupt pc_;
  if cacheBlocked s then mret false
  else if irq && negb (delayedCommit (thr s tid)) then mret false
  else
    (* Align the fetch address to the start of a fetch buffer segment. *)
    let fetchBufferBlockPC := fetchBufferAlignPC (cfg s) vaddr in
    ft ← (if decoupledFrontEnd (cfg s) then selectFetchTarget vaddr tid
          else mret ft);
    s ← get;
    done ←
      match ft return M bool with
      | None => mret false
      | Some i =>
          match ft_state (fts (ftq s) i) with
          | ReadyToFetch => stat_inc ftReadyToFetch;; mret false
          | PrefetchInProgress =>
              stat_inc ftPrefetchInProgress;;
              stat_inc pfLate;;
              (* Prefetch will become the demand request. *)
              modify (λ s, set_outstandingPrefetches
                             (outstandingPrefetches s - 1) s);;
              upd_thread tid (set_lastIcacheStall (curTick (world s)));;
              upd_thread tid (set_fetchStatus IcacheWaitResponse);;
              upd_thread tid (set_fetchBufferPC fetchBufferBlockPC);;
              upd_thread tid (set_fetchBufferValid false);;
              upd_thread tid (set_memReq (ft_req (fts (ftq s) i)));;
              upd_ft i ft_popReq;;
              upd_ft i ft_markReady;;
              emit (ENotifyFetchRequestSent (ft_req (fts (ftq s) i)));;
              mret true
          | TranslationInProgress =>
              stat_inc ftTranslationInProgress;;
              upd_thread tid (set_fetchStatus ItlbWait);;
              upd_thread tid (set_memReq (ft_req (fts (ftq s) i)));;
              upd_ft i ft_popReq;;
              upd_ft i ft_markReady;;
              mret true
          | TranslationFailed =>
              stat_inc ftTranslationFailed;;
              processTrap tid (ft_fault (fts (ftq s) i))
                (ft_req (fts (ftq s) i));;
              mret true
          | TranslationReady => stat_inc ftTranslationReady;; mret false
          | Initial => mret false
          end
      end;
    if (done : bool) then mret true
    else
      (* Create a new request for the fetch buffer block. *)
      req ← makeRequest fetchBufferBlockPC tid pc_ ft;
      upd_thread tid (set_memReq (Some req));;
      (if hasPaddr req
       then _ ← performCacheAccess fetchBufferBlockPC tid req false; mret tt
       else
         upd_thread tid (set_fetchStatus ItlbWait);;
         startTranslation req tid ft);;
      mret true.

(** ** The FTQ prefetcher *)

Definition processFTQ (tid : ThreadID) : M unit :=
  s ← get;
  (* To prefetch there must be at least one other fetch target apart from
     the head FT in the FTQ. *)
  if bool_decide (ftq_size (ftq s) tid < 2) then mret tt
  else if negb (ftq_isValid (ftq s) tid) then mret tt
  else
    (* Prefetch translations *)
    (if bool_decide (outstandingTranslations s < maxOutstandingTranslations (cfg s))
     then
       match ftq_findAfterHead (ftq s) tid ft_requiresTranslation with
       | Some i =>
           let start := ft_start (fts (ftq s) i) in
           let fetchBufferBlockPC := fetchBufferAlignPC (cfg s) start in
           req ← makeRequest fetchBufferBlockPC tid start None;
           startTranslation req tid (Some i)
       | None => mret tt
       end
     else stat_inc pfTranslationLimitReached);;
    (* Prefetch *)
    s ← get;
    if bool_decide (retryPkt s ≠ None) || cacheBlocked s then mret tt
    else if bool_decide (maxOutstandingPrefetches (cfg s) ≤ outstandingPrefetches s)
    then stat_inc pfLimitReached
    else
      match ftq_findAfterHead (ftq s) tid ft_translationReady with
      | Some i =>
          match ft_req (fts (ftq s) i) with
          | None => panic "req != nullptr"
          | Some req =>
              (* Check if an access to this address is already in flight. *)
              if bool_decide (getPaddr req ∈ fetchesInProgress s)
              then upd_ft i ft_markReady
              else
                issued ← performCacheAccess (getVaddr req) tid req true;
                when issued
                  (upd_ft i ft_prefetchIssued;;
                   modify (λ s, set_outstandingPrefetches
                                  (outstandingPrefetches s + 1) s);;
                   stat_inc pfIssued)
          end
      | None => mret tt
      end.

Definition isPrefetchTranslation (tid : ThreadID) (fault : Fault)
    (mem_req : Request) : M bool :=
  s ← get;
  if negb (decoupledFrontEnd (cfg s)) then mret false
  else
    match ftq_findAfterHead (ftq s) tid
            (λ ft, req_ptr_eqb (ft_req ft) (Some mem_req)) with
    | None => mret false
    | Some i => upd_ft i (ft_finishTranslation fault mem_req);; mret true
    end.

Definition trySatisfyPrefetch (tid : ThreadID) (pkt : Packet) : M bool :=
  s ← get;
  if negb (decoupledFrontEnd (cfg s)) then mret false
  else
    (* Iterate over all fetch targets in the FTQ and check if the request
       belongs to one of them. *)
    match ftq_findAfterHead (ftq s) tid
            (λ ft, req_ptr_eqb (ft_req ft) (Some (pkt_req pkt))) with
    | None => mret false
    | Some i =>
        upd_ft i ft_markReady;;
        modify (λ s, set_outstandingPrefetches (outstandingPrefetches s - 1) s);;
        stat_inc pfReceived;;
        when (bool_decide (req_accessDepth (pkt_req pkt) = 0))
          (stat_inc pfInCache);;
        emit (EDeletePacket pkt);;
        mret true
    end.

(** ** Completion of a cache access *)

Definition processCacheCompletion (pkt : Packet) : M unit :=
  s ← get;
  let tid := contextToThread (world s) (req_contextId (pkt_req pkt)) in
  modify (λ s, set_fetchesInProgress
                 (fetchesInProgress s ∖ {[getPaddr (pkt_req pkt)]}) s);;
  (* Only change the status if it's still waiting on the icache access to
     return. *)
  if negb (bool_decide (fetchStatus (thr s tid) = IcacheWaitResponse))
     || negb (req_ptr_eqb (Some (pkt_req pkt)) (memReq (thr s tid)))
  then
    satisfied ← trySatisfyPrefetch tid pkt;
    if (satisfied : bool) then mret tt
    else stat_inc icacheSquashes;; emit (EDeletePacket pkt)
  else
    assert (negb (switchedOut (world s))) "!cpu->switchedOut()";;
    upd_thread tid (set_fetchBuffer
      (take (Z.to_nat (fetchBufferSize (cfg s))) (pkt_data pkt)));;
    upd_thread tid (set_fetchBufferValid true);;
    emit EWakeCPU;;
    switchToActive;;
    (* Only switch to IcacheAccessComplete if we're not stalled as well. *)
    stalled ← checkStall tid;
    upd_thread tid (set_fetchStatus
      (if (stalled : bool) then Blocked else IcacheAccessComplete));;
    stat_inc (if bool_decide (req_accessDepth (pkt_req pkt) = 0)
              then demandHit else demandMiss);;
    emit (ESample instrAccessLatency
            (log2_or_0 (accessLatencyCycles (world s) (pkt_req pkt))));;
    emit (ENotifyInstAccessComplete pkt);;
    emit (EDeletePacket pkt);;
    upd_thread tid (set_memReq None).

(** ** Squashing *)

Definition doSquash (new_pc : PCState) (squashInst : DynInstPtr)
    (tid : ThreadID) : M unit :=
  upd_thread tid (set_pc new_pc);;
  upd_thread tid (set_fetchOffset 0);;
  upd_thread tid (set_macroop
    match squashInst with
    | Some i =>
        if bool_decide (instAddr (pcState i) = instAddr new_pc)
           && negb (si_isLastMicroop (staticInst i))
        then di_macroop i else None
    | None => None
    end);;
  emit (EDecoderReset tid);;
  (* Clear the icache miss if it's outstanding. *)
  s ← get;
  (if bool_decide (fetchStatus (thr s tid) = IcacheWaitResponse)
   then upd_thread tid (set_memReq None)
   else if bool_decide (fetchStatus (thr s tid) = ItlbWait)
   then upd_thread tid (set_memReq None)
   else mret tt);;
  (* Get rid of the retrying packet if it was from this thread. *)
  when (bool_decide (retryTid s = tid))
    (assert (cacheBlocked s) "cacheBlocked";;
     (if retryPkt s is Some p then emit (EDeletePacket p) else mret tt);;
     modify (set_retry None InvalidThreadID));;
  upd_thread tid (set_fetchStatus Squashing);;
  (* Empty fetch queue *)
  upd_thread tid (set_fetchQueue []);;
  upd_thread tid (set_delayedCommit true);;
  (* Drop all prefetches *)
  s ← get;
  stat_add pfSquashed (outstandingPrefetches s);;
  modify (set_outstandingPrefetches 0);;
  stat_inc squashCycles.

Definition squashFromDecode (new_pc : PCState) (squashInst : DynInstPtr)
    (seq_num : InstSeqNum) (tid : ThreadID) : M unit :=
  doSquash new_pc squashInst tid;;
  emit (ERemoveInstsUntil seq_num tid).

Definition squash (new_pc : PCState) (seq_num : InstSeqNum)
    (squashInst : DynInstPtr) (tid : ThreadID) : M unit :=
  doSquash new_pc squashInst tid;;
  emit (ERemoveInstsNotInROB tid).

(** ** Retry after back-pressure *)

Definition recvReqRetry : M unit :=
  s ← get;
  match retryPkt s with
  | Some p =>
      assert (cacheBlocked s) "cacheBlocked";;
      assert (bool_decide (retryTid s ≠ InvalidThreadID))
        "retryTid != InvalidThreadID";;
      assert (bool_decide (fetchStatus (thr s (retryTid s)) = IcacheWaitRetry))
        "fetchStatus[retryTid] == IcacheWaitRetry";;
      sent ← sendTimingReq p;
      when sent
        (upd_thread (retryTid s) (set_fetchStatus IcacheWaitResponse);;
         emit (ENotifyFetchRequestSent (Some (pkt_req p)));;
         modify (set_retry None InvalidThreadID);;
         modify (set_cacheBlocked false))
  | None =>
      assert (bool_decide (retryTid s = InvalidThreadID))
        "retryTid == InvalidThreadID";;
      modify (set_cacheBlocked false)
  end.

(** ** Signals from the later stages *)

(** The slots of the time buffer that [checkSignalsAndUpdate] reads for
    one thread. *)
Record Signals := {
  decodeBlock : bool;
  decodeUnblock : bool;
  decodeInfo_squash : bool;
  decodeInfo_squashInst : DynInstPtr;
  decodeInfo_doneSeqNum : InstSeqNum;
  decodeInfo_nextPC : PCState;
  commitInfo_squash : bool;
  commitInfo_squashInst : DynInstPtr;
  commitInfo_doneSeqNum : InstSeqNum;
  commitInfo_pc : PCState
}.

Definition checkSignalsAndUpdate (sig : Signals) (tid : ThreadID) : M bool :=
  (* Update the per thread stall statuses. *)
  when (decodeBlock sig)
    (upd_thread tid (λ t, set_stalls true (stalls_drain t) t));;
  when (decodeUnblock sig)
    (s ← get;
     assert (stalls_decode (thr s tid)) "stalls[tid].decode";;
     assert (negb (decodeBlock sig)) "!fromDecode->decodeBlock[tid]";;
     upd_thread tid (λ t, set_stalls false (stalls_drain t) t));;
  s ← get;
  (* Check squash signals from commit. *)
  if commitInfo_squash sig then
    squash (commitInfo_pc sig) (commitInfo_doneSeqNum sig)
      (commitInfo_squashInst sig) tid;;
    mret true
  (* Check squash signals from decode. *)
  else if decodeInfo_squash sig
          && negb (bool_decide (fetchStatus (thr s tid) = Squashing)) then
    squashFromDecode (decodeInfo_nextPC sig) (decodeInfo_squashInst sig)
      (decodeInfo_doneSeqNum sig) tid;;
    mret true
  else
    stalled ← checkStall tid;
    let st := fetchStatus (thr s tid) in
    if (stalled : bool)
       && negb (bool_decide (st = IcacheWaitResponse))
       && negb (bool_decide (st = IcacheWaitRetry))
       && negb (bool_decide (st = ItlbWait))
       && negb (bool_decide (st = FTQEmpty))
       && negb (bool_decide (st = QuiescePending))
    then upd_thread tid (set_fetchStatus Blocked);; mret true
    else if bool_decide (st = Blocked) || bool_decide (st = Squashing) then
      (if decoupledFrontEnd (cfg s) && ftq_isEmpty (ftq s) tid
       then upd_thread tid (set_fetchStatus FTQEmpty)
       else upd_thread tid (set_fetchStatus Running));;
      mret true
    else if bool_decide (st = FTQEmpty) && negb (ftq_isEmpty (ftq s) tid) then
      upd_thread tid (set_fetchStatus Running);;
      mret true
    else mret false.

(** ** The SMT fetch policies *)

(** The test every policy applies to a candidate thread. *)
Definition fetchable (x : ThreadStatus) : bool :=
  match x with
  | Running | IcacheAccessComplete | Idle => true
  | _ => false
  end.

(** The loop of [roundRobin]: [before] are the entries the iterator has
    passed, [rest] starts at the iterator. *)
Fixpoint roundRobin_loop (before rest : list ThreadID) : M ThreadID :=
  match rest with
  | [] => mret InvalidThreadID
  | high_pri :: rest' =>
      s ← get;
      assert (bool_decide (high_pri ≤ numThreads (cfg s)))
        "high_pri <= numThreads";;
      if fetchable (fetchStatus (thr s high_pri)) then
        modify (set_priorityList (before ++ rest'));;
        modify (λ s, set_priorityList (priorityList s ++ [high_pri]) s);;
        mret high_pri
      else roundRobin_loop (before ++ [high_pri]) rest'
  end.

Definition roundRobin : M ThreadID :=
  s ← get; roundRobin_loop [] (priorityList s).

(** Insertion into the ascending queue of counts. *)
Fixpoint pq_push (c : Z) (pq : list Z) : list Z :=
  match pq with
  | [] => [c]
  | x :: pq' => if bool_decide (c ≤ x) then c :: pq else x :: pq_push c pq'
  end.

(** The body shared by [iqCount] and [lsqCount]: the counts of the active
    threads go through a priority queue, lowest first; [threadMap] keeps,
    for every count, the thread that stored it last. *)
Definition countPolicy (count : ThreadID → Z) : M ThreadID :=
  s ← get;
  let threads := activeThreads (world s) in
  let PQ := foldl (λ pq tid, pq_push (count tid) pq) [] threads in
  let threadMap : Z → ThreadID :=
    foldl (λ m tid, <[count tid := tid]> m) (λ _, 0) threads in
  match find (λ c, fetchable (fetchStatus (thr s (threadMap c)))) PQ with
  | Some c => mret (threadMap c)
  | None => mret InvalidThreadID
  end.

Definition iqCount : M ThreadID :=
  s ← get; countPolicy (iqCount_of (world s)).
Definition lsqCount : M ThreadID :=
  s ← get; countPolicy (ldstqCount_of (world s)).
Definition branchCount : M ThreadID :=
  panic "Branch Count Fetch policy unimplemented".

Definition getFetchingThread : M ThreadID :=
  s ← get;
  if bool_decide (1 < numThreads (cfg s)) then
    assert (negb (decoupledFrontEnd (cfg s))) "!decoupledFrontEnd";;
    match fetchPolicy (cfg s) with
    | RoundRobin => roundRobin
    | IQCount => iqCount
    | LSQCount => lsqCount
    | Branch => branchCount
    end
  else
    match activeThreads (world s) with
    | [] => mret InvalidThreadID
    | tid :: _ =>
        if fetchable (fetchStatus (thr s tid)) then mret tid
        else mret InvalidThreadID
    end.

Definition profileStall (tid : ThreadID) : M unit :=
  s ← get;
  let st := fetchStatus (thr s tid) in
  if stalls_drain (thr s tid) then stat_inc pendingDrainCycles
  else if bool_decide (activeThreads (world s) = []) then
    stat_inc noActiveThreadStallCycles
  else if bool_decide (st = Blocked) then stat_inc blockedCycles
  else if bool_decide (st = Squashing) then stat_inc squashCycles
  else if bool_decide (st = IcacheWaitResponse) then
    stat_inc (cpuIcacheStallCycles tid)
  else if bool_decide (st = ItlbWait) then stat_inc tlbCycles
  else if bool_decide (st = FTQEmpty) then stat_inc ftqStallCycles
  else if bool_decide (st = TrapPending) then stat_inc pendingTrapStallCycles
  else if bool_decide (st = QuiescePending) then
    stat_inc pendingQuiesceStallCycles
  else if bool_decide (st = IcacheWaitRetry) then
    stat_inc icacheWaitRetryStallCycles
  else mret tt.

(** ** Start-up and small state changes *)

Fixpoint for_each {A} (l : list A) (f : A → M unit) : M unit :=
  match l with
  | [] => mret tt
  | x :: l' => f x;; for_each l' f
  end.

Definition threadIds (p : Params) : list ThreadID := seqZ 0 (numThreads p).

Definition resetStage : M unit :=
  modify (set_numInst 0);;
  modify (set_interruptPending false);;
  modify (set_cacheBlocked false);;
  modify (set_priorityList []);;
  s ← get;
  (* Setup PC and nextPC with initial state. *)
  for_each (threadIds (cfg s)) (λ tid,
    upd_thread tid (set_fetchStatus Running);;
    upd_thread tid (set_pc (cpuPcState (world s) tid));;
    upd_thread tid (set_fetchOffset 0);;
    upd_thread tid (set_macroop None);;
    upd_thread tid (set_delayedCommit false);;
    upd_thread tid (set_memReq None);;
    upd_thread tid (set_stalls false false);;
    upd_thread tid (set_fetchBufferPC 0);;
    upd_thread tid (set_fetchBufferValid false);;
    upd_thread tid (set_fetchQueue []);;
    modify (λ s, set_priorityList (priorityList s ++ [tid]) s));;
  modify (set_wroteToTimeBuffer false);;
  modify (set_stage_status Inactive).

Definition clearStates (tid : ThreadID) : M unit :=
  s ← get;
  upd_thread tid (set_fetchStatus Running);;
  upd_thread tid (set_pc (cpuPcState (world s) tid));;
  upd_thread tid (set_fetchOffset 0);;
  upd_thread tid (set_macroop None);;
  upd_thread tid (set_delayedCommit false);;
  upd_thread tid (set_memReq None);;
  upd_thread tid (set_stalls false false);;
  upd_thread tid (set_fetchBufferPC 0);;
  upd_thread tid (set_fetchBufferValid false);;
  upd_thread tid (set_fetchQueue []).

(** [setBACandFTQPtr(bac_ptr, ftq_ptr)]: the arguments say whether the
    pointers handed over are non-null. *)
Definition setBACandFTQPtr (bac_ptr ftq_ptr : bool) : M unit :=
  modify (set_attached bac_ptr ftq_ptr).

Definition startupStage : M unit :=
  s ← get;
  assert (bac_attached s) "bac != nullptr";;
  assert (ftq_attached s) "ftq != nullptr";;
  assert (bool_decide (priorityList s = [])) "priorityList.empty()";;
  resetStage;;
  switchToActive.

(** What the CPU does with a constructed stage before the first tick: it
    hands over the BAC and the FTQ, then starts the stage. *)
Definition bring_up : M unit :=
  setBACandFTQPtr true true;;
  startupStage.

Definition drainStall (tid : ThreadID) : M unit :=
  s ← get;
  assert (isDraining (world s)) "cpu->isDraining()";;
  assert (negb (stalls_drain (thr s tid))) "!stalls[tid].drain";;
  upd_thread tid (λ t, set_stalls (stalls_decode t) true t).

Definition drainResume : M unit :=
  s ← get;
  for_each (threadIds (cfg s)) (λ i, upd_thread i (set_stalls false false)).

Definition wakeFromQuiesce : M unit :=
  upd_thread 0 (set_fetchStatus Running).

Definition deactivateThread (tid : ThreadID) : M unit :=
  modify (λ s, set_priorityList
    (match list_find (λ x, x = tid) (priorityList s) with
     | Some (i, _) => delete i (priorityList s)
     | None => priorityList s
     end) s).

(** The members as the constructor leaves them, for a configuration that
    passes its checks: every thread slot idle, nothing outstanding. *)
Definition constructed_thread (pc0 : PCState) (p : Params) : ThreadState :=
  {| fetchStatus := Idle; pc := pc0; fetchOffset := 0; macroop := None;
     delayedCommit := false; memReq := None; stalls_decode := false;
     stalls_drain := false;
     fetchBuffer := replicate (Z.to_nat (fetchBufferSize p)) Byte.x00;
     fetchBufferPC := 0; fetchBufferValid := false; lastIcacheStall := 0;
     issuePipelinedIfetch := false; fetchQueue := [] |}.

Definition constructed (p : Params) (w : World) (q : FTQ) (pc0 : PCState)
    : FetchState :=
  {| cfg := p; thr := λ _, constructed_thread pc0 p;
     outstandingPrefetches := 0; outstandingTranslations := 0;
     retryPkt := None; retryTid := InvalidThreadID; cacheBlocked := false;
     interruptPending := false; fetchesInProgress := ∅; priorityList := [];
     threadFetched := 0; numInst := 0; wroteToTimeBuffer := false;
     stage_status := Inactive; processTrapEvent := None;
     fetchStats := λ _, 0; ftq := q; world := w; trace := [];
     bac_attached := false; ftq_attached := false |}.

(** The configuration checks of the constructor ([fatal] otherwise). *)
Definition config_ok (p : Params) : bool :=
  bool_decide (fetchBufferSize p ≤ cacheBlkSize p)
  && bool_decide (0 < fetchBufferSize p)
  && bool_decide (cacheBlkSize p `mod` fetchBufferSize p = 0).

(** ** One fetch pass *)

Definition set_issuePipelinedIfetch x (t : ThreadState) : ThreadState :=
  {| fetchStatus := fetchStatus t; pc := pc t; fetchOffset := fetchOffset t;
     macroop := macroop t; delayedCommit := delayedCommit t;
     memReq := memReq t; stalls_decode := stalls_decode t;
     stalls_drain := stalls_drain t; fetchBuffer := fetchBuffer t;
     fetchBufferPC := fetchBufferPC t; fetchBufferValid := fetchBufferValid t;
     lastIcacheStall := lastIcacheStall t;
     issuePipelinedIfetch := x;
     fetchQueue := fetchQueue t |}.

(** [ftqReady(tid, status_change)]: the result and the new value of the
    reference parameter. *)
Definition ftqReady (tid : ThreadID) (status_change : bool) : M (bool * bool) :=
  s ← get;
  if negb (decoupledFrontEnd (cfg s)) then mret (true, status_change)
  else if negb (ftq_isHeadReady (ftq s) tid) then
    upd_thread tid (set_fetchStatus FTQEmpty);;
    mret (false, true)
  else mret (true, status_change).

Definition bacResteer (new_pc : PCState) (tid : ThreadID) : M unit :=
  emit (EBacResteer tid new_pc);;
  modify (λ s, set_ftq (ftq_invalidate tid (ftq s)) s).

Section FetchPass.

  (** The decode loop of [fetch] and what follows it (from
      [++fetchStats.cycles] to the end of the function) is driven by the
      decoder and the BAC; it is a parameter here.  It receives the thread
      and the current [status_change] and returns the new one. *)
Variable decodeLoop : ThreadID → bool → M bool.

Definition fetch (status_change : bool) : M bool :=
    tid ← getFetchingThread;
    s ← get;
    assert (negb (switchedOut (world s))) "!cpu->switchedOut()";;
    if bool_decide (tid = InvalidThreadID) then
      (* Breaks looping condition in tick() *)
      modify (set_threadFetched (numFetchingThreads (cfg s)));;
      when (bool_decide (numThreads (cfg s) = 1)) (profileStall 0);;
      mret status_change
    else
      (* Check if the FTQ is ready and process the tail fetch target. *)
      '(ready, status_change) ← ftqReady tid status_change;
      if negb ready then stat_inc ftqStallCycles;; mret status_change
      else
        s ← get;
        (* The current PC. *)
        let this_pc := pc (thr s tid) in
        let pcOffset := fetchOffset (thr s tid) in
        let fetchAddr :=
          Z.land (instAddr this_pc + pcOffset) (pcMask (world s) tid) in
        let inRom := isRomMicroPC (world s) (microPC this_pc) in
        let curFT := ftq_readHead (ftq s) tid in
        resteer ←
          (if decoupledFrontEnd (cfg s) then
             '(ready', _) ← ftqReady tid status_change;
             assert ready' "ftqReady(tid, status_change)";;
             match curFT with
             | None => panic "curFT"
             | Some h =>
                 if negb (ft_inRange (instAddr this_pc) (fts (ftq s) h))
                 then bacResteer this_pc tid;;
                      stat_inc ftqStallCycles;;
                      mret true
                 else mret false
             end
           else mret false);
        if (resteer : bool) then mret status_change
        else if bool_decide (fetchStatus (thr s tid) = IcacheAccessComplete)
        then
          upd_thread tid (set_fetchStatus Running);;
          decodeLoop tid true
        else if bool_decide (fetchStatus (thr s tid) = Running) then
          (* Align the fetch PC so its at the start of a fetch buffer
             segment. *)
          let fetchBufferBlockPC := fetchBufferAlignPC (cfg s) fetchAddr in
          '(buffered, status_change) ←
            (if fetchBufferValid (thr s tid) then
               '(r, sc) ← ftqReady tid status_change;
               mret (r && bool_decide (fetchBufferBlockPC
                                         = fetchBufferPC (thr s tid)), sc)
             else mret (false, status_change));
          if negb buffered && negb inRom
             && negb (bool_decide (is_Some (macroop (thr s tid)))) then
            _ ← fetchCacheLine fetchAddr tid (instAddr this_pc) None;
            s ← get;
            let st := fetchStatus (thr s tid) in
            (if bool_decide (st = IcacheWaitResponse)
             then stat_inc (cpuIcacheStallCycles tid)
             else if bool_decide (st = ItlbWait) then stat_inc tlbCycles
             else if bool_decide (st = FTQEmpty) then stat_inc ftqStallCycles
             else stat_inc miscStallCycles);;
            mret status_change
          else
            irq ← checkInterrupt (instAddr this_pc);
            s ← get;
            if irq && negb (delayedCommit (thr s tid)) then
              stat_inc miscStallCycles;; mret status_change
            else decodeLoop tid status_change
        else
          when (bool_decide (fetchStatus (thr s tid) = Idle))
            (stat_inc idleCycles);;
          mret status_change.

End FetchPass.

Definition pipelineIcacheAccesses (tid : ThreadID) : M unit :=
  s ← get;
  if negb (issuePipelinedIfetch (thr s tid)) then mret tt
  else
    (* The next PC to access. *)
    let this_pc := pc (thr s tid) in
    if isRomMicroPC (world s) (microPC this_pc) then mret tt
    else
      let pcOffset := fetchOffset (thr s tid) in
      let fetchAddr :=
        Z.land (instAddr this_pc + pcOffset) (pcMask (world s) tid) in
      (* Align the fetch PC so its at the start of a fetch buffer segment. *)
      let fetchBufferBlockPC := fetchBufferAlignPC (cfg s) fetchAddr in
      (* Unless buffer already got the block, fetch it from icache. *)
      if negb (fetchBufferValid (thr s tid)
               && bool_decide (fetchBufferBlockPC = fetchBufferPC (thr s tid)))
      then _ ← fetchCacheLine fetchAddr tid (instAddr this_pc) None; mret tt
      else mret tt.

(** ** The stage as a transition system

    The stage advances by the calls the CPU, the MMU and the I-cache make
    into it.  [tick] runs [checkSignalsAndUpdate], [fetch],
    [pipelineIcacheAccesses] and [processFTQ] in turn and then hands
    instructions to decode; each of them is an event of its own here, so
    that every order [tick] can run them in is covered. *)

(** What one run of the decode loop of [fetch] leaves in the members of
    the stage.  The loop itself belongs to the decoder and the BAC; the
    members it writes are the fetch queue, [numInst], the PC, the macro-op
    and the fetch offset of the thread, [delayedCommit],
    [issuePipelinedIfetch], [wroteToTimeBuffer], the status of the thread
    (to QuiescePending, on a quiesce instruction), statistics and, through
    [updateHead] and [bacResteer], the FTQ. *)
Record DecodeOutcome := {
  dl_insts : list DynInst;
  dl_pc : PCState;
  dl_macroop : option StaticInst;
  dl_fetchOffset : Addr;
  dl_delayedCommit : bool;
  dl_quiesce : bool;
  dl_predictedBranches : Z;
  dl_issuePipelinedIfetch : bool;
  dl_ftq : FTQ;
  dl_effects : list Effect
}.

Definition decodeWrites (o : DecodeOutcome) (tid : ThreadID)
    (status_change : bool) : M bool :=
  stat_inc cycles;;
  stat_add predictedBranches (dl_predictedBranches o);;
  upd_thread tid (λ t, set_fetchQueue (fetchQueue t ++ dl_insts o) t);;
  modify (λ s, set_numInst (numInst s + Z.of_nat (length (dl_insts o))) s);;
  modify (λ s, set_trace (trace s ++ dl_effects o) s);;
  upd_thread tid (set_delayedCommit (dl_delayedCommit o));;
  upd_thread tid (set_pc (dl_pc o));;
  when (dl_quiesce o) (upd_thread tid (set_fetchStatus QuiescePending));;
  modify (set_ftq (dl_ftq o));;
  upd_thread tid (set_macroop (dl_macroop o));;
  upd_thread tid (set_fetchOffset (dl_fetchOffset o));;
  s ← get;
  when (bool_decide (0 < numInst s)) (modify (set_wroteToTimeBuffer true));;
  upd_thread tid (set_issuePipelinedIfetch (dl_issuePipelinedIfetch o));;
  mret (status_change || dl_quiesce o).

(** What the environment may change on its own: the FTQ (the BAC fills
    and squashes it) and the CPU-side facts, but not the requests the MMU
    and the I-cache hold. *)
Definition environment_change (q : FTQ) (w : World) : M unit :=
  modify (λ s,
    set_ftq q
      (set_world (set_world_counters (sendCount w) (translateCount w)
                    (instSeq w) (nextReqId w) (mmuPending (world s))
                    (icachePending (world s)) w) s)).

(** The MMU completes the [k]-th pending translation. *)
Definition translationDone (k : nat) (fault : Fault) (pa : Addr) : M unit :=
  s ← get;
  let w := world s in
  match mmuPending w !! k with
  | Some (req, ft) =>
      modify (set_world (set_world_counters (sendCount w) (translateCount w)
                           (instSeq w) (nextReqId w) (delete k (mmuPending w))
                           (icachePending w) w));;
      finishTranslation fault (if fault is None then setPaddr pa req else req) ft
  | None => panic "no such pending translation"
  end.

(** The I-cache answers the [k]-th pending packet ([recvTimingResp]). *)
Definition cacheResponse (k : nat) (depth : Z) (data : list Byte.byte)
    : M unit :=
  s ← get;
  let w := world s in
  match icachePending w !! k with
  | Some pkt =>
      modify (set_world (set_world_counters (sendCount w) (translateCount w)
                           (instSeq w) (nextReqId w) (mmuPending w)
                           (delete k (icachePending w)) w));;
      let r := pkt_req pkt in
      processCacheCompletion
        {| pkt_req := {| req_id := req_id r; req_vaddr := req_vaddr r;
                         req_size := req_size r; req_pc := req_pc r;
                         req_contextId := req_contextId r;
                         req_paddr := req_paddr r;
                         req_accessDepth := depth |};
           pkt_data := data |}
  | None => panic "no such pending packet"
  end.

(** The scheduled [processTrapEvent] fires. *)
Definition processTrapEvent_fire : M unit :=
  s ← get;
  match processTrapEvent s with
  | Some (tid, fault, req) =>
      modify (set_processTrapEvent None);;
      processTrap tid fault req
  | None => panic "processTrapEvent not scheduled"
  end.

(** [tick] moves the head of a fetch queue to decode. *)
Definition sendToDecode (tid : ThreadID) : M unit :=
  s ← get;
  if negb (stalls_decode (thr s tid))
     && negb (bool_decide (fetchQueue (thr s tid) = []))
  then upd_thread tid (λ t, set_fetchQueue (tail (fetchQueue t)) t);;
       modify (set_wroteToTimeBuffer true)
  else mret tt.

Inductive Event :=
  | EvCheckSignals (sig : Signals) (tid : ThreadID)
  | EvInterrupt (pending : bool)
  | EvFetch (status_change : bool) (o : DecodeOutcome)
  | EvUpdateFetchStatus
  | EvPipelineIcacheAccesses (tid : ThreadID)
  | EvProcessFTQ (tid : ThreadID)
  | EvSendToDecode (tid : ThreadID)
  | EvEndOfTick
  | EvTranslationDone (k : nat) (fault : Fault) (pa : Addr)
  | EvCacheResponse (k : nat) (depth : Z) (data : list Byte.byte)
  | EvReqRetry
  | EvProcessTrap
  | EvDrainStall (tid : ThreadID)
  | EvDrainResume
  | EvWakeFromQuiesce
  | EvClearStates (tid : ThreadID)
  | EvDeactivateThread (tid : ThreadID)
  | EvTakeOverFrom
  | EvEnvironment (q : FTQ) (w : World).

Definition step (e : Event) : M unit :=
  match e with
  | EvCheckSignals sig tid => _ ← checkSignalsAndUpdate sig tid; mret tt
  | EvInterrupt b => modify (set_interruptPending b)
  | EvFetch sc o => _ ← fetch (decodeWrites o) sc; mret tt
  | EvUpdateFetchStatus => st ← updateFetchStatus; modify (set_stage_status st)
  | EvPipelineIcacheAccesses tid => pipelineIcacheAccesses tid
  | EvProcessFTQ tid => processFTQ tid
  | EvSendToDecode tid => sendToDecode tid
  | EvEndOfTick => modify (set_numInst 0)
  | EvTranslationDone k fault pa => translationDone k fault pa
  | EvCacheResponse k depth data => cacheResponse k depth data
  | EvReqRetry => recvReqRetry
  | EvProcessTrap => processTrapEvent_fire
  | EvDrainStall tid => drainStall tid
  | EvDrainResume => drainResume
  | EvWakeFromQuiesce => wakeFromQuiesce
  | EvClearStates tid => clearStates tid
  | EvDeactivateThread tid => deactivateThread tid
  | EvTakeOverFrom => resetStage
  | EvEnvironment q w => environment_change q w
  end.

(** A run of events from a state; an event that aborts ends the
    simulation, so a run only contains events that return. *)
Fixpoint run_events (es : list Event) (s : FetchState) : Res unit :=
  match es with
  | [] => Ok tt s
  | e :: es' =>
      match step e s with
      | Ok _ s' => run_events es' s'
      | Abort msg => Abort msg
      end
  end.

(** The stage right after construction, [setBACandFTQPtr] and
    [startupStage]. *)
Definition initial (s : FetchState) : Prop :=
  ∃ p w q pc0,
    mmuPending w = [] ∧ icachePending w = [] ∧
    bring_up (constructed p w q pc0) = Ok tt s.

Inductive reachable : FetchState → Prop :=
  | reachable_initial s : initial s → reachable s
  | reachable_step s e s' :
      reachable s → step e s = Ok tt s' → reachable s'.

(** ** Properties of states *)

(** The three states in which a thread waits for its demand request. *)
Definition waiting (x : ThreadStatus) : bool :=
  match x with
  | ItlbWait | IcacheWaitResponse | IcacheWaitRetry => true
  | _ => false
  end.

(** A thread that holds a demand request waits for it. *)
Definition demand_tracked (t : ThreadState) : Prop :=
  memReq t ≠ None → waiting (fetchStatus t) = true.

(** The events under which [demand_tracked] is kept: a squash signal does
    not reach a thread that waits for an I-cache retry, and the CPU wakes
    thread 0 from quiesce only when it holds no demand request. *)
Definition benign (e : Event) (s : FetchState) : Prop :=
  match e with
  | EvCheckSignals sig tid =>
      commitInfo_squash sig || decodeInfo_squash sig = true →
      fetchStatus (thr s tid) ≠ IcacheWaitRetry
  | EvWakeFromQuiesce => memReq (thr s 0) = None
  | _ => True
  end.

Inductive reachable_benign : FetchState → Prop :=
  | reachable_benign_initial s : initial s → reachable_benign s
  | reachable_benign_step s e s' :
      reachable_benign s → benign e s → step e s = Ok tt s' →
      reachable_benign s'.

(** What a squash of thread [tid] leaves behind in every case: an empty
    fetch queue, a retry slot that is not the thread's, and no demand
    request when the thread waited for the I-cache response or the ITLB,
    or held none. *)
Definition squashed (tid : ThreadID) (s s' : FetchState) : Prop :=
  fetchQueue (thr s' tid) = []
  ∧ retryTid s' ≠ tid
  ∧ (fetchStatus (thr s tid) = IcacheWaitResponse
     ∨ fetchStatus (thr s tid) = ItlbWait
     ∨ memReq (thr s tid) = None →
     memReq (thr s' tid) = None).

(** The effects a computation adds to the trace. *)
Definition new_effects (s s' : FetchState) : list Effect :=
  drop (length (trace s)) (trace s').

Definition is_translate (e : Effect) : bool :=
  match e with ETranslateTiming _ _ _ => true | _ => false end.
Definition is_delete (pkt : Packet) (e : Effect) : Prop := e = EDeletePacket pkt.

(** [wpx ab m Q s]: running [m] from [s] ends in a state and result that
    satisfy [Q], or aborts and [ab] holds.  With [ab := False] the run
    does not abort; with [ab := True] aborted runs are left out. *)
Definition wpx {A} (ab : Prop) (m : M A) (Q : A → FetchState → Prop)
    (s : FetchState) : Prop :=
  match m s with
  | Ok a s' => Q a s'
  | Abort _ => ab
  end.

Abbreviation twp := (wpx False).
Abbreviation wp := (wpx True).

(** ** Scenarios

    The configuration of the end-to-end scenarios: fetch width 4, decode
    width 4, a 16-byte fetch buffer, 64-byte cache blocks, a fetch queue
    of 8, physical memory below 0x10000. *)

Definition ex_params (threads : Z) (dfe : bool) (maxPf maxTr : Z) : Params :=
  {| numThreads := threads; numFetchingThreads := 1;
     fetchPolicy := RoundRobin; decoupledFrontEnd := dfe; fetchWidth := 4;
     decodeWidth := 4; fetchQueueSize := 8; fetchBufferSize := 16;
     cacheBlkSize := 64; maxOutstandingPrefetches := maxPf;
     maxOutstandingTranslations := maxTr |}.

Definition ex_world (accepts : nat → bool)
    (mmu : nat → option (Fault * Addr)) (threads : list ThreadID) : World :=
  {| isMemAddr := λ a, bool_decide (0 ≤ a < 65536); portAccepts := accepts;
     sendCount := 0; mmuImmediate := mmu; translateCount := 0; curTick := 0;
     switchedOut := false; isDraining := false; contextId := λ t, t;
     contextToThread := λ c, c; instSeq := 1; nextReqId := 0;
     cpuPcState := λ _, {| instAddr := 4096; microPC := 0 |};
     pcMask := λ _, -1; isRomMicroPC := λ u, bool_decide (32768 ≤ u);
     activeThreads := threads; iqCount_of := λ _, 0; ldstqCount_of := λ _, 0;
     accessLatencyCycles := λ _, 1; translationLatencyCycles := λ _, 1;
     mmuPending := []; icachePending := [] |}.

Definition ex_ft (st : FTState) (r : RequestPtr) (start : Addr)
    (pa : option Addr) : FetchTarget :=
  {| ft_state := st; ft_req := r; ft_start := start; ft_end := start + 64;
     ft_blkAddr := start; ft_paddr := pa; ft_fallThrough := true;
     ft_fault := NoFault; ft_valid := true |}.

(** An FTQ of thread 0 that holds the given targets, head first. *)
Definition ex_ftq (entries : list FetchTarget) : FTQ :=
  {| fts := λ i, default (ex_ft Initial None 0 None) (entries !! i);
     ftq_entries := λ tid,
       if decide (tid = 0) then seq 0 (length entries) else [];
     ftq_valid := λ _, true;
     ftq_headReady := λ tid, bool_decide (tid = 0 ∧ entries ≠ []) |}.

Definition ex_request (id : nat) (vaddr : Addr) (pa : option Addr) : Request :=
  {| req_id := id; req_vaddr := vaddr; req_size := 16; req_pc := vaddr;
     req_contextId := 0; req_paddr := pa; req_accessDepth := 0 |}.

Definition ex_pc (a : Addr) : PCState := {| instAddr := a; microPC := 0 |}.

(** The state a computation ends in (the start state if it aborts), and
    whether it returns. *)
Definition exec {A} (m : M A) (s : FetchState) : FetchState :=
  match m s with
  | Ok _ s' => s'
  | Abort _ => s
  end.
Definition returns {A} (m : M A) (s : FetchState) : bool :=
  match m s with
  | Ok _ _ => true
  | Abort _ => false
  end.

Definition ex_start (p : Params) (w : World) (q : FTQ) : FetchState :=
  exec bring_up (constructed p w q (ex_pc 0)).

(** The decode loop did not run or found nothing to decode. *)
Definition ex_no_decode (q : FTQ) : DecodeOutcome :=
  {| dl_insts := []; dl_pc := ex_pc 4096; dl_macroop := None;
     dl_fetchOffset := 0; dl_delayedCommit := false; dl_quiesce := false;
     dl_predictedBranches := 0; dl_issuePipelinedIfetch := false;
     dl_ftq := q; dl_effects := [] |}.

Definition ex_no_signals : Signals :=
  {| decodeBlock := false; decodeUnblock := false; decodeInfo_squash := false;
     decodeInfo_squashInst := None; decodeInfo_doneSeqNum := 0;
     decodeInfo_nextPC := ex_pc 0; commitInfo_squash := false;
     commitInfo_squashInst := None; commitInfo_doneSeqNum := 0;
     commitInfo_pc := ex_pc 0 |}.

Definition ex_commit_squash (target : Addr) : Signals :=
  {| decodeBlock := false; decodeUnblock := false; decodeInfo_squash := false;
     decodeInfo_squashInst := None; decodeInfo_doneSeqNum := 0;
     decodeInfo_nextPC := ex_pc 0; commitInfo_squash := true;
     commitInfo_squashInst := None; commitInfo_doneSeqNum := 0;
     commitInfo_pc := ex_pc target |}.

(** One thread, no decoupled front end; the MMU translates at once and
    the I-cache rejects every request. *)
Definition cx_retry_start : FetchState :=
  ex_start (ex_params 1 false 2 2)
    (ex_world (λ _, false) (λ _, Some (NoFault, 20480)) [0]) (ex_ftq []).

(** ... after one fetch pass: the demand request of thread 0 waits for a
    retry. *)
Definition cx_retry_events : list Event :=
  [EvFetch false (ex_no_decode (ex_ftq []))].
Definition cx_retry_state : FetchState :=
  exec (run_events cx_retry_events) cx_retry_start.

(** One thread, decoupled front end, two fetch targets in the FTQ that
    still need a translation. *)
Definition cx_ftq : FTQ :=
  ex_ftq [ex_ft Initial None 4096 None; ex_ft Initial None 4160 None].

(** The MMU translates at once and the I-cache accepts every request;
    one pass of the prefetcher translates the second fetch target and
    issues its prefetch. *)
Definition cx_pf_start : FetchState :=
  ex_start (ex_params 1 true 2 1)
    (ex_world (λ _, true) (λ _, Some (NoFault, 20544)) [0]) cx_ftq.
Definition cx_pf_state : FetchState :=
  exec (run_events [EvProcessFTQ 0]) cx_pf_start.

(** The packet [performCacheAccess] builds for a request. *)
Definition fetch_packet (p : Params) (mem_req : Request) : Packet :=
  {| pkt_req := mem_req;
     pkt_data := replicate (Z.to_nat (fetchBufferSize p)) Byte.x00 |}.

(** Thread 0 waits for the response to its demand request while the
    second fetch target, translated to an address outside of physical
    memory, is ready to be prefetched. *)
Definition cx_badaddr_start : FetchState :=
  ex_start (ex_params 1 true 2 2)
    (ex_world (λ _, true) (λ n, Some (NoFault, if n is O then 20480 else 1048576)) [0])
    cx_ftq.
Definition cx_badaddr_state : FetchState :=
  exec (run_events [EvFetch false (ex_no_decode cx_ftq)]) cx_badaddr_start.

(** Two threads without a decoupled front end, round-robin policy.
    Thread 0 is first squashed by commit, so it is not fetchable while
    thread 1 is. *)
Definition cx_two_threads : FetchState :=
  ex_start (ex_params 2 false 0 0)
    (ex_world (λ _, true) (λ _, None) [0; 1]) (ex_ftq []).
Definition cx_rr_state : FetchState :=
  exec (run_events [EvCheckSignals (ex_commit_squash 8192) 0]) cx_two_threads.

(** Both threads are squashed by commit: no thread is fetchable. *)
Definition cx_none_state : FetchState :=
  exec (run_events [EvCheckSignals (ex_commit_squash 8192) 0;
                    EvCheckSignals (ex_commit_squash 8192) 1]) cx_two_threads.

(** One thread, squashed by commit. *)
Definition cx_one_thread : FetchState :=
  ex_start (ex_params 1 false 0 0)
    (ex_world (λ _, true) (λ _, None) [0]) (ex_ftq []).
Definition cx_one_squashed : FetchState :=
  exec (run_events [EvCheckSignals (ex_commit_squash 8192) 0]) cx_one_thread.

(** The state that differs from [s] in [threadFetched] and the statistics. *)
Definition with_accounting (n : Z) (stats : Stat → Z) (s : FetchState)
    : FetchState :=
  set_fetchStats stats (set_threadFetched n s).

(** The head fetch target covers the block of address 0x1000 and knows
    its physical address 0x5000 from an earlier prefetch. *)
Definition cx_known_ftq : FTQ :=
  ex_ftq [ex_ft ReadyToFetch (Some (ex_request 7 4096 (Some 20480))) 4096
            (Some 20480);
          ex_ft Initial None 4160 None].
Definition cx_known_start : FetchState :=
  ex_start (ex_params 1 true 2 2)
    (ex_world (λ _, true) (λ _, None) [0]) cx_known_ftq.

(** The states a demand access ends in. *)
Definition demand_issued (x : ThreadStatus) : Prop :=
  x = NoGoodAddr ∨ x = IcacheWaitRetry ∨ x = IcacheWaitResponse.

(** The physical address [makeRequest] builds from the one of a fetch
    target. *)
Definition block_paddr (p : Params) (ft_pa vaddr : Addr) : Addr :=
  Z.lor (Z.land ft_pa (Z.lnot (cacheBlkSize p - 1)))
        (Z.land vaddr (cacheBlkSize p - 1)).

(** The fetch target [fetchCacheLine] works with is [i]: the head of the
    FTQ that covers the block in the decoupled front end, the caller's
    target otherwise. *)
Definition works_with (s : FetchState) (vaddr : Addr) (tid : ThreadID)
    (ft0 : FetchTargetPtr) (i : nat) : Prop :=
  if decoupledFrontEnd (cfg s)
  then ftq_readHead (ftq s) tid = Some i
       ∧ ft_blkAddr (fts (ftq s) i) = cacheBlockAligned (cfg s) vaddr
  else ft0 = Some i.

(** ** The cases of a cache completion *)

(** The thread a packet belongs to. *)
Definition packet_thread (s : FetchState) (pkt : Packet) : ThreadID :=
  contextToThread (world s) (req_contextId (pkt_req pkt)).

(** The packet answers the demand request of its thread: the thread waits
    for the I-cache response and the packet carries the request in
    [memReq]. *)
Definition answers_demand (s : FetchState) (pkt : Packet) : bool :=
  bool_decide (fetchStatus (thr s (packet_thread s pkt)) = IcacheWaitResponse)
  && req_ptr_eqb (Some (pkt_req pkt)) (memReq (thr s (packet_thread s pkt))).

(** The FTQ entry [trySatisfyPrefetch] finds for a packet: in the
    decoupled front end, the first entry after the head whose request is
    the request of the packet. *)
Definition prefetch_target (s : FetchState) (pkt : Packet) : FetchTargetPtr :=
  if decoupledFrontEnd (cfg s)
  then ftq_findAfterHead (ftq s) (packet_thread s pkt)
         (λ ft, req_ptr_eqb (ft_req ft) (Some (pkt_req pkt)))
  else None.

(** A prefetch in flight: the second fetch target waits for packet 0. *)
Definition cx_pf_packet : Packet :=
  {| pkt_req := ex_request 0 4160 (Some 20544);
     pkt_data := replicate 16 Byte.x2a |}.

(** ** Summaries of computations *)

(** [sat R m]: whenever [m] returns, the states before and after are
    related by [R]. *)
Definition sat {A} (R : relation FetchState) (m : M A) : Prop :=
  ∀ s, wp m (λ _ s', R s s') s.

(** The translations the stage counts beyond those the MMU holds. *)
Definition translation_balance (s : FetchState) : Z :=
  outstandingTranslations s - Z.of_nat (length (mmuPending (world s))).

Definition keeps_balance : relation FetchState :=
  λ s s', translation_balance s' = translation_balance s.

Definition shifts_balance (d : Z) : relation FetchState :=
  λ s s', translation_balance s' = translation_balance s + d.

(** Status and demand request of every thread are the same. *)
Definition same_demand : relation FetchState :=
  λ s s', ∀ t, fetchStatus (thr s' t) = fetchStatus (thr s t)
               ∧ memReq (thr s' t) = memReq (thr s t).

(** Every thread kept its status and demand request, or ended with its
    demand request tracked. *)
Definition settles : relation FetchState :=
  λ s s', ∀ t, (fetchStatus (thr s' t) = fetchStatus (thr s t)
                ∧ memReq (thr s' t) = memReq (thr s t))
               ∨ demand_tracked (thr s' t).

Definition all_tracked (s : FetchState) : Prop :=
  ∀ tid, demand_tracked (thr s tid).

(** The trace grew by effects that start no translation. *)
Definition no_translation : relation FetchState :=
  λ s s', ∃ l, trace s' = trace s ++ l
               ∧ Forall (λ e, is_translate e = false) l.

(** The prefetch counter, the count of issued prefetches and the
    configuration are the same. *)
Definition keeps_prefetches : relation FetchState :=
  λ s s', outstandingPrefetches s' = outstandingPrefetches s
          ∧ fetchStats s' pfIssued = fetchStats s pfIssued
          ∧ cfg s' = cfg s.

(** ** Further scenarios and state predicates *)

(** Every thread tracks its request and thread [tid] holds none. *)
Definition tracked_without (tid : ThreadID) (s : FetchState) : Prop :=
  all_tracked s ∧ memReq (thr s tid) = None.

(** ... and then commit squashes thread 0. *)
Definition cx_squashed_events : list Event :=
  cx_retry_events ++ [EvCheckSignals (ex_commit_squash 8192) 0].
Definition cx_squashed_state : FetchState :=
  exec (run_events cx_squashed_events) cx_retry_start.

(** One thread, decoupled front end, at most one translation outstanding;
    the MMU keeps every translation pending.  One pass of the prefetcher
    starts the translation of the second fetch target. *)
Definition cx_tr_start : FetchState :=
  ex_start (ex_params 1 true 2 1) (ex_world (λ _, true) (λ _, None) [0])
    cx_ftq.
Definition cx_tr_events : list Event := [EvProcessFTQ 0].
Definition cx_tr_state : FetchState :=
  exec (run_events cx_tr_events) cx_tr_start.

(** ... and then a fetch pass demands the head fetch target. *)
Definition cx_tr_fetch : Event := EvFetch false (ex_no_decode cx_ftq).
Definition cx_tr_demand_state : FetchState :=
  exec (step cx_tr_fetch) cx_tr_state.

(** The first fetch target has left the queue of [cx_pf_state]: the
    second, whose prefetch is in flight, is the head. *)
Definition cx_head_ftq : FTQ :=
  {| fts := fts (ftq cx_pf_state);
     ftq_entries := λ tid, tail (ftq_entries (ftq cx_pf_state) tid);
     ftq_valid := ftq_valid (ftq cx_pf_state);
     ftq_headReady := ftq_headReady (ftq cx_pf_state) |}.
Definition cx_head_events : list Event :=
  [EvProcessFTQ 0; EvEnvironment cx_head_ftq (world cx_pf_state)].
Definition cx_head_state : FetchState :=
  exec (run_events cx_head_events) cx_pf_start.
Definition cx_head_done : FetchState :=
  exec (processCacheCompletion cx_pf_packet) cx_head_state.

(** Two threads, decoupled front end, three fetch targets of thread 0.
    The prefetcher issues the prefetch of the second target, commit
    squashes thread 1, the I-cache answers the prefetch; then the
    prefetcher runs again. *)
Definition cx_smt_ftq : FTQ :=
  ex_ftq [ex_ft Initial None 4096 None; ex_ft Initial None 4160 None;
          ex_ft Initial None 4224 None].
Definition cx_smt_start : FetchState :=
  ex_start (ex_params 2 true 2 2)
    (ex_world (λ _, true) (λ _, Some (NoFault, 20544)) [0; 1]) cx_smt_ftq.
Definition cx_smt_issued : FetchState :=
  exec (run_events [EvProcessFTQ 0]) cx_smt_start.
Definition cx_smt_squashed : FetchState :=
  exec (step (EvCheckSignals (ex_commit_squash 8192) 1)) cx_smt_issued.
Definition cx_smt_answered : FetchState :=
  exec (step (EvCacheResponse 0 1 [])) cx_smt_squashed.
Definition cx_smt_again : FetchState :=
  exec (processFTQ 0) cx_smt_answered.

(** * Definitions of the further properties *)

(** ** Thread selection *)

(** What a count policy picks: no thread, or a fetchable active thread
    that is the last one in [activeThreads] with its count, such that every
    lower count is held by a thread that is not fetchable.  [count] is the
    count the policy reads for a thread. *)
Definition count_pick (count : ThreadID → Z) (s : FetchState)
    (t : ThreadID) : Prop :=
  t = InvalidThreadID
  ∨ ((∃ l1 l2, activeThreads (world s) = l1 ++ t :: l2
               ∧ Forall (λ x, count x ≠ count t) l2)
     ∧ fetchable (fetchStatus (thr s t)) = true
     ∧ ∀ x, x ∈ activeThreads (world s) → count x < count t →
            ∃ y, y ∈ activeThreads (world s) ∧ count y = count x
                 ∧ fetchable (fetchStatus (thr s y)) = false).

(** The priority list holds every thread at most once, and only thread
    ids of the configuration. *)
Definition priority_ok (s : FetchState) : Prop :=
  NoDup (priorityList s)
  ∧ Forall (λ x, 0 ≤ x < numThreads (cfg s)) (priorityList s).

(** The priority list lost entries at most, and the configuration is the
    same. *)
Definition priority_kept : relation FetchState :=
  λ s s', priorityList s' ⊆+ priorityList s ∧ cfg s' = cfg s.

(** A list of counts in ascending order. *)
Fixpoint ascending (l : list Z) : Prop :=
  match l with
  | [] => True
  | x :: l' => Forall (λ y, x ≤ y) l' ∧ ascending l'
  end.

(** The members of a thread as [clearStates] and the loop of [resetStage]
    leave them; [pc0] is the PC the CPU holds for the thread. *)
Definition cleared_thread (pc0 : PCState) (t : ThreadState) : ThreadState :=
  set_fetchQueue []
    (set_fetchBufferValid false
       (set_fetchBufferPC 0
          (set_stalls false false
             (set_memReq None
                (set_delayedCommit false
                   (set_macroop None
                      (set_fetchOffset 0
                         (set_pc pc0 (set_fetchStatus Running t))))))))).

(** The effects of a translation that completes for nobody: the CPU is
    woken and, for a valid fetch target, the latency is sampled. *)
Definition is_quiet (e : Effect) : bool :=
  match e with
  | EWakeCPU | ESample _ _ => true
  | _ => false
  end.

(** ** Traps *)

(** There is room for one more instruction of thread [tid] in this
    cycle. *)
Definition trap_room (tid : ThreadID) (s : FetchState) : Prop :=
  numInst s < fetchWidth (cfg s)
  ∧ Z.of_nat (length (fetchQueue (thr s tid))) < fetchQueueSize (cfg s).

(** The instruction that carries a fault to commit: a nop at the PC of the
    thread, marked as no instruction. *)
Definition trap_inst (tid : ThreadID) (fault : Fault) (s : FetchState)
    : DynInst :=
  {| seqNum := instSeq (world s); di_tid := tid; staticInst := nopStaticInst;
     di_macroop := None; pcState := pc (thr s tid);
     predTarg := pc (thr s tid); notAnInst := true; di_fault := fault |}.

(** ** Draining *)

(** The loop of [isDrained] over the thread ids, and its result after the
    loop.  [finishTranslationScheduled] is
    [finishTranslationEvent.scheduled()]; nothing in the stage schedules
    that event. *)
Fixpoint isDrained_loop (s : FetchState) (finishTranslationScheduled : bool)
    (l : list ThreadID) : bool :=
  match l with
  | [] => negb finishTranslationScheduled
  | i :: l' =>
      (* Verify fetch queues are drained *)
      if negb (bool_decide (fetchQueue (thr s i) = [])) then false
      (* Return false if not idle or drain stalled *)
      else if negb (bool_decide (fetchStatus (thr s i) = Idle)) then
        if bool_decide (fetchStatus (thr s i) = Blocked)
           && stalls_drain (thr s i)
        then isDrained_loop s finishTranslationScheduled l'
        else false
      else isDrained_loop s finishTranslationScheduled l'
  end.

Definition isDrained (finishTranslationScheduled : bool) (s : FetchState)
    : bool :=
  isDrained_loop s finishTranslationScheduled (threadIds (cfg s)).

Definition drainSanityCheck (finishTranslationScheduled : bool) : M unit :=
  s ← get;
  assert (isDrained finishTranslationScheduled s) "isDrained()";;
  assert (bool_decide (retryPkt s = None)) "retryPkt == NULL";;
  assert (bool_decide (retryTid s = InvalidThreadID))
    "retryTid == InvalidThreadID";;
  assert (negb (cacheBlocked s)) "!cacheBlocked";;
  assert (negb (interruptPending s)) "!interruptPending";;
  for_each (threadIds (cfg s)) (λ i,
    assert (bool_decide (memReq (thr s i) = None)) "!memReq[i]";;
    assert (bool_decide (fetchStatus (thr s i) = Idle)
            || stalls_drain (thr s i))
      "fetchStatus[i] == Idle || stalls[i].drain").

(** A thread that does not keep the stage from being drained: its fetch
    queue is empty and it is Idle, or Blocked by a drain stall. *)
Definition thread_drained (t : ThreadState) : Prop :=
  fetchQueue t = []
  ∧ (fetchStatus t = Idle
     ∨ fetchStatus t = Blocked ∧ stalls_drain t = true).

(** The statuses in which a thread waits for something a stall does not
    replace. *)
Definition holds_status (x : ThreadStatus) : bool :=
  match x with
  | IcacheWaitResponse | IcacheWaitRetry | ItlbWait | FTQEmpty
  | QuiescePending => true
  | _ => false
  end.

(** ** Scenarios of the further properties *)

(** One thread; the I-cache rejects the first request and accepts the
    following ones. *)
Definition cx_flaky_start : FetchState :=
  ex_start (ex_params 1 false 2 2)
    (ex_world (λ n, negb (Nat.eqb n 0)) (λ _, None) [0]) (ex_ftq []).

(** One thread that has used the fetch width of this cycle. *)
Definition cx_full_state : FetchState := set_numInst 4 cx_one_thread.

(** One thread while the CPU drains. *)
Definition ex_draining_world : World :=
  {| isMemAddr := λ a, bool_decide (0 ≤ a < 65536); portAccepts := λ _, true;
     sendCount := 0; mmuImmediate := λ _, None; translateCount := 0;
     curTick := 0; switchedOut := false; isDraining := true;
     contextId := λ t, t; contextToThread := λ c, c; instSeq := 1;
     nextReqId := 0;
     cpuPcState := λ _, {| instAddr := 4096; microPC := 0 |};
     pcMask := λ _, -1; isRomMicroPC := λ u, bool_decide (32768 ≤ u);
     activeThreads := [0]; iqCount_of := λ _, 0; ldstqCount_of := λ _, 0;
     accessLatencyCycles := λ _, 1; translationLatencyCycles := λ _, 1;
     mmuPending := []; icachePending := [] |}.
Definition cx_draining : FetchState :=
  exec (step (EvEnvironment (ex_ftq []) ex_draining_world)) cx_one_thread.

(** One thread with the decoupled front end and an empty FTQ. *)
Definition cx_empty_ftq : FetchState :=
  ex_start (ex_params 1 true 2 2)
    (ex_world (λ _, true) (λ _, None) [0]) (ex_ftq []).

(** The stage as the constructor leaves it: one thread, Idle. *)
Definition cx_constructed : FetchState :=
  constructed (ex_params 1 false 0 0)
    (ex_world (λ _, true) (λ _, None) [0]) (ex_ftq []) (ex_pc 0).

(** The same stage once the CPU handed over the BAC and the FTQ. *)
Definition cx_attached : FetchState :=
  exec (setBACandFTQPtr true true) cx_constructed.

(** Decode asks for a squash, commit does not. *)
Definition ex_decode_squash (target : Addr) : Signals :=
  {| decodeBlock := false; decodeUnblock := false; decodeInfo_squash := true;
     decodeInfo_squashInst := None; decodeInfo_doneSeqNum := 0;
     decodeInfo_nextPC := ex_pc target; commitInfo_squash := false;
     commitInfo_squashInst := None; commitInfo_doneSeqNum := 0;
     commitInfo_pc := ex_pc 0 |}.

(** * Reasoning about computations of the stage *)

Section WpRules.
Context {A B : Type} (ab : Prop).
Implicit Types (s : FetchState) (Q : A → FetchState → Prop).

Lemma wpx_ret (a : A) Q s : Q a s → wpx ab (mret a) Q s.
  Proof. done. Qed.

Lemma wpx_bind (m : M A) (f : A → M B) (R : B → FetchState → Prop) s :
    wpx ab m (λ a s', wpx ab (f a) R s') s → wpx ab (m ≫= f) R s.
  Proof. unfold wpx, mbind, M_bind. by destruct (m s). Qed.

Lemma wpx_bind_inv (m : M A) (f : A → M B) (R : B → FetchState → Prop) s :
    wpx ab (m ≫= f) R s → wpx ab m (λ a s', wpx ab (f a) R s') s.
  Proof. unfold wpx, mbind, M_bind. by destruct (m s). Qed.

Lemma wpx_mono (m : M A) Q Q' s :
    (∀ a s', Q a s' → Q' a s') → wpx ab m Q s → wpx ab m Q' s.
  Proof. unfold wpx. destruct (m s); auto. Qed.

Lemma wpx_ok (m : M A) Q s a s' : m s = Ok a s' → Q a s' → wpx ab m Q s.
  Proof. unfold wpx. by intros ->. Qed.
End WpRules.

Lemma wpx_get ab (Q : FetchState → FetchState → Prop) s :
  Q s s → wpx ab get Q s.
Proof. done. Qed.

Lemma wpx_modify ab (f : FetchState → FetchState) (Q : unit → FetchState → Prop) s :
  Q tt (f s) → wpx ab (modify f) Q s.
Proof. done. Qed.

Lemma wpx_assert ab (b : bool) msg (Q : unit → FetchState → Prop) s :
  (if b then Q tt s else ab) → wpx ab (assert b msg) Q s.
Proof. unfold wpx, assert. by destruct b. Qed.

Lemma wpx_when ab (b : bool) (m : M unit) (Q : unit → FetchState → Prop) s :
  (if b then wpx ab m Q s else Q tt s) → wpx ab (when b m) Q s.
Proof. by destruct b. Qed.

Lemma twp_wp {A} (m : M A) Q s : twp m Q s → wp m Q s.
Proof. unfold wpx. by destruct (m s). Qed.

Lemma twp_run {A} (m : M A) Q s :
  twp m Q s ↔ ∃ a s', m s = Ok a s' ∧ Q a s'.
Proof.
  unfold wpx. destruct (m s) as [a s'|msg]; split.
  - eauto.
  - by intros (? & ? & [= <- <-] & ?).
  - done.
  - by intros (? & ? & [=] & _).
Qed.

Lemma wp_run {A} (m : M A) Q s a s' : wp m Q s → m s = Ok a s' → Q a s'.
Proof. unfold wpx. intros H E. by rewrite E in H. Qed.

(** The member functions are run through their lemmas, not unfolded by
    simplification. *)
#[local] Arguments makeRequest : simpl never.
#[local] Arguments performCacheAccess : simpl never.
#[local] Arguments startTranslation : simpl never.
#[local] Arguments translateTiming : simpl never.
#[local] Arguments finishTranslation : simpl never.
#[local] Arguments processTrap : simpl never.
#[local] Arguments buildInst : simpl never.
#[local] Arguments selectFetchTarget : simpl never.
#[local] Arguments fetchCacheLine : simpl never.
#[local] Arguments processFTQ : simpl never.
#[local] Arguments trySatisfyPrefetch : simpl never.
#[local] Arguments processCacheCompletion : simpl never.
#[local] Arguments doSquash : simpl never.
#[local] Arguments squash : simpl never.
#[local] Arguments squashFromDecode : simpl never.
#[local] Arguments checkStall : simpl never.
#[local] Arguments switchToActive : simpl never.
#[local] Arguments updateFetchStatus : simpl never.
#[local] Arguments sendTimingReq : simpl never.
#[local] Arguments newRequest : simpl never.
#[local] Arguments getFetchingThread : simpl never.
#[local] Arguments profileStall : simpl never.
#[local] Arguments checkInterrupt : simpl never.
#[local] Arguments ftqReady : simpl never.
#[local] Arguments recvReqRetry : simpl never.
#[local] Arguments checkSignalsAndUpdate : simpl never.
#[local] Arguments resetStage : simpl never.
#[local] Arguments for_each : simpl never.

(** Symbolic execution of the primitive steps. *)
Ltac unfold_m :=
  unfold upd_thread, upd_ft, stat_inc, stat_add, emit, modify, when, assert,
    panic, get, mbind, M_bind, mret, M_ret in *.

Ltac msimpl :=
  unfold_m; simpl in *; rewrite ?fn_lookup_alter in *; simpl in *.

Ltac mcase :=
  first [case_bool_decide | case_match];
  simpl in *; rewrite ?fn_lookup_alter in *; simpl in *; simplify_eq; try done.

Ltac mrun := msimpl; repeat mcase.

(** Computations that are known to return. *)
Lemma returns_exec {A} (m : M A) s :
  returns m s = true → ∃ a, m s = Ok a (exec m s).
Proof. unfold returns, exec. destruct (m s); [eauto|done]. Qed.

Lemma returns_exec_unit (m : M unit) s :
  returns m s = true → m s = Ok tt (exec m s).
Proof. intros H. by destruct (returns_exec m s H) as [[] ?]. Qed.

Lemma run_events_reachable es s s' :
  reachable s → run_events es s = Ok tt s' → reachable s'.
Proof.
  revert s. induction es as [|e es IH]; simpl; intros s Hs Hrun.
  - by simplify_eq.
  - destruct (step e s) as [[] s1|] eqn:He; [|done].
    eapply IH; [|done]. by eapply reachable_step.
Qed.

(** Bringing the stage up is starting it with both pointers set. *)
Lemma bring_up_run s : bring_up s = startupStage (set_attached true true s).
Proof. reflexivity. Qed.

Lemma ex_start_initial p w q :
  mmuPending w = [] → icachePending w = [] →
  returns bring_up (constructed p w q (ex_pc 0)) = true →
  initial (ex_start p w q).
Proof.
  intros Hm Hi Hr. exists p, w, q, (ex_pc 0).
  split; [done|]. split; [done|]. by apply returns_exec_unit.
Qed.

(** * Squashing *)

(** What [doSquash] leaves behind, field by field.  It aborts only on
    its assertion: the retry slot belongs to the thread although the
    cache is not marked blocked. *)
Lemma doSquash_run new_pc si tid s :
  (retryTid s = tid → cacheBlocked s = true) →
  ∃ s', doSquash new_pc si tid s = Ok tt s'
    ∧ fetchStatus (thr s' tid) = Squashing
    ∧ fetchQueue (thr s' tid) = []
    ∧ delayedCommit (thr s' tid) = true
    ∧ memReq (thr s' tid)
      = (if bool_decide (fetchStatus (thr s tid) = IcacheWaitResponse
                         ∨ fetchStatus (thr s tid) = ItlbWait)
         then None else memReq (thr s tid))
    ∧ (∀ t, t ≠ tid → thr s' t = thr s t)
    ∧ retryTid s'
      = (if bool_decide (retryTid s = tid) then InvalidThreadID else retryTid s)
    ∧ retryPkt s'
      = (if bool_decide (retryTid s = tid) then None else retryPkt s)
    ∧ cacheBlocked s' = cacheBlocked s
    ∧ outstandingPrefetches s' = 0
    ∧ outstandingTranslations s' = outstandingTranslations s
    ∧ fetchStats s' pfSquashed
      = fetchStats s pfSquashed + outstandingPrefetches s
    ∧ ftq s' = ftq s ∧ world s' = world s ∧ cfg s' = cfg s.
Proof.
  intros Hretry. unfold doSquash. msimpl.
  destruct (decide (retryTid s = tid)) as [Heq|Hne];
    [rewrite (bool_decide_eq_true_2 _ Heq), (Hretry Heq)
    |rewrite (bool_decide_eq_false_2 _ Hne)].
  all: destruct (fetchStatus (thr s tid)) eqn:Hst; simpl.
  all: try destruct (retryPkt s) eqn:Hpkt; simpl.
  all: eexists; split; [reflexivity|]; simpl.
  all: rewrite ?fn_lookup_alter; simpl.
  all: repeat split; try done.
  all: try (intros t Ht; by rewrite !fn_lookup_alter_ne by done).
  all: try (rewrite fn_lookup_insert_ne by done; by rewrite fn_lookup_insert).
  all: try by apply Hretry.
Qed.

(** C7: [doSquash] adds to [pfSquashed] exactly the number of prefetches
    that were outstanding before the squash, and leaves no prefetch
    outstanding. *)
Theorem doSquash_drops_all_prefetches new_pc si tid s :
  (retryTid s = tid → cacheBlocked s = true) →
  ∃ s', doSquash new_pc si tid s = Ok tt s'
    ∧ fetchStats s' pfSquashed
      = fetchStats s pfSquashed + outstandingPrefetches s
    ∧ outstandingPrefetches s' = 0.
Proof.
  intros Hretry.
  destruct (doSquash_run new_pc si tid s Hretry) as (s' & Hrun & H).
  exists s'. decompose [and] H. auto.
Qed.

Lemma doSquash_drops_all_prefetches_witness :
  (retryTid cx_pf_state = 0 → cacheBlocked cx_pf_state = true)
  ∧ outstandingPrefetches cx_pf_state = 1
  ∧ ∃ s', doSquash (ex_pc 8192) None 0 cx_pf_state = Ok tt s'
      ∧ fetchStats s' pfSquashed
        = fetchStats cx_pf_state pfSquashed + outstandingPrefetches cx_pf_state
      ∧ outstandingPrefetches s' = 0.
Proof.
  split; [intros H; vm_compute in H; discriminate|].
  split; [vm_compute; reflexivity|].
  apply (doSquash_drops_all_prefetches (ex_pc 8192) None 0 cx_pf_state).
  intros H; vm_compute in H; discriminate.
Defined.

Lemma doSquash_squashed new_pc si tid s :
  tid ≠ InvalidThreadID →
  (retryTid s = tid → cacheBlocked s = true) →
  ∃ s', doSquash new_pc si tid s = Ok tt s' ∧ squashed tid s s'.
Proof.
  intros Htid Hretry.
  destruct (doSquash_run new_pc si tid s Hretry)
    as (s' & Hrun & _ & Hq & _ & Hreq & _ & Hrt & _).
  exists s'. split; [done|]. split; [done|]. split.
  - rewrite Hrt. case_bool_decide; congruence.
  - intros Hpre. rewrite Hreq. clear Hreq Hrt.
    case_bool_decide as Hw; [done|].
    destruct Hpre as [?|[?|?]]; [tauto|tauto|done].
Qed.

(** C1 (counterexample): after one fetch pass thread 0 waits for an
    I-cache retry with its demand request in [memReq]; a squash from
    commit moves it to Squashing and leaves [memReq] set. *)
Lemma squash_in_retry_keeps_memReq :
  reachable cx_retry_state
  ∧ fetchStatus (thr cx_retry_state 0) = IcacheWaitRetry
  ∧ ∃ s', squash (ex_pc 8192) 0 None 0 cx_retry_state = Ok tt s'
      ∧ fetchStatus (thr s' 0) = Squashing
      ∧ fetchQueue (thr s' 0) = []
      ∧ retryTid s' = InvalidThreadID
      ∧ memReq (thr s' 0) = Some (ex_request 0 4096 None).
Proof.
  split.
  { apply (run_events_reachable cx_retry_events cx_retry_start).
    - apply reachable_initial. unfold cx_retry_start.
      apply ex_start_initial; [reflexivity|reflexivity|].
      vm_compute. reflexivity.
    - apply returns_exec_unit. vm_compute. reflexivity. }
  split; [vm_compute; reflexivity|].
  exists (exec (squash (ex_pc 8192) 0 None 0) cx_retry_state).
  split; [apply returns_exec_unit; vm_compute; reflexivity|].
  repeat split; vm_compute; reflexivity.
Qed.

(** C1 (amended): after a squash of a thread, through [squash] or
    [squashFromDecode], its fetch queue is empty and the retry slot is not
    the thread's; [memReq] of the thread is null when the thread waited for
    the I-cache response or for the ITLB, or held no request before. *)
Theorem squash_clears_thread new_pc seq si tid s :
  tid ≠ InvalidThreadID →
  (retryTid s = tid → cacheBlocked s = true) →
  (∃ s', squash new_pc seq si tid s = Ok tt s' ∧ squashed tid s s')
  ∧ (∃ s', squashFromDecode new_pc si seq tid s = Ok tt s' ∧ squashed tid s s').
Proof.
  intros Htid Hretry.
  destruct (doSquash_squashed new_pc si tid s Htid Hretry) as (s' & Hrun & Hs).
  unfold squash, squashFromDecode. unfold_m. rewrite Hrun. simpl.
  split; eexists; (split; [reflexivity|]); apply Hs.
Qed.

Lemma squash_clears_thread_witness :
  0 ≠ InvalidThreadID
  ∧ (retryTid cx_retry_state = 0 → cacheBlocked cx_retry_state = true)
  ∧ (∃ s', squash (ex_pc 8192) 7 None 0 cx_retry_state = Ok tt s'
       ∧ squashed 0 cx_retry_state s')
  ∧ (∃ s', squashFromDecode (ex_pc 8192) None 7 0 cx_retry_state = Ok tt s'
       ∧ squashed 0 cx_retry_state s').
Proof.
  split; [done|]. split; [intros _; vm_compute; reflexivity|].
  apply (squash_clears_thread (ex_pc 8192) 7 None 0 cx_retry_state).
  - done.
  - intros _. vm_compute. reflexivity.
Defined.

(** * The cache-access engine *)

Lemma new_effects_app s s' l :
  trace s' = trace s ++ l → new_effects s s' = l.
Proof. unfold new_effects. intros ->. by rewrite drop_app_length. Qed.

(** C6: the I-cache rejects the request.  A prefetch is deleted and
    leaves every thread, the retry slot and [cacheBlocked] as they were; a
    demand moves the thread to IcacheWaitRetry, parks the packet in the
    retry slot and blocks the cache.  Both return false. *)
Theorem performCacheAccess_rejected vaddr tid mem_req (prefetch : bool) s :
  isMemAddr (world s) (getPaddr mem_req) = true →
  portAccepts (world s) (sendCount (world s)) = false →
  retryPkt s = None →
  retryTid s = InvalidThreadID →
  (prefetch = false → vaddr = getVaddr mem_req) →
  ∃ s', performCacheAccess vaddr tid mem_req prefetch s = Ok false s'
    ∧ if prefetch then
        thr s' = thr s ∧ retryPkt s' = retryPkt s ∧ retryTid s' = retryTid s
        ∧ cacheBlocked s' = cacheBlocked s
        ∧ new_effects s s'
          = [ESendTimingReq (fetch_packet (cfg s) mem_req) false;
             EDeletePacket (fetch_packet (cfg s) mem_req)]
      else
        fetchStatus (thr s' tid) = IcacheWaitRetry
        ∧ retryPkt s' = Some (fetch_packet (cfg s) mem_req)
        ∧ retryTid s' = tid
        ∧ cacheBlocked s' = true.
Proof.
  intros Hmem Hport Hpkt Htid Hva.
  unfold performCacheAccess, sendTimingReq. msimpl.
  rewrite Hmem. simpl. destruct prefetch; simpl.
  - rewrite Hport. simpl. rewrite Hpkt, Htid. simpl.
    eexists. split; [reflexivity|]. simpl.
    repeat split; try done.
    apply new_effects_app. simpl. by rewrite <-app_assoc.
  - rewrite (bool_decide_eq_true_2 _ (Hva eq_refl)). simpl.
    rewrite Hport. simpl. rewrite Hpkt, Htid. simpl.
    eexists. split; [reflexivity|]. simpl.
    by rewrite fn_lookup_alter.
Qed.

Lemma performCacheAccess_rejected_witness :
  isMemAddr (world cx_retry_start) (getPaddr (ex_request 0 4096 (Some 20480)))
    = true
  ∧ portAccepts (world cx_retry_start) (sendCount (world cx_retry_start))
    = false
  ∧ ∃ s', performCacheAccess 4096 0 (ex_request 0 4096 (Some 20480)) false
            cx_retry_start = Ok false s'
      ∧ fetchStatus (thr s' 0) = IcacheWaitRetry
      ∧ retryPkt s'
        = Some (fetch_packet (cfg cx_retry_start)
                  (ex_request 0 4096 (Some 20480)))
      ∧ retryTid s' = 0
      ∧ cacheBlocked s' = true.
Proof.
  split; [vm_compute; reflexivity|]. split; [vm_compute; reflexivity|].
  apply (performCacheAccess_rejected 4096 0 (ex_request 0 4096 (Some 20480))
           false cx_retry_start);
    first [by intros _ | vm_compute; reflexivity].
Defined.

(** C10: a prefetch for an address outside of physical memory sets the
    status of the thread to NoGoodAddr and clears its demand request,
    whatever they were. *)
Theorem performCacheAccess_prefetch_bad_address vaddr tid mem_req s :
  isMemAddr (world s) (getPaddr mem_req) = false →
  ∃ s', performCacheAccess vaddr tid mem_req true s = Ok false s'
    ∧ fetchStatus (thr s' tid) = NoGoodAddr
    ∧ memReq (thr s' tid) = None
    ∧ new_effects s s' = [EWarnBadAddr (getPaddr mem_req)].
Proof.
  intros Hmem. unfold performCacheAccess. msimpl. rewrite Hmem. simpl.
  eexists. split; [reflexivity|]. simpl. rewrite !fn_lookup_alter.
  repeat split; try done. by apply new_effects_app.
Qed.

Lemma performCacheAccess_prefetch_bad_address_witness :
  isMemAddr (world cx_badaddr_state)
    (getPaddr (ex_request 1 4160 (Some 1048576))) = false
  ∧ fetchStatus (thr cx_badaddr_state 0) = IcacheWaitResponse
  ∧ memReq (thr cx_badaddr_state 0) = Some (ex_request 0 4096 None)
  ∧ ∃ s', performCacheAccess 4160 0 (ex_request 1 4160 (Some 1048576)) true
            cx_badaddr_state = Ok false s'
      ∧ fetchStatus (thr s' 0) = NoGoodAddr
      ∧ memReq (thr s' 0) = None
      ∧ new_effects cx_badaddr_state s' = [EWarnBadAddr 1048576].
Proof.
  split; [vm_compute; reflexivity|]. split; [vm_compute; reflexivity|].
  split; [vm_compute; reflexivity|].
  apply (performCacheAccess_prefetch_bad_address 4160 0
           (ex_request 1 4160 (Some 1048576)) cx_badaddr_state).
  vm_compute. reflexivity.
Defined.

(** The same through the prefetcher: thread 0 waits for the response to
    its demand request; [processFTQ] translates the second fetch target to
    an address outside of memory, tries to prefetch it, and the thread
    ends in NoGoodAddr without a demand request. *)
Example processFTQ_bad_prefetch_stops_demand :
  reachable cx_badaddr_state
  ∧ fetchStatus (thr cx_badaddr_state 0) = IcacheWaitResponse
  ∧ returns (processFTQ 0) cx_badaddr_state = true
  ∧ fetchStatus (thr (exec (processFTQ 0) cx_badaddr_state) 0) = NoGoodAddr
  ∧ memReq (thr (exec (processFTQ 0) cx_badaddr_state) 0) = None.
Proof.
  split.
  { apply (run_events_reachable [EvFetch false (ex_no_decode cx_ftq)]
             cx_badaddr_start).
    - apply reachable_initial. unfold cx_badaddr_start.
      apply ex_start_initial; [reflexivity|reflexivity|].
      vm_compute. reflexivity.
    - apply returns_exec_unit. vm_compute. reflexivity. }
  repeat split; vm_compute; reflexivity.
Qed.

(** * The round-robin arbiter *)

Lemma set_priorityList_twice l1 l2 s :
  set_priorityList l2 (set_priorityList l1 s) = set_priorityList l2 s.
Proof. reflexivity. Qed.

Lemma roundRobin_loop_cons before x rest s :
  x ≤ numThreads (cfg s) →
  roundRobin_loop before (x :: rest) s
  = if fetchable (fetchStatus (thr s x))
    then Ok x (set_priorityList ((before ++ rest) ++ [x]) s)
    else roundRobin_loop (before ++ [x]) rest s.
Proof.
  intros Hx. simpl. unfold_m. simpl.
  rewrite (bool_decide_eq_true_2 _ Hx).
  by destruct (fetchable (fetchStatus (thr s x))).
Qed.

Lemma roundRobin_loop_none before rest s :
  Forall (λ x, x ≤ numThreads (cfg s)) rest →
  Forall (λ x, fetchable (fetchStatus (thr s x)) = false) rest →
  roundRobin_loop before rest s = Ok InvalidThreadID s.
Proof.
  revert before. induction rest as [|x rest IH]; intros before Hb Hf.
  - reflexivity.
  - inversion_clear Hb as [|?? Hx Hb']. inversion_clear Hf as [|?? Hfx Hf'].
    rewrite roundRobin_loop_cons, Hfx by done. by apply IH.
Qed.

Lemma roundRobin_loop_found before l1 t l2 s :
  Forall (λ x, x ≤ numThreads (cfg s)) (l1 ++ [t]) →
  Forall (λ x, fetchable (fetchStatus (thr s x)) = false) l1 →
  fetchable (fetchStatus (thr s t)) = true →
  roundRobin_loop before (l1 ++ t :: l2) s
  = Ok t (set_priorityList (before ++ l1 ++ l2 ++ [t]) s).
Proof.
  revert before. induction l1 as [|x l1 IH]; intros before Hb Hf Ht.
  - inversion_clear Hb as [|?? Hx _].
    rewrite app_nil_l, roundRobin_loop_cons, Ht by done.
    by rewrite <-app_assoc.
  - inversion_clear Hb as [|?? Hx Hb']. inversion_clear Hf as [|?? Hfx Hf'].
    rewrite <-app_comm_cons, roundRobin_loop_cons, Hfx by done.
    rewrite (IH (before ++ [x])) by done.
    by rewrite <-app_assoc.
Qed.

(** C8: [roundRobin] walks [priorityList] in order past the threads that
    are not fetchable; the first fetchable thread is taken out of its
    place, put at the tail and returned.  When no thread of the list is
    fetchable the result is [InvalidThreadID] and nothing changes. *)
Theorem roundRobin_rotates s :
  Forall (λ x, x ≤ numThreads (cfg s)) (priorityList s) →
  (∀ l1 t l2,
     priorityList s = l1 ++ t :: l2 →
     Forall (λ x, fetchable (fetchStatus (thr s x)) = false) l1 →
     fetchable (fetchStatus (thr s t)) = true →
     roundRobin s = Ok t (set_priorityList (l1 ++ l2 ++ [t]) s))
  ∧ (Forall (λ x, fetchable (fetchStatus (thr s x)) = false) (priorityList s) →
     roundRobin s = Ok InvalidThreadID s).
Proof.
  intros Hb. split.
  - intros l1 t l2 Hl Hf Ht. unfold roundRobin. unfold_m. rewrite Hl.
    rewrite Hl in Hb. apply (roundRobin_loop_found [] l1 t l2 s); [|done|done].
    rewrite Forall_app in Hb. destruct Hb as [Hb1 Hb2].
    inversion_clear Hb2. apply Forall_app. split; [done|]. by constructor.
  - intros Hf. unfold roundRobin. unfold_m.
    by apply roundRobin_loop_none.
Qed.

Lemma roundRobin_rotates_witness :
  Forall (λ x, x ≤ numThreads (cfg cx_rr_state)) (priorityList cx_rr_state)
  ∧ priorityList cx_rr_state = [0; 1]
  ∧ fetchStatus (thr cx_rr_state 0) = Squashing
  ∧ fetchStatus (thr cx_rr_state 1) = Running
  ∧ roundRobin cx_rr_state = Ok 1 (set_priorityList [0; 1] cx_rr_state).
Proof.
  assert (Hl : priorityList cx_rr_state = [0; 1]) by (vm_compute; reflexivity).
  assert (Hb : Forall (λ x, x ≤ numThreads (cfg cx_rr_state))
                 (priorityList cx_rr_state)).
  { rewrite Hl. repeat constructor; vm_compute; discriminate. }
  split; [exact Hb|]. split; [exact Hl|].
  split; [vm_compute; reflexivity|]. split; [vm_compute; reflexivity|].
  apply (proj1 (roundRobin_rotates cx_rr_state Hb) [0] 1 []).
  - exact Hl.
  - repeat constructor.
  - vm_compute. reflexivity.
Defined.

(** * A fetch pass without a fetchable thread *)

(** [profileStall] changes nothing but the statistics, and bumps at most
    one counter by one. *)
Lemma profileStall_run tid s :
  ∃ stats, profileStall tid s = Ok tt (set_fetchStats stats s)
    ∧ (stats = fetchStats s
       ∨ ∃ x, stats = <[x := fetchStats s x + 1]> (fetchStats s)).
Proof.
  unfold profileStall. unfold_m. simpl.
  repeat (case_match; [eexists; split; [reflexivity|]; right; eauto|]).
  exists (fetchStats s). split; [|by left]. by destruct s.
Qed.

Lemma fetch_no_thread dl sc s :
  getFetchingThread s = Ok InvalidThreadID s →
  switchedOut (world s) = false →
  fetch dl sc s
  = if bool_decide (numThreads (cfg s) = 1)
    then (profileStall 0;; mret sc)
           (set_threadFetched (numFetchingThreads (cfg s)) s)
    else Ok sc (set_threadFetched (numFetchingThreads (cfg s)) s).
Proof.
  intros Hget Hsw. unfold fetch. unfold mbind at 1. unfold M_bind.
  rewrite Hget. unfold_m. simpl. rewrite Hsw. simpl.
  by case_bool_decide.
Qed.

(** The arbiter finds no thread: one thread that is not fetchable, or
    round-robin over a list without a fetchable thread. *)
Lemma getFetchingThread_single_none s tid rest :
  numThreads (cfg s) ≤ 1 →
  activeThreads (world s) = tid :: rest →
  fetchable (fetchStatus (thr s tid)) = false →
  getFetchingThread s = Ok InvalidThreadID s.
Proof.
  intros Hn Ha Hf. unfold getFetchingThread. unfold_m. simpl.
  rewrite bool_decide_eq_false_2 by lia. by rewrite Ha, Hf.
Qed.

Lemma getFetchingThread_roundRobin_none s :
  1 < numThreads (cfg s) →
  decoupledFrontEnd (cfg s) = false →
  fetchPolicy (cfg s) = RoundRobin →
  Forall (λ x, x ≤ numThreads (cfg s)) (priorityList s) →
  Forall (λ x, fetchable (fetchStatus (thr s x)) = false) (priorityList s) →
  getFetchingThread s = Ok InvalidThreadID s.
Proof.
  intros Hn Hd Hp Hb Hf. unfold getFetchingThread. unfold_m. simpl.
  rewrite bool_decide_eq_true_2, Hd, Hp by done. simpl.
  unfold roundRobin. unfold_m. by apply roundRobin_loop_none.
Qed.

(** C9 (counterexample): two threads, both squashing.  The arbiter finds
    no thread, and the pass only sets [threadFetched]: no statistic
    changes, although [profileStall(0)] would count a squash cycle. *)
Lemma fetch_no_thread_two_threads_no_accounting :
  reachable cx_none_state
  ∧ numThreads (cfg cx_none_state) = 2
  ∧ getFetchingThread cx_none_state = Ok InvalidThreadID cx_none_state
  ∧ (∀ dl, fetch dl false cx_none_state
           = Ok false (set_threadFetched 1 cx_none_state))
  ∧ fetchStats (exec (profileStall 0) cx_none_state) squashCycles
    = fetchStats cx_none_state squashCycles + 1.
Proof.
  assert (Hget : getFetchingThread cx_none_state
                 = Ok InvalidThreadID cx_none_state).
  { apply getFetchingThread_roundRobin_none;
      [vm_compute; reflexivity|vm_compute; reflexivity|vm_compute; reflexivity| |].
    - assert (Hl : priorityList cx_none_state = [0; 1])
        by (vm_compute; reflexivity).
      rewrite Hl. repeat constructor; vm_compute; discriminate.
    - assert (Hl : priorityList cx_none_state = [0; 1])
        by (vm_compute; reflexivity).
      rewrite Hl. repeat constructor; vm_compute; reflexivity. }
  split.
  { apply (run_events_reachable
             [EvCheckSignals (ex_commit_squash 8192) 0;
              EvCheckSignals (ex_commit_squash 8192) 1] cx_two_threads).
    - apply reachable_initial. unfold cx_two_threads.
      apply ex_start_initial; [reflexivity|reflexivity|].
      vm_compute. reflexivity.
    - apply returns_exec_unit. vm_compute. reflexivity. }
  split; [vm_compute; reflexivity|]. split; [exact Hget|]. split.
  - intros dl. rewrite fetch_no_thread; [|exact Hget|vm_compute; reflexivity].
    reflexivity.
  - vm_compute. reflexivity.
Qed.

(** C9 (amended): when the arbiter returns no thread, the pass sets
    [threadFetched] to [numFetchingThreads] and, if the CPU has exactly one
    thread, does the stall accounting of [profileStall(0)]; with another
    number of threads it accounts nothing.  Nothing but [threadFetched] and
    the statistics changes: no instruction is built and nothing is queued
    for decode. *)
Theorem fetch_without_thread dl sc s :
  getFetchingThread s = Ok InvalidThreadID s →
  switchedOut (world s) = false →
  ∃ s', fetch dl sc s = Ok sc s'
    ∧ (numThreads (cfg s) = 1 →
       profileStall 0 (set_threadFetched (numFetchingThreads (cfg s)) s)
       = Ok tt s')
    ∧ (numThreads (cfg s) ≠ 1 →
       s' = set_threadFetched (numFetchingThreads (cfg s)) s)
    ∧ s' = with_accounting (numFetchingThreads (cfg s)) (fetchStats s') s.
Proof.
  intros Hget Hsw. rewrite (fetch_no_thread dl sc s Hget Hsw).
  case_bool_decide as Hn.
  - destruct (profileStall_run 0
                (set_threadFetched (numFetchingThreads (cfg s)) s))
      as (stats & Hrun & _).
    unfold_m. rewrite Hrun. eexists. split; [reflexivity|].
    split; [done|]. split; [done|]. reflexivity.
  - eexists. split; [reflexivity|]. split; [done|]. split; [done|].
    by destruct s.
Qed.

Lemma fetch_without_thread_witness :
  getFetchingThread cx_one_squashed = Ok InvalidThreadID cx_one_squashed
  ∧ switchedOut (world cx_one_squashed) = false
  ∧ ∃ s', fetch (decodeWrites (ex_no_decode (ex_ftq []))) false cx_one_squashed
          = Ok false s'
      ∧ (numThreads (cfg cx_one_squashed) = 1 →
         profileStall 0
           (set_threadFetched (numFetchingThreads (cfg cx_one_squashed))
              cx_one_squashed) = Ok tt s')
      ∧ (numThreads (cfg cx_one_squashed) ≠ 1 →
         s' = set_threadFetched (numFetchingThreads (cfg cx_one_squashed))
                cx_one_squashed)
      ∧ s' = with_accounting (numFetchingThreads (cfg cx_one_squashed))
               (fetchStats s') cx_one_squashed.
Proof.
  assert (Hget : getFetchingThread cx_one_squashed
                 = Ok InvalidThreadID cx_one_squashed).
  { apply (getFetchingThread_single_none cx_one_squashed 0 []);
      vm_compute; first [reflexivity | discriminate]. }
  split; [exact Hget|]. split; [vm_compute; reflexivity|].
  apply (fetch_without_thread (decodeWrites (ex_no_decode (ex_ftq []))) false
           cx_one_squashed Hget).
  vm_compute. reflexivity.
Defined.

(** * The request builder *)

Lemma masked_parts_add (a v m : Z) :
  Z.land a (Z.lnot m) + Z.land v m
  = Z.lor (Z.land a (Z.lnot m)) (Z.land v m).
Proof.
  assert (Hdisj : Z.land (Z.land a (Z.lnot m)) (Z.land v m) = 0).
  { apply Z.bits_inj'. intros n Hn.
    rewrite !Z.land_spec, Z.lnot_spec, Z.bits_0 by done.
    destruct (Z.testbit m n); simpl; by rewrite ?andb_false_r. }
  by rewrite Z.add_nocarry_lxor, Z.lxor_lor.
Qed.

(** The physical address [makeRequest] takes from a fetch target. *)
Lemma makeRequest_paddr_of vaddr tid pc_ i s :
  ∃ req s', makeRequest vaddr tid pc_ (Some i) s = Ok req s'
    ∧ getVaddr req = vaddr
    ∧ thr s' = thr s ∧ trace s' = trace s ∧ cfg s' = cfg s
    ∧ outstandingTranslations s' = outstandingTranslations s
    ∧ outstandingPrefetches s' = outstandingPrefetches s
    ∧ retryPkt s' = retryPkt s ∧ retryTid s' = retryTid s
    ∧ cacheBlocked s' = cacheBlocked s
    ∧ isMemAddr (world s') = isMemAddr (world s)
    ∧ portAccepts (world s') = portAccepts (world s)
    ∧ sendCount (world s') = sendCount (world s)
    ∧ translateCount (world s') = translateCount (world s)
    ∧ mmuPending (world s') = mmuPending (world s)
    ∧ req_paddr req
      = (if ft_hasPaddr (fts (ftq s) i)
            && bool_decide (ft_blkAddr (fts (ftq s) i)
                            = cacheBlockAligned (cfg s) vaddr)
         then Some (Z.lor
                      (Z.land (ft_getPaddr (fts (ftq s) i))
                         (Z.lnot (cacheBlkSize (cfg s) - 1)))
                      (Z.land vaddr (cacheBlkSize (cfg s) - 1)))
         else match ft_req (fts (ftq s) i) with
              | Some r => if bool_decide (getVaddr r = vaddr)
                          then req_paddr r else None
              | None => None
              end).
Proof.
  unfold makeRequest, newRequest. msimpl.
  destruct (ft_req (fts (ftq s) i)) as [r|] eqn:Hr; simpl.
  - case_bool_decide as Hv; simpl; rewrite ?fn_lookup_alter; simpl.
    + change (ft_hasPaddr (ft_markReady (ft_popReq (fts (ftq s) i))))
        with (ft_hasPaddr (fts (ftq s) i)).
      change (ft_getPaddr (ft_markReady (ft_popReq (fts (ftq s) i))))
        with (ft_getPaddr (fts (ftq s) i)).
      destruct (ft_hasPaddr (fts (ftq s) i) && _) eqn:Hp;
        (eexists _, _; split; [reflexivity|]); simpl;
        rewrite ?masked_parts_add; repeat split; done.
    + destruct (ft_hasPaddr (fts (ftq s) i) && _) eqn:Hp;
        (eexists _, _; split; [reflexivity|]); simpl;
        rewrite ?masked_parts_add; repeat split; done.
  - destruct (ft_hasPaddr (fts (ftq s) i) && _) eqn:Hp;
      (eexists _, _; split; [reflexivity|]); simpl;
      rewrite ?masked_parts_add; repeat split; done.
Qed.

Lemma makeRequest_reuse vaddr tid pc_ i r s :
  ft_req (fts (ftq s) i) = Some r →
  getVaddr r = vaddr →
  ∃ req s', makeRequest vaddr tid pc_ (Some i) s = Ok req s'
    ∧ req_id req = req_id r
    ∧ ft_req (fts (ftq s') i) = None
    ∧ ft_state (fts (ftq s') i) = ReadyToFetch
    ∧ world s' = world s.
Proof.
  intros Hr Hv. unfold makeRequest. msimpl. rewrite Hr. simpl.
  rewrite (bool_decide_eq_true_2 _ Hv). simpl. rewrite ?fn_lookup_alter. simpl.
  destruct (_ && _); (eexists _, _; split; [reflexivity|]); simpl;
    rewrite ?fn_lookup_alter; done.
Qed.

Lemma selectFetchTarget_head vaddr tid i s :
  ftq_readHead (ftq s) tid = Some i →
  ft_blkAddr (fts (ftq s) i) = cacheBlockAligned (cfg s) vaddr →
  selectFetchTarget vaddr tid s = Ok (Some i) s.
Proof.
  intros Hh Hb. unfold selectFetchTarget. unfold_m. simpl. rewrite Hh.
  by rewrite bool_decide_eq_false_2 by (by intros []).
Qed.

(** A demand access: what it ends in, and that it starts no
    translation. *)
Lemma performCacheAccess_demand_run vaddr tid mem_req s :
  vaddr = getVaddr mem_req →
  retryPkt s = None →
  retryTid s = InvalidThreadID →
  ∃ b s' l, performCacheAccess vaddr tid mem_req false s = Ok b s'
    ∧ outstandingTranslations s' = outstandingTranslations s
    ∧ mmuPending (world s') = mmuPending (world s)
    ∧ trace s' = trace s ++ l
    ∧ Forall (λ e, is_translate e = false) l
    ∧ (isMemAddr (world s) (getPaddr mem_req) = true →
       ∃ ok, ESendTimingReq (fetch_packet (cfg s) mem_req) ok ∈ l)
    ∧ demand_issued (fetchStatus (thr s' tid)).
Proof.
  intros Hv Hpkt Htid. unfold performCacheAccess, sendTimingReq. msimpl.
  rewrite (bool_decide_eq_true_2 _ Hv). simpl.
  destruct (isMemAddr (world s) (getPaddr mem_req)) eqn:Hmem; simpl.
  - destruct (portAccepts (world s) (sendCount (world s))) eqn:Hport; simpl.
    + eexists _, _, _. split; [reflexivity|]. simpl.
      rewrite !fn_lookup_alter. simpl.
      split; [done|]. split; [done|].
      split; [by rewrite <-!app_assoc|].
      split; [repeat constructor|].
      split; [intros _; eexists; apply list_elem_of_In; simpl; eauto|].
      unfold demand_issued. auto.
    + rewrite Hpkt, Htid. simpl.
      eexists _, _, _. split; [reflexivity|]. simpl.
      rewrite !fn_lookup_alter. simpl.
      split; [done|]. split; [done|].
      split; [reflexivity|].
      split; [repeat constructor|].
      split; [intros _; eexists; apply list_elem_of_In; simpl; eauto|].
      unfold demand_issued. auto.
  - eexists _, _, _. split; [reflexivity|]. simpl.
    rewrite !fn_lookup_alter. simpl.
    split; [done|]. split; [done|].
    split; [reflexivity|].
    split; [repeat constructor|].
    split; [done|].
    unfold demand_issued. auto.
Qed.

(** C5: [makeRequest] takes a matching request back from the fetch
    target ([popReq]) and marks the target ready; when the target knows a
    physical address for the block, the request gets the block's physical
    address with the offset of [vaddr]; and [fetchCacheLine] sends a
    request that comes with a physical address to the cache at once,
    starting no translation. *)
Theorem makeRequest_reuses_fetch_target vaddr tid pc_ i s :
  (∀ r, ft_req (fts (ftq s) i) = Some r → getVaddr r = vaddr →
     ∃ req s', makeRequest vaddr tid pc_ (Some i) s = Ok req s'
       ∧ req_id req = req_id r
       ∧ ft_req (fts (ftq s') i) = None
       ∧ ft_state (fts (ftq s') i) = ReadyToFetch)
  ∧ (∀ pa, ft_paddr (fts (ftq s) i) = Some pa →
       ft_blkAddr (fts (ftq s) i) = cacheBlockAligned (cfg s) vaddr →
       ∃ req s', makeRequest vaddr tid pc_ (Some i) s = Ok req s'
         ∧ req_paddr req = Some (block_paddr (cfg s) pa vaddr))
  ∧ (∀ ft0 pa,
       switchedOut (world s) = false →
       cacheBlocked s = false →
       interruptPending s && negb (delayedCommit (thr s tid)) = false →
       retryPkt s = None →
       retryTid s = InvalidThreadID →
       works_with s vaddr tid ft0 i →
       ft_state (fts (ftq s) i) = Initial
         ∨ ft_state (fts (ftq s) i) = TranslationReady
         ∨ ft_state (fts (ftq s) i) = ReadyToFetch →
       ft_paddr (fts (ftq s) i) = Some pa →
       ft_blkAddr (fts (ftq s) i)
         = cacheBlockAligned (cfg s) (fetchBufferAlignPC (cfg s) vaddr) →
       ∃ s' l req,
         fetchCacheLine vaddr tid pc_ ft0 s = Ok true s'
         ∧ outstandingTranslations s' = outstandingTranslations s
         ∧ mmuPending (world s') = mmuPending (world s)
         ∧ trace s' = trace s ++ l
         ∧ Forall (λ e, is_translate e = false) l
         ∧ req_paddr req
           = Some (block_paddr (cfg s) pa (fetchBufferAlignPC (cfg s) vaddr))
         ∧ demand_issued (fetchStatus (thr s' tid))
         ∧ (isMemAddr (world s) (getPaddr req) = true →
            ∃ ok, ESendTimingReq (fetch_packet (cfg s) req) ok ∈ l)).
Proof.
  split; [|split].
  - intros r Hr Hv.
    destruct (makeRequest_reuse vaddr tid pc_ i r s Hr Hv)
      as (req & s' & Hrun & ? & ? & ? & _).
    by exists req, s'.
  - intros pa Hpa Hblk.
    destruct (makeRequest_paddr_of vaddr tid pc_ i s)
      as (req & s' & Hrun & Hrest).
    exists req, s'. split; [done|].
    decompose [and] Hrest. clear Hrest.
    match goal with H : req_paddr req = _ |- _ => rewrite H end.
    unfold ft_hasPaddr, ft_getPaddr. rewrite Hpa. simpl.
    by rewrite (bool_decide_eq_true_2 _ Hblk).
  - intros ft0 pa Hsw Hcb Hirq Hpkt Hrtid Hft Hst Hpa Hblk.
    assert (Hsel : (if decoupledFrontEnd (cfg s)
                    then selectFetchTarget vaddr tid else mret ft0) s
                   = Ok (Some i) s).
    { unfold works_with in Hft. destruct (decoupledFrontEnd (cfg s)).
      - destruct Hft. by apply selectFetchTarget_head.
      - by subst ft0. }
    unfold fetchCacheLine, checkInterrupt. unfold_m. simpl.
    rewrite Hsw. simpl. rewrite Hcb, Hirq. simpl. rewrite Hsel.
    assert (Hhas : ft_hasPaddr (fts (ftq s) i)
                   && bool_decide (ft_blkAddr (fts (ftq s) i)
                        = cacheBlockAligned (cfg s)
                            (fetchBufferAlignPC (cfg s) vaddr)) = true).
    { unfold ft_hasPaddr. rewrite Hpa.
      by rewrite (bool_decide_eq_true_2 _ Hblk). }
    destruct Hst as [Hs|[Hs|Hs]]; rewrite Hs; simpl.
    all: match goal with
         | |- context [makeRequest ?v ?t ?p (Some ?j) ?s1] =>
             destruct (makeRequest_paddr_of v t p j s1)
               as (req & s2 & Hrun & Hv & Hthr & Htr & Hcfg & Hot & _ & Hrp
                   & Hrt & _ & Hmem & _ & _ & _ & Hmp & Hrpa);
             rewrite Hrun
         end.
    all: simpl in Hrpa, Hthr, Htr, Hcfg, Hot, Hrp, Hrt, Hmem, Hmp;
      rewrite Hhas in Hrpa.
    all: unfold hasPaddr; rewrite Hrpa; simpl.
    all: match goal with
         | |- context [performCacheAccess ?v ?t ?r false ?s3] =>
             destruct (performCacheAccess_demand_run v t r s3)
               as (b & s4 & l & Hrun4 & Hot4 & Hmp4 & Htr4 & Hl4 & Hsend
                   & Hst4);
             [done| by rewrite <-Hpkt | by rewrite <-Hrtid |];
             rewrite Hrun4
         end.
    all: simpl in *.
    all: exists s4, l, req.
    all: split; [reflexivity|].
    all: split; [congruence|].
    all: split; [congruence|].
    all: split; [congruence|].
    all: split; [done|].
    all: split;
      [rewrite Hrpa; unfold block_paddr, ft_getPaddr; by rewrite Hpa|].
    all: split; [done|].
    all: intros Hm; rewrite <-Hcfg; apply Hsend; rewrite Hmem; exact Hm.
Qed.


Lemma makeRequest_reuses_fetch_target_witness :
  (∃ req s', makeRequest 4096 0 4096 (Some 0%nat) cx_known_start = Ok req s'
     ∧ req_id req = 7%nat
     ∧ ft_req (fts (ftq s') 0%nat) = None
     ∧ ft_state (fts (ftq s') 0%nat) = ReadyToFetch)
  ∧ (∃ req s', makeRequest 4096 0 4096 (Some 0%nat) cx_known_start = Ok req s'
       ∧ req_paddr req = Some 20480)
  ∧ (∃ s' l req,
       fetchCacheLine 4096 0 4096 None cx_known_start = Ok true s'
       ∧ outstandingTranslations s' = outstandingTranslations cx_known_start
       ∧ mmuPending (world s') = mmuPending (world cx_known_start)
       ∧ trace s' = trace cx_known_start ++ l
       ∧ Forall (λ e, is_translate e = false) l
       ∧ req_paddr req = Some 20480
       ∧ demand_issued (fetchStatus (thr s' 0))
       ∧ (isMemAddr (world cx_known_start) (getPaddr req) = true →
          ∃ ok, ESendTimingReq (fetch_packet (cfg cx_known_start) req) ok ∈ l)).
Proof.
  destruct (makeRequest_reuses_fetch_target 4096 0 4096 0%nat cx_known_start)
    as (HA & HB & HC).
  split; [|split].
  - apply (HA (ex_request 7 4096 (Some 20480))); vm_compute; reflexivity.
  - apply (HB 20480); vm_compute; reflexivity.
  - apply (HC None 20480); try (vm_compute; reflexivity).
    + vm_compute. split; reflexivity.
    + right. right. vm_compute. reflexivity.
Defined.

(** With power-of-two sizes and a fetch buffer no larger than a cache
    block, a buffer-aligned address lies in the cache block of the address
    it was aligned from. *)
Lemma cacheBlockAligned_fetchBufferAlignPC p a b v :
  0 ≤ a ≤ b →
  fetchBufferSize p = 2 ^ a →
  cacheBlkSize p = 2 ^ b →
  cacheBlockAligned p (fetchBufferAlignPC p v) = cacheBlockAligned p v.
Proof.
  intros Hab Hf Hc. unfold cacheBlockAligned, fetchBufferAlignPC, fetchBufferMask.
  rewrite Hf, Hc, !Z.sub_1_r, <-!Z.ones_equiv.
  apply Z.bits_inj'. intros n Hn.
  rewrite !Z.land_spec, !Z.lnot_spec by done.
  destruct (decide (n < b)) as [Hlt|Hge].
  - rewrite (Z.ones_spec_low b n) by lia. simpl. by rewrite !andb_false_r.
  - rewrite (Z.ones_spec_high a n), (Z.ones_spec_high b n) by lia. simpl.
    by rewrite !andb_true_r.
Qed.

(** * Completion of a cache access *)

Lemma prefetch_target_matches s pkt i :
  prefetch_target s pkt = Some i →
  decoupledFrontEnd (cfg s) = true
  ∧ i ∈ tail (ftq_entries (ftq s) (packet_thread s pkt))
  ∧ req_ptr_eqb (ft_req (fts (ftq s) i)) (Some (pkt_req pkt)) = true.
Proof.
  unfold prefetch_target, ftq_findAfterHead.
  destruct (decoupledFrontEnd (cfg s)); [|done].
  intros [Hin Hf]%find_some. by rewrite list_elem_of_In.
Qed.

Lemma prefetch_target_complete s pkt j :
  decoupledFrontEnd (cfg s) = true →
  j ∈ tail (ftq_entries (ftq s) (packet_thread s pkt)) →
  req_ptr_eqb (ft_req (fts (ftq s) j)) (Some (pkt_req pkt)) = true →
  is_Some (prefetch_target s pkt).
Proof.
  unfold prefetch_target, ftq_findAfterHead. intros -> Hin Hf.
  destruct (find _ _) eqn:Hfind; [done|].
  apply list_elem_of_In in Hin.
  by rewrite (find_none _ _ Hfind j Hin) in Hf.
Qed.




(** * Summaries of the member functions *)

Section Sat.
Context (R : relation FetchState) `{!PreOrder R}.

Lemma sat_ret {A} (a : A) : sat R (mret a).
Proof. intros s. by apply wpx_ret. Qed.

Lemma sat_bind {A B} (m : M A) (f : A → M B) :
  sat R m → (∀ a, sat R (f a)) → sat R (m ≫= f).
Proof.
  intros Hm Hf s. apply wpx_bind.
  eapply wpx_mono; [|apply Hm]. intros a s' Hs. simpl in Hs.
  eapply wpx_mono; [|apply Hf]. intros b s'' Hs'. simpl in Hs'.
  by etrans.
Qed.

Lemma sat_get : sat R get.
Proof. intros s. by apply wpx_get. Qed.

Lemma sat_assert b msg : sat R (assert b msg).
Proof. intros s. apply wpx_assert. by destruct b. Qed.

Lemma sat_panic {A} msg : sat R (panic (A:=A) msg).
Proof. by intros s. Qed.

Lemma sat_modify g : (∀ s, R s (g s)) → sat R (modify g).
Proof. intros H s. apply wpx_modify, H. Qed.

Lemma sat_when b m : sat R m → sat R (when b m).
Proof. destruct b; [done|]. intros _. apply (sat_ret tt). Qed.

Lemma sat_for_each {A} (l : list A) f :
  (∀ x, sat R (f x)) → sat R (for_each l f).
Proof.
  intros Hf. induction l as [|x l IH]; [apply (sat_ret tt)|].
  change (for_each (x :: l) f) with (f x ≫= λ _, for_each l f).
  by apply sat_bind.
Qed.
End Sat.

Lemma sat_weaken {A} (R R' : relation FetchState) (m : M A) :
  (∀ s s', R s s' → R' s s') → sat R m → sat R' m.
Proof. intros HR Hm s. eapply wpx_mono; [|apply Hm]. eauto. Qed.

Lemma sat_run {A} (R : relation FetchState) (m : M A) s a s' :
  sat R m → m s = Ok a s' → R s s'.
Proof. intros Hm Hrun. by apply (wp_run m _ s a s' (Hm s)). Qed.

#[local] Instance keeps_balance_preorder : PreOrder keeps_balance.
Proof. split; [done|]. intros s1 s2 s3. unfold keeps_balance. congruence. Qed.

#[local] Instance same_demand_preorder : PreOrder same_demand.
Proof.
  split; [done|]. intros s1 s2 s3 H1 H2 t.
  destruct (H1 t), (H2 t). split; congruence.
Qed.

#[local] Instance settles_preorder : PreOrder settles.
Proof.
  split; [by left|]. intros s1 s2 s3 H1 H2 t.
  destruct (H2 t) as [[Hs Hm]|?]; [|by right].
  destruct (H1 t) as [[Hs' Hm']|Ht]; [left; split; congruence|right].
  unfold demand_tracked in *. by rewrite Hs, Hm.
Qed.

#[local] Instance no_translation_preorder : PreOrder no_translation.
Proof.
  split.
  - intros s. exists []. by rewrite app_nil_r.
  - intros s1 s2 s3 (l1 & H1 & F1) (l2 & H2 & F2). exists (l1 ++ l2).
    split; [by rewrite H2, H1, app_assoc|by apply Forall_app].
Qed.

#[local] Instance keeps_prefetches_preorder : PreOrder keeps_prefetches.
Proof.
  split; [done|]. intros s1 s2 s3 (?&?&?) (?&?&?).
  repeat split; congruence.
Qed.

Lemma same_demand_settles s s' : same_demand s s' → settles s s'.
Proof. intros H t. left. apply H. Qed.


Create HintDb sat discriminated.

(** Decomposition of a computation into its steps; the steps are closed
    by [solve_rel] or by the summaries in the hint database. *)
Ltac sat_step solve_rel :=
  lazymatch goal with
  | |- sat _ (mret _) => apply sat_ret; tc_solve
  | |- sat _ get => apply sat_get; tc_solve
  | |- sat _ (assert _ _) => apply sat_assert; tc_solve
  | |- sat _ (panic _) => apply sat_panic
  | |- sat _ (mbind _ _) => apply sat_bind; [tc_solve| |intros ?]
  | |- sat _ (when _ _) => apply sat_when; [tc_solve|]
  | |- sat _ (for_each _ _) => apply sat_for_each; [tc_solve|intros ?]
  | |- sat _ (modify _) => apply sat_modify; intros ?; solve_rel
  | |- sat _ (upd_thread _ _) => unfold upd_thread
  | |- sat _ (upd_ft _ _) => unfold upd_ft
  | |- sat _ (stat_inc _) => unfold stat_inc
  | |- sat _ (stat_add _ _) => unfold stat_add
  | |- sat _ (emit _) => unfold emit
  | |- sat _ (if ?b then _ else _) => destruct b
  | |- sat _ (match ?x with _ => _ end) => destruct x
  | |- sat _ (let _ := _ in _) => cbv zeta
  | |- sat _ _ => solve [eauto with sat]
  end.

Ltac sat_auto solve_rel := repeat sat_step solve_rel.

(** ** Translations in flight *)

Ltac solve_balance := unfold keeps_balance, translation_balance; simpl; done.

Lemma sendTimingReq_balance pkt : sat keeps_balance (sendTimingReq pkt).
Proof. intros s. unfold wpx, sendTimingReq. solve_balance. Qed.
Lemma getAndIncrementInstSeq_balance : sat keeps_balance getAndIncrementInstSeq.
Proof. intros s. unfold wpx, getAndIncrementInstSeq. solve_balance. Qed.
Lemma newRequest_balance v t p : sat keeps_balance (newRequest v t p).
Proof. intros s. unfold wpx, newRequest. solve_balance. Qed.
#[local] Hint Resolve sendTimingReq_balance getAndIncrementInstSeq_balance
  newRequest_balance : sat.

Lemma checkInterrupt_balance a : sat keeps_balance (checkInterrupt a).
Proof. unfold checkInterrupt. sat_auto solve_balance. Qed.
Lemma checkStall_balance t : sat keeps_balance (checkStall t).
Proof. unfold checkStall. sat_auto solve_balance. Qed.
Lemma switchToActive_balance : sat keeps_balance switchToActive.
Proof. unfold switchToActive. sat_auto solve_balance. Qed.
Lemma updateFetchStatus_balance : sat keeps_balance updateFetchStatus.
Proof. unfold updateFetchStatus. sat_auto solve_balance. Qed.
#[local] Hint Resolve checkInterrupt_balance checkStall_balance
  switchToActive_balance updateFetchStatus_balance : sat.

Lemma buildInst_balance t si m p n : sat keeps_balance (buildInst t si m p n).
Proof. unfold buildInst. sat_auto solve_balance. Qed.
#[local] Hint Resolve buildInst_balance : sat.
Lemma processTrap_balance t f r : sat keeps_balance (processTrap t f r).
Proof. unfold processTrap. sat_auto solve_balance. Qed.
Lemma performCacheAccess_balance v t r p :
  sat keeps_balance (performCacheAccess v t r p).
Proof. unfold performCacheAccess. sat_auto solve_balance. Qed.
#[local] Hint Resolve processTrap_balance performCacheAccess_balance : sat.

Lemma shifts_balance_bind {A B} d1 d2 (m : M A) (f : A → M B) :
  sat (shifts_balance d1) m → (∀ a, sat (shifts_balance d2) (f a)) →
  sat (shifts_balance (d1 + d2)) (m ≫= f).
Proof.
  intros Hm Hf s. apply wpx_bind.
  eapply wpx_mono; [|apply Hm]. intros a s' Hs. simpl in Hs.
  eapply wpx_mono; [|apply Hf]. intros b s'' Hs'. simpl in Hs'.
  unfold shifts_balance in *. lia.
Qed.

Lemma keeps_shifts {A} (m : M A) :
  sat keeps_balance m ↔ sat (shifts_balance 0) m.
Proof.
  split; apply sat_weaken; unfold keeps_balance, shifts_balance; intros; lia.
Qed.

Lemma finishTranslation_balance fault r ft :
  sat (shifts_balance (-1)) (finishTranslation fault r ft).
Proof.
  unfold finishTranslation.
  apply (shifts_balance_bind 0 (-1)); [apply keeps_shifts, sat_get; tc_solve|].
  intros s0. cbv zeta.
  apply (shifts_balance_bind 0 (-1));
    [apply keeps_shifts, sat_assert; tc_solve|intros _].
  apply (shifts_balance_bind 0 (-1));
    [apply keeps_shifts; sat_auto solve_balance|intros _].
  apply (shifts_balance_bind (-1) 0).
  { apply sat_modify. intros s.
    unfold shifts_balance, translation_balance. simpl. lia. }
  intros _. apply keeps_shifts. sat_auto solve_balance.
Qed.

Lemma translateTiming_balance r t ft :
  sat (shifts_balance (-1)) (translateTiming r t ft).
Proof.
  unfold translateTiming.
  apply (shifts_balance_bind 0 (-1));
    [apply keeps_shifts; sat_auto solve_balance|intros _].
  intros s. apply wpx_bind, wpx_get. cbv zeta.
  destruct (mmuImmediate (world s) (translateCount (world s)))
    as [[fault pa]|].
  - apply wpx_bind, wpx_modify.
    eapply wpx_mono; [|apply finishTranslation_balance].
    intros ? s'. unfold shifts_balance, translation_balance. simpl. lia.
  - apply wpx_modify.
    unfold shifts_balance, translation_balance. simpl.
    rewrite length_app. simpl. lia.
Qed.

Lemma startTranslation_balance r t ft :
  sat keeps_balance (startTranslation r t ft).
Proof.
  unfold startTranslation. apply keeps_shifts.
  apply (shifts_balance_bind 0 0);
    [apply keeps_shifts; sat_auto solve_balance|intros _].
  apply (shifts_balance_bind 1 (-1)); [|intros _; apply translateTiming_balance].
  apply sat_modify. intros s.
  unfold shifts_balance, translation_balance. simpl. lia.
Qed.
#[local] Hint Resolve startTranslation_balance : sat.

Lemma makeRequest_balance v t p ft : sat keeps_balance (makeRequest v t p ft).
Proof. unfold makeRequest. sat_auto solve_balance. Qed.
Lemma selectFetchTarget_balance v t : sat keeps_balance (selectFetchTarget v t).
Proof. unfold selectFetchTarget. sat_auto solve_balance. Qed.
#[local] Hint Resolve makeRequest_balance selectFetchTarget_balance : sat.
Lemma fetchCacheLine_balance v t p ft :
  sat keeps_balance (fetchCacheLine v t p ft).
Proof. unfold fetchCacheLine. sat_auto solve_balance. Qed.
Lemma processFTQ_balance t : sat keeps_balance (processFTQ t).
Proof. unfold processFTQ. sat_auto solve_balance. Qed.
Lemma trySatisfyPrefetch_balance t p : sat keeps_balance (trySatisfyPrefetch t p).
Proof. unfold trySatisfyPrefetch. sat_auto solve_balance. Qed.
#[local] Hint Resolve fetchCacheLine_balance processFTQ_balance
  trySatisfyPrefetch_balance : sat.
Lemma processCacheCompletion_balance p :
  sat keeps_balance (processCacheCompletion p).
Proof. unfold processCacheCompletion. sat_auto solve_balance. Qed.
Lemma doSquash_balance p i t : sat keeps_balance (doSquash p i t).
Proof. unfold doSquash. sat_auto solve_balance. Qed.
#[local] Hint Resolve processCacheCompletion_balance doSquash_balance : sat.
Lemma squash_balance p n i t : sat keeps_balance (squash p n i t).
Proof. unfold squash. sat_auto solve_balance. Qed.
Lemma squashFromDecode_balance p i n t :
  sat keeps_balance (squashFromDecode p i n t).
Proof. unfold squashFromDecode. sat_auto solve_balance. Qed.
Lemma recvReqRetry_balance : sat keeps_balance recvReqRetry.
Proof. unfold recvReqRetry. sat_auto solve_balance. Qed.
#[local] Hint Resolve squash_balance squashFromDecode_balance
  recvReqRetry_balance : sat.
Lemma checkSignalsAndUpdate_balance sig t :
  sat keeps_balance (checkSignalsAndUpdate sig t).
Proof. unfold checkSignalsAndUpdate. sat_auto solve_balance. Qed.

Lemma roundRobin_loop_balance before rest :
  sat keeps_balance (roundRobin_loop before rest).
Proof.
  revert before. induction rest as [|x rest IH]; intros before; simpl;
    sat_auto solve_balance.
Qed.
#[local] Hint Resolve checkSignalsAndUpdate_balance roundRobin_loop_balance
  : sat.
Lemma getFetchingThread_balance : sat keeps_balance getFetchingThread.
Proof.
  unfold getFetchingThread, roundRobin, iqCount, lsqCount, branchCount,
    countPolicy.
  sat_auto solve_balance.
Qed.
Lemma profileStall_balance t : sat keeps_balance (profileStall t).
Proof. unfold profileStall. sat_auto solve_balance. Qed.
Lemma ftqReady_balance t sc : sat keeps_balance (ftqReady t sc).
Proof. unfold ftqReady. sat_auto solve_balance. Qed.
Lemma bacResteer_balance p t : sat keeps_balance (bacResteer p t).
Proof. unfold bacResteer. sat_auto solve_balance. Qed.
Lemma decodeWrites_balance o t sc : sat keeps_balance (decodeWrites o t sc).
Proof. unfold decodeWrites. sat_auto solve_balance. Qed.
#[local] Hint Resolve getFetchingThread_balance profileStall_balance
  ftqReady_balance bacResteer_balance decodeWrites_balance : sat.
Lemma fetch_balance dl sc :
  (∀ t c, sat keeps_balance (dl t c)) → sat keeps_balance (fetch dl sc).
Proof. intros Hdl. unfold fetch. sat_auto solve_balance. Qed.
Lemma pipelineIcacheAccesses_balance t :
  sat keeps_balance (pipelineIcacheAccesses t).
Proof. unfold pipelineIcacheAccesses. sat_auto solve_balance. Qed.
Lemma resetStage_balance : sat keeps_balance resetStage.
Proof. unfold resetStage. sat_auto solve_balance. Qed.
#[local] Hint Resolve resetStage_balance : sat.
Lemma startupStage_balance : sat keeps_balance startupStage.
Proof. unfold startupStage. sat_auto solve_balance. Qed.

Lemma bring_up_balance : sat keeps_balance bring_up.
Proof.
  pose proof startupStage_balance.
  unfold bring_up, setBACandFTQPtr. sat_auto solve_balance.
Qed.

Lemma translationDone_balance k fault pa :
  sat keeps_balance (translationDone k fault pa).
Proof.
  unfold translationDone. intros s. apply wpx_bind, wpx_get. cbv zeta.
  destruct (mmuPending (world s) !! k) as [[req ft]|] eqn:Hk; [|done].
  apply wpx_bind, wpx_modify.
  eapply wpx_mono; [|apply finishTranslation_balance].
  intros ? s'. unfold shifts_balance, keeps_balance, translation_balance.
  simpl. rewrite length_delete by eauto.
  apply lookup_lt_Some in Hk. lia.
Qed.

Lemma cacheResponse_balance k depth data :
  sat keeps_balance (cacheResponse k depth data).
Proof.
  unfold cacheResponse. intros s. apply wpx_bind, wpx_get. cbv zeta.
  destruct (icachePending (world s) !! k) as [pkt|]; [|done].
  apply wpx_bind, wpx_modify.
  eapply wpx_mono; [|apply processCacheCompletion_balance].
  intros ? s'. unfold keeps_balance, translation_balance. simpl. lia.
Qed.
#[local] Hint Resolve pipelineIcacheAccesses_balance translationDone_balance
  cacheResponse_balance : sat.

Lemma step_balance e : sat keeps_balance (step e).
Proof.
  destruct e; cbn [step].
  all: try lazymatch goal with
       | |- sat _ (translationDone _ _ _) => apply translationDone_balance
       | |- sat _ (cacheResponse _ _ _) => apply cacheResponse_balance
       end.
  all: unfold processTrapEvent_fire, sendToDecode,
         environment_change, clearStates, drainStall, drainResume,
         wakeFromQuiesce, deactivateThread.
  all: try (sat_auto solve_balance).
  apply fetch_balance. intros. apply decodeWrites_balance.
Qed.

(** The stage counts exactly the translations the MMU holds. *)
Lemma reachable_balance s : reachable s → translation_balance s = 0.
Proof.
  induction 1 as [s (p & w & q & pc0 & Hm & Hi & Hrun)|s e s' _ IH Hstep].
  - rewrite (sat_run _ _ _ _ _ bring_up_balance Hrun).
    unfold translation_balance. simpl. by rewrite Hm.
  - by rewrite (sat_run _ _ _ _ _ (step_balance e) Hstep).
Qed.

(** ** Demand requests and thread states *)

Lemma fn_alter_lookup {B} (f : B → B) (g : ThreadID → B) i t :
  alter f i g t = if decide (i = t) then f (g t) else g t.
Proof.
  destruct (decide (i = t)) as [->|];
    [apply fn_lookup_alter|by apply fn_lookup_alter_ne].
Qed.

Ltac thread_cases t :=
  rewrite ?fn_alter_lookup;
  repeat match goal with
    | |- context [decide (?i = t)] => destruct (decide (i = t))
    end.

Ltac solve_same :=
  unfold same_demand; simpl;
  let t := fresh "thread" in intros t; thread_cases t; simpl; done.

Lemma sendTimingReq_same pkt : sat same_demand (sendTimingReq pkt).
Proof. intros s. unfold wpx, sendTimingReq. solve_same. Qed.
Lemma getAndIncrementInstSeq_same : sat same_demand getAndIncrementInstSeq.
Proof. intros s. unfold wpx, getAndIncrementInstSeq. solve_same. Qed.
Lemma newRequest_same v t p : sat same_demand (newRequest v t p).
Proof. intros s. unfold wpx, newRequest. solve_same. Qed.
#[local] Hint Resolve sendTimingReq_same getAndIncrementInstSeq_same
  newRequest_same : sat.

Lemma checkInterrupt_same a : sat same_demand (checkInterrupt a).
Proof. unfold checkInterrupt. sat_auto solve_same. Qed.
Lemma checkStall_same t : sat same_demand (checkStall t).
Proof. unfold checkStall. sat_auto solve_same. Qed.
Lemma switchToActive_same : sat same_demand switchToActive.
Proof. unfold switchToActive. sat_auto solve_same. Qed.
Lemma updateFetchStatus_same : sat same_demand updateFetchStatus.
Proof. unfold updateFetchStatus. sat_auto solve_same. Qed.
#[local] Hint Resolve checkInterrupt_same checkStall_same
  switchToActive_same updateFetchStatus_same : sat.
Lemma buildInst_same t si m p n : sat same_demand (buildInst t si m p n).
Proof. unfold buildInst. sat_auto solve_same. Qed.
Lemma makeRequest_same v t p ft : sat same_demand (makeRequest v t p ft).
Proof. unfold makeRequest. sat_auto solve_same. Qed.
Lemma selectFetchTarget_same v t : sat same_demand (selectFetchTarget v t).
Proof. unfold selectFetchTarget. sat_auto solve_same. Qed.
Lemma trySatisfyPrefetch_same t p : sat same_demand (trySatisfyPrefetch t p).
Proof. unfold trySatisfyPrefetch. sat_auto solve_same. Qed.
Lemma profileStall_same t : sat same_demand (profileStall t).
Proof. unfold profileStall. sat_auto solve_same. Qed.
Lemma bacResteer_same p t : sat same_demand (bacResteer p t).
Proof. unfold bacResteer. sat_auto solve_same. Qed.
#[local] Hint Resolve buildInst_same makeRequest_same selectFetchTarget_same
  trySatisfyPrefetch_same profileStall_same bacResteer_same : sat.
Lemma roundRobin_loop_same before rest :
  sat same_demand (roundRobin_loop before rest).
Proof.
  revert before. induction rest as [|x rest IH]; intros before; simpl;
    sat_auto solve_same.
Qed.
#[local] Hint Resolve roundRobin_loop_same : sat.
Lemma getFetchingThread_same : sat same_demand getFetchingThread.
Proof.
  unfold getFetchingThread, roundRobin, iqCount, lsqCount, branchCount,
    countPolicy.
  sat_auto solve_same.
Qed.
#[local] Hint Resolve getFetchingThread_same : sat.

(** A summary by [same_demand] is one by [settles]. *)
Lemma sat_same_settles {A} (m : M A) : sat same_demand m → sat settles m.
Proof. apply sat_weaken, same_demand_settles. Qed.
#[local] Hint Resolve sat_same_settles | 10 : sat.

Ltac solve_tracked :=
  unfold demand_tracked; simpl;
  first [done | congruence | intros ?; congruence].

Ltac solve_settles :=
  unfold settles; simpl;
  let t := fresh "thread" in intros t; thread_cases t; simpl;
  first [by left | right; solve_tracked].

Lemma performCacheAccess_settles v tid r p :
  sat settles (performCacheAccess v tid r p).
Proof.
  intros s. unfold performCacheAccess, sendTimingReq. unfold wpx. msimpl.
  repeat (first [case_bool_decide | case_match]; simpl in *; simplify_eq;
          try done).
  all: solve_settles.
Qed.
#[local] Hint Resolve performCacheAccess_settles : sat.

(** A call of a summarised function inside an unfolded computation. *)
Ltac wp_call lem :=
  match goal with
  | |- context [match ?m ?s with Ok _ _ => _ | Abort _ => _ end] =>
      let H := fresh "Hcall" in
      destruct (m s) as [? ?|] eqn:H;
      [apply (sat_run _ _ _ _ _ lem) in H; simpl in H | done]
  end.

Lemma processTrap_settles tid fault r : sat settles (processTrap tid fault r).
Proof.
  intros s. unfold processTrap. unfold wpx. msimpl.
  destruct (_ || _); simpl.
  - case_bool_decide; simpl; [|done]. solve_settles.
  - wp_call (buildInst_same tid nopStaticInst None (pc (thr s tid))
               (pc (thr s tid))).
    unfold settles, same_demand in *. simpl in *. intros t.
    destruct (Hcall t) as [Hst Hmr]. revert Hst Hmr.
    thread_cases t; simpl; intros Hst Hmr.
    + right. unfold demand_tracked. simpl. by rewrite Hmr.
    + left. by rewrite Hst, Hmr.
Qed.
#[local] Hint Resolve processTrap_settles : sat.

Lemma finishTranslation_settles fault r ft :
  sat settles (finishTranslation fault r ft).
Proof. unfold finishTranslation. sat_auto solve_settles. Qed.
#[local] Hint Resolve finishTranslation_settles : sat.
Lemma translateTiming_settles r t ft : sat settles (translateTiming r t ft).
Proof. unfold translateTiming. sat_auto solve_settles. Qed.
#[local] Hint Resolve translateTiming_settles : sat.
Lemma startTranslation_settles r t ft : sat settles (startTranslation r t ft).
Proof. unfold startTranslation. sat_auto solve_settles. Qed.
#[local] Hint Resolve startTranslation_settles : sat.
Lemma processFTQ_settles t : sat settles (processFTQ t).
Proof. unfold processFTQ. sat_auto solve_settles. Qed.

Lemma processCacheCompletion_settles pkt :
  sat settles (processCacheCompletion pkt).
Proof.
  intros s. unfold processCacheCompletion. unfold wpx. msimpl.
  destruct (_ || _); simpl.
  - wp_call (trySatisfyPrefetch_same
               (contextToThread (world s) (req_contextId (pkt_req pkt))) pkt).
    unfold settles, same_demand in *. simpl in *.
    destruct a; simpl; intros t; left; apply Hcall.
  - destruct (switchedOut (world s)); simpl; [done|].
    wp_call switchToActive_same.
    match goal with
    | |- context [checkStall ?t ?s1] =>
        destruct (checkStall t s1) as [b s2|] eqn:Hcs; [|done];
        apply (sat_run _ _ _ _ _ (checkStall_same t)) in Hcs; simpl in Hcs
    end.
    unfold settles, same_demand in *. simpl in *. intros t.
    destruct (Hcs t) as [Hs1 Hm1]. destruct (Hcall t) as [Hs2 Hm2].
    revert Hs1 Hm1 Hs2 Hm2.
    thread_cases t; simpl; intros Hs1 Hm1 Hs2 Hm2;
      [right; solve_tracked|left].
    split; congruence.
Qed.

Lemma recvReqRetry_settles : sat settles recvReqRetry.
Proof.
  intros s. unfold recvReqRetry, sendTimingReq. unfold wpx. msimpl.
  repeat (first [case_bool_decide | case_match]; simpl in *; simplify_eq;
          try done).
  all: solve_settles.
Qed.
#[local] Hint Resolve processFTQ_settles processCacheCompletion_settles
  recvReqRetry_settles : sat.

(** A demand access leaves its thread waiting for the line, or without a
    request, and the other threads as they were. *)
Lemma performCacheAccess_demand_lands v tid r s :
  wp (performCacheAccess v tid r false)
     (λ _ s', demand_tracked (thr s' tid)
              ∧ ∀ t, t ≠ tid →
                     fetchStatus (thr s' t) = fetchStatus (thr s t)
                     ∧ memReq (thr s' t) = memReq (thr s t)) s.
Proof.
  unfold performCacheAccess, sendTimingReq. unfold wpx. msimpl.
  repeat (first [case_bool_decide | case_match]; simpl in *; simplify_eq;
          try done).
  all: split;
    [unfold demand_tracked; simpl; thread_cases tid; simpl;
     first [done | congruence | intros ?; congruence]
    |simpl; intros t Ht; thread_cases t; simpl; done].
Qed.

Ltac wp_call_demand :=
  match goal with
  | |- context [match performCacheAccess ?v ?tid ?r false ?s with
                | Ok _ _ => _ | Abort _ => _ end] =>
      let H := fresh "Hcall" in
      destruct (performCacheAccess v tid r false s) as [? ?|] eqn:H;
      [apply (wp_run _ _ _ _ _ (performCacheAccess_demand_lands v tid r s))
         in H; simpl in H; destruct H as [? H] | done]
  end.

(** Closing a goal on threads from the summaries of the calls made. *)
Ltac close_threads :=
  unfold settles, same_demand in *; simpl in *;
  let t := fresh "thread" in
  intros t;
  repeat match goal with
    | H : ∀ x : ThreadID, _ |- _ => specialize (H t)
    end;
  repeat match goal with
    | H : ?P |- _ =>
        lazymatch type of P with Prop => revert H end
    end;
  thread_cases t; simpl; intros; simplify_eq;
  unfold demand_tracked in *; simpl in *;
  try done; destruct_or?; destruct_and?;
  first
    [ by left; split; congruence
    | right; intros ?;
      first [ congruence
            | by match goal with
                 | H : fetchStatus _ = _ |- _ => rewrite H
                 end
            | by auto ] ].

Lemma fetchCacheLine_settles v tid p ft : sat settles (fetchCacheLine v tid p ft).
Proof.
  intros s. unfold fetchCacheLine, checkInterrupt. unfold wpx. msimpl.
  destruct (switchedOut (world s)); simpl; [done|].
  destruct (cacheBlocked s); simpl; [done|].
  destruct (_ && _); simpl; [done|].
  match goal with
  | |- context [(if decoupledFrontEnd (cfg s) then ?a else ?b) s] =>
      assert (Hsel : sat same_demand
                       (if decoupledFrontEnd (cfg s) then a else b))
        by (destruct (decoupledFrontEnd (cfg s));
              [apply selectFetchTarget_same|apply sat_ret; tc_solve]);
      wp_call Hsel; clear Hsel
  end.
  destruct a as [i|]; simpl.
  - destruct (ft_state (fts (ftq s0) i)) eqn:Hst; simpl.
    all: try wp_call (processTrap_settles tid (ft_fault (fts (ftq s0) i))
                        (ft_req (fts (ftq s0) i))).
    all: try match goal with
         | |- context [makeRequest ?a ?b ?c ?d ?s1] =>
             wp_call (makeRequest_same a b c d)
         end.
    all: simpl.
    all: try match goal with
         | |- context [hasPaddr ?r] => destruct (hasPaddr r); simpl
         end.
    all: try wp_call_demand.
    all: try match goal with
         | |- context [startTranslation ?a ?b ?c ?s1] =>
             wp_call (startTranslation_settles a b c)
         end.
    all: simpl.
    all: try close_threads.
    all: unfold settles, same_demand in *; intros t;
      destruct (decide (t = tid)) as [->|Hne]; [by right|]; left;
      specialize (Hcall1 t Hne);
      rewrite ?fn_lookup_alter_ne in Hcall1 by done;
      specialize (Hcall t); try specialize (Hcall0 t);
      destruct_and?; simpl in *; split; congruence.
  - match goal with
    | |- context [startTranslation ?a ?b ?c ?s1] =>
        wp_call (startTranslation_settles a b c)
    end.
    simpl. close_threads.
Qed.
#[local] Hint Resolve fetchCacheLine_settles : sat.

(** ** Threads that hold a demand request wait for it *)

Lemma settles_all_tracked {A} (m : M A) s :
  sat settles m → all_tracked s →
  wp m (λ _ s', all_tracked s') s.
Proof.
  intros Hm Hs. eapply wpx_mono; [|apply Hm]. simpl.
  intros _ s' Hst t. destruct (Hst t) as [[Hst1 Hst2]|Ht]; [|done].
  unfold demand_tracked. rewrite Hst1, Hst2. apply Hs.
Qed.

Lemma pipelineIcacheAccesses_settles tid :
  sat settles (pipelineIcacheAccesses tid).
Proof. unfold pipelineIcacheAccesses. sat_auto solve_settles. Qed.

Lemma sendToDecode_same tid : sat same_demand (sendToDecode tid).
Proof. unfold sendToDecode. sat_auto solve_same. Qed.

Lemma environment_change_same q w : sat same_demand (environment_change q w).
Proof. unfold environment_change. sat_auto solve_same. Qed.

Lemma translationDone_settles k fault pa :
  sat settles (translationDone k fault pa).
Proof. unfold translationDone. sat_auto solve_settles. Qed.

Lemma cacheResponse_settles k depth data :
  sat settles (cacheResponse k depth data).
Proof. unfold cacheResponse. sat_auto solve_settles. Qed.

Lemma processTrapEvent_fire_settles : sat settles processTrapEvent_fire.
Proof. unfold processTrapEvent_fire. sat_auto solve_settles. Qed.

Lemma drainStall_same tid : sat same_demand (drainStall tid).
Proof. unfold drainStall. sat_auto solve_same. Qed.

Lemma drainResume_same : sat same_demand drainResume.
Proof. unfold drainResume. sat_auto solve_same. Qed.

Lemma deactivateThread_same tid : sat same_demand (deactivateThread tid).
Proof. unfold deactivateThread. sat_auto solve_same. Qed.

Lemma clearStates_settles tid : sat settles (clearStates tid).
Proof. intros s. unfold clearStates. unfold wpx. msimpl. solve_settles. Qed.

Lemma resetStage_settles : sat settles resetStage.
Proof.
  unfold resetStage.
  apply sat_bind; [tc_solve|sat_auto solve_settles|intros _].
  apply sat_bind; [tc_solve|sat_auto solve_settles|intros _].
  apply sat_bind; [tc_solve|sat_auto solve_settles|intros _].
  apply sat_bind; [tc_solve|sat_auto solve_settles|intros _].
  apply sat_bind; [tc_solve|sat_auto solve_settles|intros s0].
  apply sat_bind; [tc_solve| |intros _; sat_auto solve_settles].
  apply sat_for_each; [tc_solve|intros tid].
  intros s. unfold wpx. msimpl. solve_settles.
Qed.

Lemma startupStage_settles : sat settles startupStage.
Proof.
  pose proof resetStage_settles. unfold startupStage.
  sat_auto solve_settles.
Qed.

Lemma bring_up_settles : sat settles bring_up.
Proof.
  pose proof startupStage_settles.
  unfold bring_up, setBACandFTQPtr. sat_auto solve_settles.
Qed.

Lemma initial_all_tracked s : initial s → all_tracked s.
Proof.
  intros (p & w & q & pc0 & _ & _ & Hrun).
  assert (Hc : all_tracked (constructed p w q pc0)) by (by intros t Ht).
  exact (wp_run _ _ _ _ _
           (settles_all_tracked bring_up _ bring_up_settles Hc) Hrun).
Qed.
(** Closing [all_tracked] of an explicit final state from [all_tracked]
    of the start. *)
Ltac use_tracked :=
  intros;
  repeat match goal with
    | H : ?P → _, H' : ?P |- _ => specialize (H H')
    end;
  try match goal with
    | H : waiting ?x = true |- _ =>
        destruct x eqn:?; simpl in H; try done
    end;
  simpl in *; try done; try congruence.

Ltac solve_all_tracked :=
  lazymatch goal with
  | Hs : all_tracked ?s |- all_tracked _ =>
      let t := fresh "thread" in
      intros t; specialize (Hs t); revert Hs;
      unfold demand_tracked; simpl; thread_cases t; simpl; simplify_eq;
      try done; use_tracked
  end.

Lemma doSquash_tracked new_pc si tid s :
  all_tracked s → fetchStatus (thr s tid) ≠ IcacheWaitRetry →
  wp (doSquash new_pc si tid) (λ _ s', all_tracked s') s.
Proof.
  intros Hs Hst. unfold doSquash. unfold wpx. msimpl.
  repeat (first [case_bool_decide | case_match]; simpl in *; simplify_eq;
          try done).
  all: solve_all_tracked.
Qed.

Lemma same_demand_all_tracked s s' :
  same_demand s s' → all_tracked s → all_tracked s'.
Proof.
  intros Hsame Hs t. destruct (Hsame t) as [H1 H2].
  unfold demand_tracked. rewrite H1, H2. apply Hs.
Qed.

(** Running a step that leaves status and request of every thread. *)
Ltac wp_same :=
  lazymatch goal with
  | |- wpx _ (?m ≫= _) _ ?s =>
      let H := fresh "Hsame" in
      assert (H : sat same_demand m) by (sat_auto solve_same);
      apply wpx_bind; eapply wpx_mono; [|apply (H s)]; clear H; simpl;
      intros ? ? H
  end.

Lemma checkSignalsAndUpdate_tracked sig tid s :
  all_tracked s →
  (commitInfo_squash sig || decodeInfo_squash sig = true →
   fetchStatus (thr s tid) ≠ IcacheWaitRetry) →
  wp (checkSignalsAndUpdate sig tid) (λ _ s', all_tracked s') s.
Proof.
  intros Hs Hst. unfold checkSignalsAndUpdate.
  wp_same. wp_same.
  assert (Hs' : all_tracked s'0)
    by (eapply same_demand_all_tracked; [|eapply same_demand_all_tracked];
        eassumption).
  assert (Hst' : fetchStatus (thr s'0 tid) = fetchStatus (thr s tid))
    by (destruct (Hsame tid), (Hsame0 tid); congruence).
  clear Hsame Hsame0 Hs. rewrite <-Hst' in Hst. clear Hst'.
  apply wpx_bind, wpx_get.
  destruct (commitInfo_squash sig); simpl in *.
  { apply wpx_bind. unfold squash. apply wpx_bind.
    eapply wpx_mono; [|apply doSquash_tracked; auto].
    simpl. intros _ s1 Hs1. unfold wpx. msimpl. solve_all_tracked. }
  assert (Htail : ∀ s1 (stalled : bool) (x y sq : bool),
    sq = bool_decide (fetchStatus (thr s'0 tid) = Squashing) →
    same_demand s'0 s1 →
    wp (if stalled
           && negb (bool_decide (fetchStatus (thr s'0 tid)
                                 = IcacheWaitResponse))
           && negb (bool_decide (fetchStatus (thr s'0 tid) = IcacheWaitRetry))
           && negb (bool_decide (fetchStatus (thr s'0 tid) = ItlbWait))
           && negb (bool_decide (fetchStatus (thr s'0 tid) = FTQEmpty))
           && negb (bool_decide (fetchStatus (thr s'0 tid) = QuiescePending))
        then upd_thread tid (set_fetchStatus Blocked);; mret true
        else if bool_decide (fetchStatus (thr s'0 tid) = Blocked) || sq
        then (if x then upd_thread tid (set_fetchStatus FTQEmpty)
              else upd_thread tid (set_fetchStatus Running));; mret true
        else if bool_decide (fetchStatus (thr s'0 tid) = FTQEmpty) && y
        then upd_thread tid (set_fetchStatus Running);; mret true
        else mret false)
       (λ _ s2, all_tracked s2) s1).
  { intros s1 stalled x y sq -> Hsame.
    assert (Hs1 : all_tracked s1)
      by (eapply same_demand_all_tracked; eassumption).
    destruct (Hsame tid) as [Hst1 _]. rewrite <-Hst1. clear Hsame Hst1 Hst.
    pose proof (Hs1 tid) as Htid. unfold demand_tracked in Htid.
    destruct stalled, x, y, (fetchStatus (thr s1 tid)) eqn:Est; simpl.
    all: unfold wpx; msimpl; try done.
    all: solve_all_tracked. }
  destruct (decodeInfo_squash sig); simpl in *.
  - destruct (bool_decide (fetchStatus (thr s'0 tid) = Squashing)) eqn:Hsq;
      simpl.
    + wp_same. eapply Htail; [reflexivity|done].
    + apply wpx_bind. unfold squashFromDecode. apply wpx_bind.
      eapply wpx_mono; [|apply doSquash_tracked; auto].
      simpl. intros _ s1 Hs1. unfold wpx. msimpl. solve_all_tracked.
  - wp_same. eapply Htail; [reflexivity|done].
Qed.

(** The thread the policy picks is one that can fetch. *)
Lemma roundRobin_loop_picks rest before s :
  wp (roundRobin_loop before rest)
     (λ tid s', thr s' = thr s
                ∧ (tid = InvalidThreadID
                   ∨ fetchable (fetchStatus (thr s tid)) = true)) s.
Proof.
  revert before. induction rest as [|x rest IH]; intros before.
  - unfold wpx. simpl. auto.
  - unfold wpx. simpl. unfold_m. simpl.
    case_bool_decide; simpl; [|done].
    destruct (fetchable (fetchStatus (thr s x))) eqn:Hx; simpl; [auto|].
    apply IH.
Qed.

Lemma getFetchingThread_picks s :
  wp getFetchingThread
     (λ tid s', thr s' = thr s
                ∧ (tid = InvalidThreadID
                   ∨ fetchable (fetchStatus (thr s tid)) = true)) s.
Proof.
  unfold getFetchingThread.
  apply wpx_bind, wpx_get. case_bool_decide.
  - apply wpx_bind, wpx_assert. destruct (negb _); [|done].
    destruct (fetchPolicy (cfg s)).
    + apply wpx_bind, wpx_get. apply roundRobin_loop_picks.
    + unfold iqCount, countPolicy, wpx. msimpl.
      destruct (find _ _) as [c|] eqn:Hfind; simpl; [|auto].
      split; [done|right]. by apply find_some in Hfind as [_ ?].
    + unfold lsqCount, countPolicy, wpx. msimpl.
      destruct (find _ _) as [c|] eqn:Hfind; simpl; [|auto].
      split; [done|right]. by apply find_some in Hfind as [_ ?].
    + done.
  - unfold wpx. destruct (activeThreads (world s)); simpl; [auto|].
    destruct (fetchable _) eqn:Hf; simpl; auto.
Qed.

Lemma same_demand_tracked_without tid s s' :
  same_demand s s' → tracked_without tid s → tracked_without tid s'.
Proof.
  intros Hsame [Hs Hreq]. split; [by eapply same_demand_all_tracked|].
  destruct (Hsame tid) as [_ ->]. done.
Qed.

Ltac solve_without :=
  lazymatch goal with
  | Hs : tracked_without ?tid ?s |- tracked_without _ _ =>
      let Hreq := fresh "Hreq" in
      destruct Hs as [Hs Hreq]; split;
      [solve_all_tracked
      |simpl; thread_cases tid; simpl; simplify_eq; done]
  end.

Lemma ftqReady_without tid sc s :
  tracked_without tid s →
  wp (ftqReady tid sc) (λ _ s', tracked_without tid s') s.
Proof.
  intros Hs. unfold ftqReady, wpx. msimpl.
  destruct (negb (decoupledFrontEnd (cfg s))); simpl; [done|].
  destruct (negb (ftq_isHeadReady (ftq s) tid)); simpl; [|done].
  solve_without.
Qed.

Lemma decodeWrites_without o tid sc s :
  tracked_without tid s →
  wp (decodeWrites o tid sc) (λ _ s', tracked_without tid s') s.
Proof.
  intros Hs. unfold decodeWrites, wpx. msimpl.
  destruct (dl_quiesce o); simpl; case_bool_decide; simpl.
  all: solve_without.
Qed.

(** Running a step that keeps [tracked_without]. *)
Ltac wp_without lem :=
  apply wpx_bind; eapply wpx_mono; [|apply lem; eassumption]; simpl;
  intros ? ? ?.

Lemma fetch_tracked o sc s :
  all_tracked s →
  wp (fetch (decodeWrites o) sc) (λ _ s', all_tracked s') s.
Proof.
  intros Hs. unfold fetch.
  apply wpx_bind. eapply wpx_mono; [|apply getFetchingThread_picks].
  simpl. intros tid s1 [Hthr Hpick].
  assert (Hs1 : all_tracked s1)
    by (intros t; rewrite Hthr; apply Hs).
  rewrite <-Hthr in Hpick. clear Hthr Hs s.
  apply wpx_bind, wpx_get. apply wpx_bind, wpx_assert.
  destruct (negb (switchedOut (world s1))); [|done].
  case_bool_decide as Htid.
  { wp_same. wp_same. apply wpx_ret.
    eapply same_demand_all_tracked; [eassumption|].
    eapply same_demand_all_tracked; eassumption. }
  destruct Hpick as [|Hpick]; [done|].
  assert (Hw : tracked_without tid s1).
  { split; [done|]. specialize (Hs1 tid). unfold demand_tracked in Hs1.
    destruct (memReq (thr s1 tid)); [|done].
    destruct (fetchStatus (thr s1 tid)); by specialize (Hs1 ltac:(done)). }
  clear Hs1 Hpick.
  wp_without ftqReady_without. destruct a as [ready sc1].
  clear Hw s1. rename s' into s1.
  destruct (negb ready); simpl.
  { wp_same. apply wpx_ret.
    by eapply (same_demand_tracked_without tid). }
  apply wpx_bind, wpx_get. apply wpx_bind.
  apply wpx_mono with (Q := λ _ s', tracked_without tid s').
  2: { destruct (decoupledFrontEnd (cfg s1)); [|by apply wpx_ret].
       wp_without ftqReady_without. destruct a as [ready' ?].
       apply wpx_bind, wpx_assert. destruct ready'; [|done].
       destruct (ftq_readHead (ftq s1) tid); [|done].
       destruct (negb _); [|by apply wpx_ret].
       wp_same. wp_same. apply wpx_ret.
       eapply same_demand_tracked_without; [eassumption|].
       eapply same_demand_tracked_without; eassumption. }
  simpl. intros resteer s2 Hs2.
  destruct resteer; [apply wpx_ret, Hs2|].
  case_bool_decide as Hcomplete.
  { apply wpx_bind, wpx_modify.
    eapply wpx_mono; [|apply decodeWrites_without].
    - by intros ?? [? _].
    - solve_without. }
  case_bool_decide as Hrunning.
  2: { wp_same. apply wpx_ret.
       by eapply (same_demand_all_tracked s2); [|apply Hs2]. }
  apply wpx_bind.
  apply wpx_mono with (Q := λ _ s', tracked_without tid s').
  2: { destruct (fetchBufferValid (thr s1 tid)); [|by apply wpx_ret].
       wp_without ftqReady_without. destruct a as [? ?]. by apply wpx_ret. }
  simpl. intros [buffered sc2] s3 Hs3.
  destruct (_ && _); simpl.
  - apply wpx_bind.
    eapply wpx_mono;
      [|apply settles_all_tracked; [apply fetchCacheLine_settles|apply Hs3]].
    simpl. intros _ s4 Hs4. apply wpx_bind, wpx_get.
    wp_same. apply wpx_ret. by eapply same_demand_all_tracked.
  - wp_same. apply wpx_bind, wpx_get.
    assert (Hs4 : tracked_without tid s')
      by (by eapply same_demand_tracked_without).
    destruct (_ && _); simpl.
    + wp_same. apply wpx_ret.
      eapply same_demand_all_tracked; [eassumption|apply Hs4].
    + eapply wpx_mono; [|by apply decodeWrites_without].
      by intros ?? [? _].
Qed.

Lemma wakeFromQuiesce_tracked s :
  all_tracked s → memReq (thr s 0) = None →
  wp wakeFromQuiesce (λ _ s', all_tracked s') s.
Proof.
  intros Hs Hreq. unfold wakeFromQuiesce, upd_thread, modify, wpx.
  intros t. unfold demand_tracked.
  destruct (decide (t = 0)) as [->|Hne].
  - cbn [thr set_thr]. rewrite fn_lookup_alter. by rewrite <-Hreq.
  - cbn [thr set_thr]. rewrite fn_lookup_alter_ne by done. apply Hs.
Qed.

Lemma step_tracked e s :
  all_tracked s → benign e s → wp (step e) (λ _ s', all_tracked s') s.
Proof.
  intros Hs He. destruct e; cbn [step benign] in *.
  - apply wpx_bind.
    eapply wpx_mono; [|by apply checkSignalsAndUpdate_tracked]. done.
  - apply settles_all_tracked; [sat_auto solve_settles|done].
  - apply wpx_bind. eapply wpx_mono; [|by apply fetch_tracked]. done.
  - apply settles_all_tracked; [sat_auto solve_settles|done].
  - by apply settles_all_tracked; [apply pipelineIcacheAccesses_settles|].
  - by apply settles_all_tracked; [apply processFTQ_settles|].
  - by apply settles_all_tracked;
      [apply sat_same_settles, sendToDecode_same|].
  - apply settles_all_tracked; [sat_auto solve_settles|done].
  - by apply settles_all_tracked; [apply translationDone_settles|].
  - by apply settles_all_tracked; [apply cacheResponse_settles|].
  - by apply settles_all_tracked; [apply recvReqRetry_settles|].
  - by apply settles_all_tracked; [apply processTrapEvent_fire_settles|].
  - by apply settles_all_tracked;
      [apply sat_same_settles, drainStall_same|].
  - by apply settles_all_tracked;
      [apply sat_same_settles, drainResume_same|].
  - by apply wakeFromQuiesce_tracked.
  - by apply settles_all_tracked; [apply clearStates_settles|].
  - by apply settles_all_tracked;
      [apply sat_same_settles, deactivateThread_same|].
  - by apply settles_all_tracked; [apply resetStage_settles|].
  - by apply settles_all_tracked;
      [apply sat_same_settles, environment_change_same|].
Qed.

Lemma reachable_benign_all_tracked s : reachable_benign s → all_tracked s.
Proof.
  induction 1 as [s Hi|s e s' _ IH He Hstep].
  - by apply initial_all_tracked.
  - exact (wp_run _ _ _ _ _ (step_tracked e s IH He) Hstep).
Qed.

Lemma exec_run_events_one e s :
  exec (run_events [e]) s = exec (step e) s.
Proof. unfold exec. simpl. by destruct (step e s). Qed.

(** C2 (counterexample): thread 0 waits for an I-cache retry when commit
    squashes it; the state reached holds the demand request in [memReq]
    with the thread in Squashing, which is none of the three waiting
    states. *)
Lemma squash_in_retry_leaves_untracked_request :
  reachable cx_squashed_state
  ∧ memReq (thr cx_squashed_state 0) = Some (ex_request 0 4096 None)
  ∧ fetchStatus (thr cx_squashed_state 0) = Squashing
  ∧ ¬ all_tracked cx_squashed_state.
Proof.
  assert (Hreq : memReq (thr cx_squashed_state 0)
                 = Some (ex_request 0 4096 None))
    by (vm_compute; reflexivity).
  assert (Hst : fetchStatus (thr cx_squashed_state 0) = Squashing)
    by (vm_compute; reflexivity).
  split; [|split; [done|split; [done|]]].
  - apply (run_events_reachable cx_squashed_events cx_retry_start).
    + apply reachable_initial. unfold cx_retry_start.
      apply ex_start_initial; [reflexivity|reflexivity|].
      vm_compute. reflexivity.
    + apply returns_exec_unit. vm_compute. reflexivity.
  - intros Hall. specialize (Hall 0). unfold demand_tracked in Hall.
    rewrite Hreq, Hst in Hall. by specialize (Hall ltac:(done)).
Qed.

(** C2 (amended): at every state reached by events among which no squash
    signal arrives for a thread that waits for an I-cache retry, and among
    which the CPU wakes thread 0 from quiesce only while it holds no
    request, a thread whose [memReq] is non-null is in ItlbWait,
    IcacheWaitResponse or IcacheWaitRetry. *)
Theorem demand_request_is_waited_for s tid :
  reachable_benign s →
  memReq (thr s tid) ≠ None →
  fetchStatus (thr s tid) = ItlbWait
  ∨ fetchStatus (thr s tid) = IcacheWaitResponse
  ∨ fetchStatus (thr s tid) = IcacheWaitRetry.
Proof.
  intros Hs Hreq. apply reachable_benign_all_tracked in Hs.
  specialize (Hs tid Hreq).
  destruct (fetchStatus (thr s tid)); simpl in Hs; auto; done.
Qed.

Lemma demand_request_is_waited_for_witness :
  reachable_benign cx_retry_state
  ∧ memReq (thr cx_retry_state 0) ≠ None
  ∧ (fetchStatus (thr cx_retry_state 0) = ItlbWait
     ∨ fetchStatus (thr cx_retry_state 0) = IcacheWaitResponse
     ∨ fetchStatus (thr cx_retry_state 0) = IcacheWaitRetry).
Proof.
  assert (Hs : reachable_benign cx_retry_state).
  { apply (reachable_benign_step cx_retry_start
             (EvFetch false (ex_no_decode (ex_ftq [])))).
    - apply reachable_benign_initial. unfold cx_retry_start.
      apply ex_start_initial; [reflexivity|reflexivity|].
      vm_compute. reflexivity.
    - exact I.
    - unfold cx_retry_state, cx_retry_events.
      rewrite exec_run_events_one.
      apply returns_exec_unit. vm_compute. reflexivity. }
  assert (Hreq : memReq (thr cx_retry_state 0) ≠ None)
    by (vm_compute; discriminate).
  split; [exact Hs|]. split; [exact Hreq|].
  exact (demand_request_is_waited_for cx_retry_state 0 Hs Hreq).
Defined.

(** ** The limits on prefetches and prefetch translations *)

Ltac solve_prefetches :=
  unfold keeps_prefetches; simpl;
  rewrite ?fn_lookup_insert_ne by done; done.

Lemma sendTimingReq_prefetches pkt : sat keeps_prefetches (sendTimingReq pkt).
Proof. intros s. unfold wpx, sendTimingReq. solve_prefetches. Qed.
Lemma getAndIncrementInstSeq_prefetches :
  sat keeps_prefetches getAndIncrementInstSeq.
Proof. intros s. unfold wpx, getAndIncrementInstSeq. solve_prefetches. Qed.
Lemma newRequest_prefetches v t p : sat keeps_prefetches (newRequest v t p).
Proof. intros s. unfold wpx, newRequest. solve_prefetches. Qed.
#[local] Hint Resolve sendTimingReq_prefetches
  getAndIncrementInstSeq_prefetches newRequest_prefetches : sat.

Lemma switchToActive_prefetches : sat keeps_prefetches switchToActive.
Proof. unfold switchToActive. sat_auto solve_prefetches. Qed.
Lemma updateFetchStatus_prefetches : sat keeps_prefetches updateFetchStatus.
Proof. unfold updateFetchStatus. sat_auto solve_prefetches. Qed.
Lemma buildInst_prefetches t si m p n :
  sat keeps_prefetches (buildInst t si m p n).
Proof. unfold buildInst. sat_auto solve_prefetches. Qed.
#[local] Hint Resolve switchToActive_prefetches updateFetchStatus_prefetches
  buildInst_prefetches : sat.
Lemma processTrap_prefetches t f r : sat keeps_prefetches (processTrap t f r).
Proof. unfold processTrap. sat_auto solve_prefetches. Qed.
Lemma performCacheAccess_prefetches v t r p :
  sat keeps_prefetches (performCacheAccess v t r p).
Proof. unfold performCacheAccess. sat_auto solve_prefetches. Qed.
#[local] Hint Resolve processTrap_prefetches performCacheAccess_prefetches
  : sat.
Lemma finishTranslation_prefetches fault r ft :
  sat keeps_prefetches (finishTranslation fault r ft).
Proof. unfold finishTranslation. sat_auto solve_prefetches. Qed.
#[local] Hint Resolve finishTranslation_prefetches : sat.
Lemma translateTiming_prefetches r t ft :
  sat keeps_prefetches (translateTiming r t ft).
Proof. unfold translateTiming. sat_auto solve_prefetches. Qed.
#[local] Hint Resolve translateTiming_prefetches : sat.
Lemma startTranslation_prefetches r t ft :
  sat keeps_prefetches (startTranslation r t ft).
Proof. unfold startTranslation. sat_auto solve_prefetches. Qed.
Lemma makeRequest_prefetches v t p ft :
  sat keeps_prefetches (makeRequest v t p ft).
Proof. unfold makeRequest. sat_auto solve_prefetches. Qed.
#[local] Hint Resolve startTranslation_prefetches makeRequest_prefetches : sat.

Ltac solve_no_translation :=
  unfold no_translation; simpl;
  first [ by exists []; rewrite app_nil_r
        | by eexists [_]; split; [reflexivity|repeat constructor] ].

Lemma sendTimingReq_no_translation pkt :
  sat no_translation (sendTimingReq pkt).
Proof.
  intros s. unfold wpx, sendTimingReq. simpl.
  destruct (portAccepts _ _); simpl; solve_no_translation.
Qed.
#[local] Hint Resolve sendTimingReq_no_translation : sat.
Lemma performCacheAccess_no_translation v t r p :
  sat no_translation (performCacheAccess v t r p).
Proof. unfold performCacheAccess. sat_auto solve_no_translation. Qed.
#[local] Hint Resolve performCacheAccess_no_translation : sat.

Lemma no_translation_new_effects s s' e :
  no_translation s s' → e ∈ new_effects s s' → is_translate e = false.
Proof.
  intros (l & Hl & Hall) He. unfold new_effects in He.
  rewrite Hl, drop_app_length in He.
  by eapply Forall_forall in Hall.
Qed.

Lemma wp_const {A} (m : M A) (P : Prop) s : P → wp m (λ _ _, P) s.
Proof. intros HP. unfold wpx. by destruct (m s). Qed.

(** A pass of [processFTQ] that counts an issued prefetch found the
    counter below its limit and raised it by one. *)
Lemma processFTQ_prefetch_below tid s :
  wp (processFTQ tid)
     (λ _ s', fetchStats s' pfIssued ≠ fetchStats s pfIssued →
              outstandingPrefetches s < maxOutstandingPrefetches (cfg s)
              ∧ outstandingPrefetches s' = outstandingPrefetches s + 1) s.
Proof.
  unfold processFTQ. apply wpx_bind, wpx_get.
  case_bool_decide; [by apply wpx_ret|].
  destruct (negb _); [by apply wpx_ret|].
  lazymatch goal with
  | |- wpx _ (?m ≫= _) _ _ =>
      assert (Hm : sat keeps_prefetches m) by (sat_auto solve_prefetches)
  end.
  apply wpx_bind. eapply wpx_mono; [|apply Hm]. clear Hm. simpl.
  intros _ s1 (Hpf & Hissued & Hcfg).
  apply wpx_bind, wpx_get.
  destruct (_ || _); [by apply wpx_ret|].
  case_bool_decide as Hlimit.
  { unfold stat_inc, stat_add. apply wpx_modify. simpl.
    rewrite fn_lookup_insert_ne by done. congruence. }
  destruct (ftq_findAfterHead _ _ _) as [i|]; [|by apply wpx_ret].
  destruct (ft_req _) as [req|]; [|done].
  case_bool_decide.
  { unfold upd_ft. by apply wpx_modify. }
  apply wpx_bind.
  eapply wpx_mono; [|apply performCacheAccess_prefetches]. simpl.
  intros issued s2 (Hpf2 & Hissued2 & Hcfg2).
  destruct issued; simpl; [|apply wpx_ret; congruence].
  unfold wpx. msimpl. intros _. rewrite Hpf2, <-Hpf, <-Hcfg. lia.
Qed.

(** A pass of [processFTQ] that starts a translation found the counter
    below its limit. *)
Lemma processFTQ_translation_below tid s :
  wp (processFTQ tid)
     (λ _ s', (∃ e, e ∈ new_effects s s' ∧ is_translate e = true) →
              outstandingTranslations s
              < maxOutstandingTranslations (cfg s)) s.
Proof.
  destruct (decide (outstandingTranslations s
                    < maxOutstandingTranslations (cfg s))) as [Hlt|Hge].
  { apply wpx_mono
      with (Q := λ _ _, outstandingTranslations s
                        < maxOutstandingTranslations (cfg s));
      [by intros|by apply wp_const]. }
  assert (Hwp : wp (processFTQ tid) (λ _ s', no_translation s s') s).
  { unfold processFTQ. apply wpx_bind, wpx_get.
    rewrite (bool_decide_eq_false_2 _ Hge).
    lazymatch goal with
    | |- wpx _ ?m _ _ =>
        assert (Hm : sat no_translation m)
          by (sat_auto solve_no_translation)
    end.
    apply Hm. }
  eapply wpx_mono; [|apply Hwp]. simpl.
  intros _ s' Hno (e & He & Htr).
  by rewrite (no_translation_new_effects s s' e Hno He) in Htr.
Qed.




(** * Further properties of the stage *)

(** * Thread selection *)

(** X1: [getFetchingThread] returns [InvalidThreadID] or a thread whose
    status is Running, IcacheAccessComplete or Idle, under every policy,
    and leaves the state of every thread as it was. *)
Theorem getFetchingThread_returns_fetchable s tid s' :
  getFetchingThread s = Ok tid s' →
  thr s' = thr s
  ∧ (tid = InvalidThreadID
     ∨ fetchStatus (thr s tid) = Running
     ∨ fetchStatus (thr s tid) = IcacheAccessComplete
     ∨ fetchStatus (thr s tid) = Idle).
Proof.
  intros Hrun.
  destruct (wp_run _ _ _ _ _ (getFetchingThread_picks s) Hrun) as [Hthr Hf].
  split; [done|]. destruct Hf as [?|Hf]; [by left|right].
  destruct (fetchStatus (thr s tid)); simpl in Hf; auto; done.
Qed.

Lemma getFetchingThread_returns_fetchable_witness :
  ∃ tid s',
    getFetchingThread cx_rr_state = Ok tid s'
    ∧ thr s' = thr cx_rr_state
    ∧ (tid = InvalidThreadID
       ∨ fetchStatus (thr cx_rr_state tid) = Running
       ∨ fetchStatus (thr cx_rr_state tid) = IcacheAccessComplete
       ∨ fetchStatus (thr cx_rr_state tid) = Idle).
Proof.
  assert (Hr : returns getFetchingThread cx_rr_state = true)
    by (vm_compute; reflexivity).
  destruct (returns_exec getFetchingThread cx_rr_state Hr) as [tid Hrun].
  exists tid, (exec getFetchingThread cx_rr_state).
  split; [exact Hrun|].
  exact (getFetchingThread_returns_fetchable _ _ _ Hrun).
Defined.

(** ** The count policies *)

Lemma pq_push_elem c pq x : x ∈ pq_push c pq ↔ x = c ∨ x ∈ pq.
Proof.
  induction pq as [|y pq IH]; simpl.
  - rewrite list_elem_of_singleton. split; [by left|].
    by intros [?|?%elem_of_nil].
  - case_bool_decide.
    + by rewrite elem_of_cons.
    + rewrite !elem_of_cons, IH. tauto.
Qed.

Lemma pq_push_ascending c pq : ascending pq → ascending (pq_push c pq).
Proof.
  induction pq as [|y pq IH]; simpl; [done|]. intros [Hy Hpq].
  case_bool_decide as Hc; simpl.
  - split; [|done]. constructor; [done|].
    eapply Forall_impl; [exact Hy|]. simpl. intros; lia.
  - split; [|by apply IH]. apply Forall_forall. intros x Hx.
    apply pq_push_elem in Hx as [->|Hx]; [lia|].
    by eapply Forall_forall in Hy.
Qed.

Lemma count_queue (count : ThreadID → Z) (l : list ThreadID) :
  ascending (foldl (λ pq tid, pq_push (count tid) pq) [] l)
  ∧ ∀ c : Z, c ∈ foldl (λ pq tid, pq_push (count tid) pq) [] l
             ↔ ∃ t, t ∈ l ∧ count t = c.
Proof.
  induction l as [|t l [IH1 IH2]] using rev_ind.
  - simpl. split; [done|]. intros c. split; [by intros ?%elem_of_nil|].
    by intros (? & ?%elem_of_nil & _).
  - rewrite foldl_app. simpl. split; [by apply pq_push_ascending|].
    intros c. rewrite pq_push_elem, IH2. split.
    + intros [->|(x & Hx & <-)]; [exists t|exists x];
        (split; [|done]); apply elem_of_app; [right|by left].
      by apply list_elem_of_singleton.
    + intros (x & Hx & <-). apply elem_of_app in Hx as [Hx|Hx]; [eauto|].
      apply list_elem_of_singleton in Hx as ->. by left.
Qed.

Lemma find_ascending (f : Z → bool) pq c :
  ascending pq → find f pq = Some c →
  c ∈ pq ∧ f c = true ∧ ∀ c', c' ∈ pq → c' < c → f c' = false.
Proof.
  induction pq as [|x pq IH]; simpl; [done|]. intros [Hx Hpq].
  destruct (f x) eqn:Hfx.
  - intros [= <-]. split; [by left|]. split; [done|].
    intros c' Hc' Hlt. apply elem_of_cons in Hc' as [->|Hc']; [lia|].
    eapply Forall_forall in Hx; [|done]. lia.
  - intros Hfind. destruct (IH Hpq Hfind) as (Hin & Hfc & Hlow).
    split; [by right|]. split; [done|].
    intros c' Hc' Hlt. apply elem_of_cons in Hc' as [->|Hc']; auto.
Qed.

Lemma count_map (count : ThreadID → Z) (m0 : Z → Z)
    (l : list ThreadID) (c : Z) :
  (∃ l1 t l2, l = l1 ++ t :: l2 ∧ count t = c
              ∧ Forall (λ x, count x ≠ c) l2
              ∧ foldl (λ (m : Z → Z) tid, <[count tid := tid]> m) m0 l c = t)
  ∨ (Forall (λ x, count x ≠ c) l
     ∧ foldl (λ (m : Z → Z) tid, <[count tid := tid]> m) m0 l c = m0 c).
Proof.
  induction l as [|t l IH] using rev_ind.
  - right. by split.
  - rewrite foldl_app. simpl. destruct (decide (count t = c)) as [Heq|Hne].
    + left. exists l, t, []. rewrite <-Heq, fn_lookup_insert. by repeat split.
    + rewrite fn_lookup_insert_ne by done.
      destruct IH as [(l1 & x & l2 & -> & Hx & Hl2 & Hm)|[Hl Hm]].
      * left. exists l1, x, (l2 ++ [t]). rewrite <-app_assoc. simpl.
        repeat split; try done. apply Forall_app. split; [done|].
        by constructor.
      * right. split; [|done]. apply Forall_app. split; [done|].
        by constructor.
Qed.

Lemma countPolicy_picks count s :
  wp (countPolicy count) (λ t s', s' = s ∧ count_pick count s t) s.
Proof.
  unfold countPolicy, wpx. unfold_m. simpl.
  destruct (count_queue count (activeThreads (world s))) as [Hasc Helem].
  destruct (find _ _) as [c|] eqn:Hfind; simpl; [|by split; [|left]].
  split; [done|right].
  destruct (find_ascending _ _ _ Hasc Hfind) as (Hin & Hf & Hlow).
  apply Helem in Hin as (t0 & Ht0 & Hc).
  destruct (count_map count (λ _, 0) (activeThreads (world s)) c)
    as [(l1 & t & l2 & Hl & Ht & Hl2 & Hm)|[Hl _]].
  2: { eapply Forall_forall in Hl; [|exact Ht0]. done. }
  rewrite Hm in *. split; [|split; [done|]].
  - exists l1, l2. split; [done|]. by rewrite Ht.
  - intros x Hx Hlt. rewrite Ht in Hlt.
    assert (Hqx : count x ∈ foldl (λ pq tid, pq_push (count tid) pq) []
                    (activeThreads (world s)))
      by (apply Helem; eauto).
    specialize (Hlow _ Hqx Hlt).
    destruct (count_map count (λ _, 0) (activeThreads (world s)) (count x))
      as [(k1 & y & k2 & Hk & Hy & _ & Hmy)|[Hk _]].
    + exists y. rewrite Hmy in Hlow. split; [|done].
      rewrite Hk. apply elem_of_app. right. by left.
    + eapply Forall_forall in Hk; [|exact Hx]. done.
Qed.

(** X2: [iqCount] and [lsqCount] change nothing and pick no thread or a
    fetchable active thread; the thread is the last one in the list of
    active threads with its count (an earlier thread with the same count
    is never picked), and every lower count belongs to a thread that is
    not fetchable. *)
Theorem count_policies_pick s t s' :
  (iqCount s = Ok t s' → s' = s ∧ count_pick (iqCount_of (world s)) s t)
  ∧ (lsqCount s = Ok t s' →
     s' = s ∧ count_pick (ldstqCount_of (world s)) s t).
Proof.
  split; intros Hrun.
  - exact (wp_run _ _ _ _ _ (countPolicy_picks (iqCount_of (world s)) s) Hrun).
  - exact (wp_run _ _ _ _ _
             (countPolicy_picks (ldstqCount_of (world s)) s) Hrun).
Qed.

(** ** The priority list *)

#[local] Instance priority_kept_preorder : PreOrder priority_kept.
Proof.
  split; [done|]. intros s1 s2 s3 [H1 C1] [H2 C2]. split.
  - by etrans.
  - congruence.
Qed.

Ltac solve_priority := unfold priority_kept; simpl; done.

Lemma sendTimingReq_priority pkt : sat priority_kept (sendTimingReq pkt).
Proof. intros s. unfold wpx, sendTimingReq. solve_priority. Qed.
Lemma getAndIncrementInstSeq_priority :
  sat priority_kept getAndIncrementInstSeq.
Proof. intros s. unfold wpx, getAndIncrementInstSeq. solve_priority. Qed.
Lemma newRequest_priority v t p : sat priority_kept (newRequest v t p).
Proof. intros s. unfold wpx, newRequest. solve_priority. Qed.
#[local] Hint Resolve sendTimingReq_priority getAndIncrementInstSeq_priority
  newRequest_priority : sat.

Lemma checkInterrupt_priority a : sat priority_kept (checkInterrupt a).
Proof. unfold checkInterrupt. sat_auto solve_priority. Qed.
Lemma checkStall_priority t : sat priority_kept (checkStall t).
Proof. unfold checkStall. sat_auto solve_priority. Qed.
Lemma switchToActive_priority : sat priority_kept switchToActive.
Proof. unfold switchToActive. sat_auto solve_priority. Qed.
Lemma updateFetchStatus_priority : sat priority_kept updateFetchStatus.
Proof. unfold updateFetchStatus. sat_auto solve_priority. Qed.
#[local] Hint Resolve checkInterrupt_priority checkStall_priority
  switchToActive_priority updateFetchStatus_priority : sat.

Lemma buildInst_priority t si m p n : sat priority_kept (buildInst t si m p n).
Proof. unfold buildInst. sat_auto solve_priority. Qed.
#[local] Hint Resolve buildInst_priority : sat.
Lemma processTrap_priority t f r : sat priority_kept (processTrap t f r).
Proof. unfold processTrap. sat_auto solve_priority. Qed.
Lemma performCacheAccess_priority v t r p :
  sat priority_kept (performCacheAccess v t r p).
Proof. unfold performCacheAccess. sat_auto solve_priority. Qed.
#[local] Hint Resolve processTrap_priority performCacheAccess_priority : sat.
Lemma finishTranslation_priority fault r ft :
  sat priority_kept (finishTranslation fault r ft).
Proof. unfold finishTranslation. sat_auto solve_priority. Qed.
#[local] Hint Resolve finishTranslation_priority : sat.
Lemma translateTiming_priority r t ft :
  sat priority_kept (translateTiming r t ft).
Proof. unfold translateTiming. sat_auto solve_priority. Qed.
#[local] Hint Resolve translateTiming_priority : sat.
Lemma startTranslation_priority r t ft :
  sat priority_kept (startTranslation r t ft).
Proof. unfold startTranslation. sat_auto solve_priority. Qed.
Lemma makeRequest_priority v t p ft : sat priority_kept (makeRequest v t p ft).
Proof. unfold makeRequest. sat_auto solve_priority. Qed.
Lemma selectFetchTarget_priority v t :
  sat priority_kept (selectFetchTarget v t).
Proof. unfold selectFetchTarget. sat_auto solve_priority. Qed.
#[local] Hint Resolve startTranslation_priority makeRequest_priority
  selectFetchTarget_priority : sat.
Lemma fetchCacheLine_priority v t p ft :
  sat priority_kept (fetchCacheLine v t p ft).
Proof. unfold fetchCacheLine. sat_auto solve_priority. Qed.
Lemma processFTQ_priority t : sat priority_kept (processFTQ t).
Proof. unfold processFTQ. sat_auto solve_priority. Qed.
Lemma trySatisfyPrefetch_priority t p :
  sat priority_kept (trySatisfyPrefetch t p).
Proof. unfold trySatisfyPrefetch. sat_auto solve_priority. Qed.
#[local] Hint Resolve fetchCacheLine_priority processFTQ_priority
  trySatisfyPrefetch_priority : sat.
Lemma processCacheCompletion_priority p :
  sat priority_kept (processCacheCompletion p).
Proof. unfold processCacheCompletion. sat_auto solve_priority. Qed.
Lemma doSquash_priority p i t : sat priority_kept (doSquash p i t).
Proof. unfold doSquash. sat_auto solve_priority. Qed.
#[local] Hint Resolve processCacheCompletion_priority doSquash_priority : sat.
Lemma squash_priority p n i t : sat priority_kept (squash p n i t).
Proof. unfold squash. sat_auto solve_priority. Qed.
Lemma squashFromDecode_priority p i n t :
  sat priority_kept (squashFromDecode p i n t).
Proof. unfold squashFromDecode. sat_auto solve_priority. Qed.
Lemma recvReqRetry_priority : sat priority_kept recvReqRetry.
Proof. unfold recvReqRetry. sat_auto solve_priority. Qed.
#[local] Hint Resolve squash_priority squashFromDecode_priority
  recvReqRetry_priority : sat.
Lemma checkSignalsAndUpdate_priority sig t :
  sat priority_kept (checkSignalsAndUpdate sig t).
Proof. unfold checkSignalsAndUpdate. sat_auto solve_priority. Qed.
#[local] Hint Resolve checkSignalsAndUpdate_priority : sat.

(** The round-robin loop permutes the priority list and returns one of
    the entries it was given. *)
Lemma roundRobin_loop_permutes rest before s :
  priorityList s = before ++ rest →
  wp (roundRobin_loop before rest)
     (λ t s', priorityList s' ≡ₚ priorityList s ∧ cfg s' = cfg s
              ∧ (t = InvalidThreadID ∨ t ∈ rest)) s.
Proof.
  revert before. induction rest as [|x rest IH]; intros before Hl.
  - unfold wpx. simpl. auto.
  - unfold wpx. simpl. unfold_m. simpl.
    case_bool_decide; simpl; [|done].
    destruct (fetchable (fetchStatus (thr s x))) eqn:Hx; simpl.
    + split; [|split; [done|right; by left]].
      rewrite Hl, <-app_assoc. apply Permutation_app_head.
      by rewrite Permutation_app_comm.
    + specialize (IH (before ++ [x])). rewrite <-app_assoc in IH.
      specialize (IH Hl). unfold wpx in IH.
      destruct (roundRobin_loop _ _ _) as [t s'|]; [|done].
      destruct IH as (? & ? & [?|?]); repeat split; auto.
      right. by right.
Qed.

Lemma getFetchingThread_priority : sat priority_kept getFetchingThread.
Proof.
  intros s. unfold getFetchingThread.
  apply wpx_bind, wpx_get. case_bool_decide.
  - apply wpx_bind, wpx_assert. destruct (negb _); [|done].
    destruct (fetchPolicy (cfg s)).
    + apply wpx_bind, wpx_get.
      eapply wpx_mono; [|by apply (roundRobin_loop_permutes _ [])].
      simpl. intros t s' (Hp & Hc & _). split; [by rewrite Hp|done].
    + unfold iqCount, countPolicy, wpx. msimpl.
      by destruct (find _ _).
    + unfold lsqCount, countPolicy, wpx. msimpl.
      by destruct (find _ _).
    + done.
  - unfold wpx. destruct (activeThreads (world s)); simpl; [done|].
    by destruct (fetchable _).
Qed.
Lemma profileStall_priority t : sat priority_kept (profileStall t).
Proof. unfold profileStall. sat_auto solve_priority. Qed.
Lemma ftqReady_priority t sc : sat priority_kept (ftqReady t sc).
Proof. unfold ftqReady. sat_auto solve_priority. Qed.
Lemma bacResteer_priority p t : sat priority_kept (bacResteer p t).
Proof. unfold bacResteer. sat_auto solve_priority. Qed.
Lemma decodeWrites_priority o t sc : sat priority_kept (decodeWrites o t sc).
Proof. unfold decodeWrites. sat_auto solve_priority. Qed.
#[local] Hint Resolve getFetchingThread_priority profileStall_priority
  ftqReady_priority bacResteer_priority decodeWrites_priority : sat.
Lemma fetch_priority dl sc :
  (∀ t c, sat priority_kept (dl t c)) → sat priority_kept (fetch dl sc).
Proof. intros Hdl. unfold fetch. sat_auto solve_priority. Qed.
Lemma pipelineIcacheAccesses_priority t :
  sat priority_kept (pipelineIcacheAccesses t).
Proof. unfold pipelineIcacheAccesses. sat_auto solve_priority. Qed.
Lemma translationDone_priority k fault pa :
  sat priority_kept (translationDone k fault pa).
Proof. unfold translationDone. sat_auto solve_priority. Qed.
Lemma cacheResponse_priority k depth data :
  sat priority_kept (cacheResponse k depth data).
Proof. unfold cacheResponse. sat_auto solve_priority. Qed.

Lemma deactivateThread_priority tid : sat priority_kept (deactivateThread tid).
Proof.
  intros s. unfold deactivateThread. apply wpx_modify.
  split; [|done]. simpl. destruct (list_find _ _) as [[i x]|]; [|done].
  apply sublist_submseteq, sublist_delete.
Qed.
#[local] Hint Resolve pipelineIcacheAccesses_priority
  translationDone_priority cacheResponse_priority deactivateThread_priority
  : sat.

(** ** Resetting the stage *)

Lemma for_each_cons {A} (x : A) l (f : A → M unit) :
  for_each (x :: l) f = f x ≫= λ _, for_each l f.
Proof. reflexivity. Qed.

Lemma bind_run {A B} (m : M A) (f : A → M B) s a s1 :
  m s = Ok a s1 → (m ≫= f) s = f a s1.
Proof. unfold mbind, M_bind. by intros ->. Qed.

(** One round of the loop of [resetStage]. *)
Lemma resetStage_thread (w : World) tid s :
  ∃ s',
    (upd_thread tid (set_fetchStatus Running);;
     upd_thread tid (set_pc (cpuPcState w tid));;
     upd_thread tid (set_fetchOffset 0);;
     upd_thread tid (set_macroop None);;
     upd_thread tid (set_delayedCommit false);;
     upd_thread tid (set_memReq None);;
     upd_thread tid (set_stalls false false);;
     upd_thread tid (set_fetchBufferPC 0);;
     upd_thread tid (set_fetchBufferValid false);;
     upd_thread tid (set_fetchQueue []);;
     modify (λ s, set_priorityList (priorityList s ++ [tid]) s)) s
    = Ok tt s'
    ∧ s' = set_priorityList (priorityList s ++ [tid]) (set_thr (thr s') s)
    ∧ ∀ t, thr s' t
           = if decide (tid = t)
             then cleared_thread (cpuPcState w tid) (thr s t)
             else thr s t.
Proof.
  eexists. split; [unfold_m; reflexivity|]. split; [reflexivity|].
  intros t. cbn [thr set_thr set_priorityList].
  rewrite !fn_alter_lookup. by destruct (decide (tid = t)).
Qed.

Lemma resetStage_loop (w : World) l s :
  NoDup l →
  ∃ s',
    for_each l (λ tid,
      upd_thread tid (set_fetchStatus Running);;
      upd_thread tid (set_pc (cpuPcState w tid));;
      upd_thread tid (set_fetchOffset 0);;
      upd_thread tid (set_macroop None);;
      upd_thread tid (set_delayedCommit false);;
      upd_thread tid (set_memReq None);;
      upd_thread tid (set_stalls false false);;
      upd_thread tid (set_fetchBufferPC 0);;
      upd_thread tid (set_fetchBufferValid false);;
      upd_thread tid (set_fetchQueue []);;
      modify (λ s, set_priorityList (priorityList s ++ [tid]) s)) s
    = Ok tt s'
    ∧ s' = set_priorityList (priorityList s ++ l) (set_thr (thr s') s)
    ∧ ∀ tid, thr s' tid
             = if bool_decide (tid ∈ l)
               then cleared_thread (cpuPcState w tid) (thr s tid)
               else thr s tid.
Proof.
  revert s. induction l as [|x l IH]; intros s Hnd.
  - exists s. split; [done|]. split; [|done].
    rewrite app_nil_r. by destruct s.
  - apply NoDup_cons in Hnd as [Hx Hnd]. rewrite for_each_cons.
    destruct (resetStage_thread w x s) as (s1 & Hrun1 & Hs1 & Hthr1).
    destruct (IH s1 Hnd) as (s' & Hrun & Hs' & Hthr).
    exists s'. split.
    { by rewrite (bind_run _ _ _ _ _ Hrun1). }
    split.
    { rewrite Hs' at 1. rewrite Hs1 at 1 2.
      cbn [priorityList set_priorityList set_thr].
      by rewrite <-app_assoc. }
    intros tid. rewrite Hthr, Hthr1.
    destruct (decide (x = tid)) as [->|Hne].
    + rewrite (bool_decide_eq_true_2 (tid ∈ tid :: l)) by (by left).
      by rewrite bool_decide_eq_false_2.
    + destruct (decide (tid ∈ l)) as [Hin|Hout].
      * rewrite !bool_decide_eq_true_2; [done|by right|done].
      * rewrite !bool_decide_eq_false_2; [done| |done].
        intros [?|?]%elem_of_cons; congruence.
Qed.

(** What [resetStage] leaves, member by member. *)
Lemma resetStage_run s :
  ∃ s',
    resetStage s = Ok tt s'
    ∧ (∀ tid, thr s' tid
              = if bool_decide (0 ≤ tid < numThreads (cfg s))
                then cleared_thread (cpuPcState (world s) tid) (thr s tid)
                else thr s tid)
    ∧ priorityList s' = seqZ 0 (numThreads (cfg s))
    ∧ numInst s' = 0 ∧ interruptPending s' = false
    ∧ cacheBlocked s' = false ∧ wroteToTimeBuffer s' = false
    ∧ stage_status s' = Inactive
    ∧ retryPkt s' = retryPkt s ∧ retryTid s' = retryTid s
    ∧ outstandingPrefetches s' = outstandingPrefetches s
    ∧ outstandingTranslations s' = outstandingTranslations s
    ∧ fetchesInProgress s' = fetchesInProgress s
    ∧ cfg s' = cfg s ∧ world s' = world s ∧ trace s' = trace s
    ∧ bac_attached s' = bac_attached s ∧ ftq_attached s' = ftq_attached s.
Proof.
  set (s0 := set_priorityList []
               (set_cacheBlocked false
                  (set_interruptPending false (set_numInst 0 s)))).
  destruct (resetStage_loop (world s0) (threadIds (cfg s0)) s0)
    as (s1 & Hrun & Hs1 & Hthr); [apply NoDup_seqZ|].
  exists (set_stage_status Inactive (set_wroteToTimeBuffer false s1)).
  split.
  { unfold resetStage.
    do 4 (erewrite bind_run; [|reflexivity]).
    erewrite (bind_run get); [|reflexivity]. fold s0.
    erewrite bind_run; [|exact Hrun].
    erewrite bind_run; [|reflexivity]. reflexivity. }
  change (cfg s0) with (cfg s) in *. change (world s0) with (world s) in *.
  split.
  { intros tid. cbn [thr set_stage_status set_wroteToTimeBuffer].
    rewrite Hthr. unfold threadIds.
    destruct (decide (0 ≤ tid < numThreads (cfg s))) as [Hin|Hout].
    - rewrite !bool_decide_eq_true_2; [done|done|].
      apply elem_of_seqZ. lia.
    - rewrite !bool_decide_eq_false_2; [done|done|].
      rewrite elem_of_seqZ. lia. }
  rewrite Hs1. by repeat split.
Qed.

(** [clearStates] changes nothing but the thread it is called for, which
    it leaves as the loop of [resetStage] does. *)
Lemma clearStates_run tid s :
  ∃ s',
    clearStates tid s = Ok tt s'
    ∧ s' = set_thr (thr s') s
    ∧ thr s' tid = cleared_thread (cpuPcState (world s) tid) (thr s tid)
    ∧ ∀ t, t ≠ tid → thr s' t = thr s t.
Proof.
  eexists. split; [unfold clearStates; unfold_m; reflexivity|].
  split; [reflexivity|]. cbn [thr set_thr]. split.
  - by rewrite !fn_lookup_alter.
  - intros t Ht. by rewrite !fn_lookup_alter_ne.
Qed.

(** X3: [resetStage] never aborts.  It leaves every thread of the
    configuration as [clearStates] leaves it (Running, no request, empty
    fetch queue, no stall, invalid fetch buffer, the PC of the CPU) and no
    other thread changed, the priority list with the thread ids in
    ascending order, no instruction counted, no interrupt pending, the
    cache unblocked and the stage Inactive.  The retry packet and its
    thread, the counters of outstanding prefetches and translations and the
    addresses in flight stay as they were. *)
Theorem resetStage_clears_threads s :
  ∃ s',
    resetStage s = Ok tt s'
    ∧ (∀ tid, 0 ≤ tid < numThreads (cfg s) →
              (∃ sc, clearStates tid s = Ok tt sc ∧ thr s' tid = thr sc tid)
              ∧ fetchStatus (thr s' tid) = Running
              ∧ memReq (thr s' tid) = None
              ∧ fetchQueue (thr s' tid) = []
              ∧ stalls_decode (thr s' tid) = false
              ∧ stalls_drain (thr s' tid) = false
              ∧ fetchBufferValid (thr s' tid) = false
              ∧ pc (thr s' tid) = cpuPcState (world s) tid)
    ∧ (∀ tid, ¬ 0 ≤ tid < numThreads (cfg s) → thr s' tid = thr s tid)
    ∧ priorityList s' = seqZ 0 (numThreads (cfg s))
    ∧ numInst s' = 0 ∧ interruptPending s' = false
    ∧ cacheBlocked s' = false ∧ wroteToTimeBuffer s' = false
    ∧ stage_status s' = Inactive
    ∧ retryPkt s' = retryPkt s ∧ retryTid s' = retryTid s
    ∧ outstandingPrefetches s' = outstandingPrefetches s
    ∧ outstandingTranslations s' = outstandingTranslations s
    ∧ fetchesInProgress s' = fetchesInProgress s.
Proof.
  destruct (resetStage_run s)
    as (s' & Hrun & Hthr & Hpl & ? & ? & ? & ? & ? & ? & ? & ? & ? & ? & _).
  exists s'. split; [done|]. split.
  { intros tid Htid. rewrite Hthr, (bool_decide_eq_true_2 _ Htid).
    split; [|by repeat split].
    destruct (clearStates_run tid s) as (sc & Hc & _ & Hsc & _).
    exists sc. by rewrite Hsc. }
  split.
  { intros tid Htid. by rewrite Hthr, (bool_decide_eq_false_2 _ Htid). }
  by repeat split.
Qed.

(** ** The priority list at reachable states *)

Lemma priority_kept_ok s s' : priority_kept s s' → priority_ok s → priority_ok s'.
Proof.
  intros [Hsub Hcfg] [Hnd Hall]. split.
  - apply submseteq_sublist_r in Hsub as (l2 & Hp & Hl2).
    rewrite Hp. by eapply sublist_NoDup.
  - rewrite Hcfg. apply Forall_forall. intros x Hx.
    eapply Forall_forall in Hall; [done|]. by eapply elem_of_submseteq.
Qed.

Lemma kept_priority_ok {A} (m : M A) s :
  sat priority_kept m → priority_ok s → wp m (λ _ s', priority_ok s') s.
Proof.
  intros Hm Hs. eapply wpx_mono; [|apply Hm]. simpl.
  intros _ s' Hk. by eapply priority_kept_ok.
Qed.

Lemma resetStage_priority_ok s :
  wp resetStage (λ _ s', priority_ok s' ∧ stage_status s' = Inactive) s.
Proof.
  destruct (resetStage_run s)
    as (s' & Hrun & _ & Hpl & _ & _ & _ & _ & Hst & _ & _ & _ & _ & _
        & Hcfg & _).
  unfold wpx. rewrite Hrun. split; [|done]. split.
  - rewrite Hpl. apply NoDup_seqZ.
  - rewrite Hpl, Hcfg. apply Forall_forall. intros x Hx.
    apply elem_of_seqZ in Hx. lia.
Qed.

Lemma step_priority_ok e s :
  priority_ok s → wp (step e) (λ _ s', priority_ok s') s.
Proof.
  intros Hs. destruct e; cbn [step].
  all: try lazymatch goal with
       | |- wpx _ resetStage _ _ =>
           eapply wpx_mono; [|apply resetStage_priority_ok];
           by intros ?? [? _]
       end.
  all: apply kept_priority_ok; [|done].
  all: try lazymatch goal with
       | |- sat _ (fetch _ _ ≫= _) =>
           apply sat_bind; [tc_solve| |intros ?; apply sat_ret; tc_solve];
           apply fetch_priority; intros; apply decodeWrites_priority
       end.
  all: unfold processTrapEvent_fire, sendToDecode, environment_change,
         clearStates, drainStall, drainResume, wakeFromQuiesce.
  all: sat_auto solve_priority.
Qed.

Lemma reachable_priority_ok s : reachable s → priority_ok s.
Proof.
  induction 1 as [s (p & w & q & pc0 & _ & _ & Hrun)|s e s' _ IH Hstep].
  - revert Hrun. rewrite bring_up_run. unfold startupStage. unfold_m. simpl.
    pose proof (resetStage_priority_ok
                  (set_attached true true (constructed p w q pc0))) as Hr.
    unfold wpx in Hr.
    destruct (resetStage _) as [[] s1|]; [|done]. destruct Hr as [Hok Hst].
    unfold switchToActive. unfold_m. rewrite Hst. simpl.
    intros [= <-]. exact Hok.
  - exact (wp_run _ _ _ _ _ (step_priority_ok e s IH) Hstep).
Qed.

(** The round-robin loop returns when the entries pass its assertion. *)
Lemma roundRobin_loop_returns rest before s :
  Forall (λ x, x ≤ numThreads (cfg s)) rest →
  ∃ t s', roundRobin_loop before rest s = Ok t s'.
Proof.
  revert before. induction rest as [|x rest IH]; intros before Hb.
  - by eexists _, _.
  - inversion_clear Hb as [|?? Hx Hb']. rewrite roundRobin_loop_cons by done.
    destruct (fetchable _); [by eexists _, _|]. by apply IH.
Qed.

(** X5: at every reachable state the priority list holds no thread twice
    and only thread ids of the configuration, so [roundRobin] passes its
    assertion and returns: its result is [InvalidThreadID] or an entry of
    the list, and the list it leaves is a permutation of the one it
    found. *)
Theorem reachable_priority_list s :
  reachable s →
  NoDup (priorityList s)
  ∧ Forall (λ x, 0 ≤ x < numThreads (cfg s)) (priorityList s)
  ∧ ∃ t s', roundRobin s = Ok t s'
            ∧ (t = InvalidThreadID ∨ t ∈ priorityList s)
            ∧ priorityList s' ≡ₚ priorityList s.
Proof.
  intros Hs. destruct (reachable_priority_ok s Hs) as [Hnd Hall].
  split; [done|]. split; [done|].
  destruct (roundRobin_loop_returns (priorityList s) [] s) as (t & s' & Hrun).
  { eapply Forall_impl; [exact Hall|]. simpl. intros; lia. }
  exists t, s'. unfold roundRobin. unfold_m. split; [done|].
  pose proof (roundRobin_loop_permutes (priorityList s) [] s eq_refl) as Hwp.
  unfold wpx in Hwp. rewrite Hrun in Hwp. destruct Hwp as (Hp & _ & Hin).
  done.
Qed.

Lemma reachable_priority_list_witness :
  NoDup (priorityList cx_rr_state)
  ∧ Forall (λ x, 0 ≤ x < numThreads (cfg cx_rr_state))
      (priorityList cx_rr_state)
  ∧ ∃ t s', roundRobin cx_rr_state = Ok t s'
            ∧ (t = InvalidThreadID ∨ t ∈ priorityList cx_rr_state)
            ∧ priorityList s' ≡ₚ priorityList cx_rr_state.
Proof.
  apply reachable_priority_list.
  apply (run_events_reachable
           [EvCheckSignals (ex_commit_squash 8192) 0] cx_two_threads).
  - apply reachable_initial. unfold cx_two_threads.
    apply ex_start_initial; [reflexivity|reflexivity|].
    vm_compute. reflexivity.
  - apply returns_exec_unit. vm_compute. reflexivity.
Defined.

(** ** Deactivating a thread *)

Lemma list_find_eq_Some (tid : ThreadID) l i x :
  list_find (λ y, y = tid) l = Some (i, x) →
  x = tid ∧ ∃ l1 l2, l = l1 ++ tid :: l2 ∧ (tid ∉ l1) ∧ delete i l = l1 ++ l2.
Proof.
  intros (Hi & -> & Hbefore)%list_find_Some. split; [done|].
  exists (take i l), (drop (S i) l).
  pose proof (take_drop_middle l i tid Hi) as Hl.
  split; [done|]. split.
  - intros (j & Hj)%list_elem_of_lookup_1.
    apply lookup_take_Some in Hj as [Hj Hlt]. by eapply Hbefore.
  - by rewrite delete_take_drop.
Qed.

(** X6: [deactivateThread] erases the first entry of the thread from the
    priority list and nothing else; a thread that is not in the list
    leaves it as it is.  When the list holds no thread twice, as at every
    reachable state, [roundRobin] does not return the deactivated thread
    afterwards. *)
Theorem deactivateThread_removes tid s :
  ∃ s',
    deactivateThread tid s = Ok tt s'
    ∧ s' = set_priorityList (priorityList s') s
    ∧ (tid ∉ priorityList s → priorityList s' = priorityList s)
    ∧ (∀ l1 l2, priorityList s = l1 ++ tid :: l2 → tid ∉ l1 →
                priorityList s' = l1 ++ l2)
    ∧ (NoDup (priorityList s) → tid ≠ InvalidThreadID →
       ∀ t s'', roundRobin s' = Ok t s'' → t ≠ tid).
Proof.
  unfold deactivateThread. unfold_m. eexists. split; [done|].
  split; [done|]. simpl.
  destruct (list_find _ _) as [[i x]|] eqn:Hfind.
  - apply list_find_eq_Some in Hfind as (-> & k1 & k2 & Hl & Hk1 & Hdel).
    rewrite Hdel. split; [|split].
    + intros Hout. destruct Hout. rewrite Hl. apply elem_of_app.
      right. by left.
    + intros l1 l2 Hl' Hl1. rewrite Hl in Hl'.
      assert (Hlen : length k1 = length l1).
      { destruct (Nat.lt_trichotomy (length k1) (length l1)) as [H|[H|H]];
          [|done|].
        - exfalso. apply Hl1.
          apply (f_equal (λ l, l !! length k1)) in Hl'.
          rewrite list_lookup_middle, lookup_app_l in Hl' by done.
          by eapply list_elem_of_lookup_2.
        - exfalso. apply Hk1.
          apply (f_equal (λ l, l !! length l1)) in Hl'.
          rewrite (list_lookup_middle l1), lookup_app_l in Hl' by done.
          by eapply list_elem_of_lookup_2. }
      apply app_inj_1 in Hl' as [-> Hcons]; [|done]. by simplify_eq.
    + intros Hnd Hvalid t s'' Hrun Heq. subst t.
      unfold roundRobin in Hrun. unfold_m. simpl in Hrun.
      pose proof (roundRobin_loop_permutes (k1 ++ k2) []
                    (set_priorityList (k1 ++ k2) s) eq_refl) as Hwp.
      unfold wpx in Hwp. rewrite Hrun in Hwp.
      destruct Hwp as (_ & _ & [?|Hin]); [done|].
      rewrite Hl in Hnd. apply NoDup_app in Hnd as (_ & Hdisj & Hnd2).
      apply NoDup_cons in Hnd2 as [Hk2 _].
      apply elem_of_app in Hin as [?|?]; [done|done].
  - apply list_find_None in Hfind. split; [done|]. split.
    + intros l1 l2 Hl _. exfalso.
      eapply Forall_forall in Hfind; [by apply Hfind|].
      rewrite Hl. apply elem_of_app. right. by left.
    + intros Hnd Hvalid t s'' Hrun Heq. subst t.
      unfold roundRobin in Hrun. unfold_m. simpl in Hrun.
      pose proof (roundRobin_loop_permutes (priorityList s) []
                    (set_priorityList (priorityList s) s) eq_refl) as Hwp.
      unfold wpx in Hwp. rewrite Hrun in Hwp.
      destruct Hwp as (_ & _ & [?|Hin]); [done|].
      eapply Forall_forall in Hfind; [by apply Hfind|done].
Qed.

(** * Stage activity, signals and retries *)

(** X7: [updateFetchStatus] returns Active exactly when some active
    thread is Running, Squashing or IcacheAccessComplete; it tells the CPU
    only of a change (activation when the stage was Inactive, deactivation
    when it was Active) and changes nothing else.  Once the result is
    stored in the stage status, a second call returns the same and tells
    the CPU nothing. *)
Theorem updateFetchStatus_notifies_changes s :
  ∃ st s1,
    updateFetchStatus s = Ok st s1
    ∧ (st = Active ↔
       ∃ tid, tid ∈ activeThreads (world s)
              ∧ (fetchStatus (thr s tid) = Running
                 ∨ fetchStatus (thr s tid) = Squashing
                 ∨ fetchStatus (thr s tid) = IcacheAccessComplete))
    ∧ s1 = set_trace (trace s1) s
    ∧ new_effects s s1
      = (if bool_decide (st = stage_status s) then []
         else if bool_decide (st = Active) then [EActivateStage]
         else [EDeactivateStage])
    ∧ updateFetchStatus (set_stage_status st s1)
      = Ok st (set_stage_status st s1).
Proof.
  unfold updateFetchStatus. unfold_m. simpl.
  destruct (existsb _ _) eqn:Hex.
  - apply existsb_exists in Hex as (tid & Hin%list_elem_of_In & Hact).
    destruct (stage_status s) eqn:Hst; simpl.
    all: eexists Active, _; split; [reflexivity|]; simpl.
    all: rewrite ?Hex; simpl.
    all: split; [split; [intros _; exists tid; split; [done|];
                         destruct (fetchStatus (thr s tid)); auto; done
                        |done]|].
    all: split; [by destruct s|].
    all: split; [by apply new_effects_app; rewrite ?app_nil_r|].
    all: assert (existsb (λ tid, is_active_status (fetchStatus (thr s tid)))
                   (activeThreads (world s)) = true) as ->
      by (apply existsb_exists; exists tid; by rewrite <-list_elem_of_In).
    all: done.
  - destruct (stage_status s) eqn:Hst; simpl.
    all: eexists Inactive, _; split; [reflexivity|]; simpl.
    all: rewrite ?Hex; simpl.
    all: split; [split; [done|];
                 intros (tid & Hin%list_elem_of_In & Hact);
                 assert (existsb (λ tid, is_active_status
                                           (fetchStatus (thr s tid)))
                           (activeThreads (world s)) = true) as Htrue
                   by (apply existsb_exists; exists tid; split; [done|];
                       by destruct Hact as [->|[->| ->]]);
                 congruence|].
    all: split; [by destruct s|].
    all: split; [by apply new_effects_app; rewrite ?app_nil_r|].
    all: done.
Qed.

(** X8: without a squash signal, [checkSignalsAndUpdate] leaves a thread
    that waits for the ITLB, for the I-cache (response or retry) or for a
    quiesce to end in its status, whatever the stall signals are: it
    returns false, changes no status and no request, and tells nobody. *)
Theorem checkSignalsAndUpdate_keeps_waiting sig tid s b s' :
  commitInfo_squash sig = false →
  decodeInfo_squash sig = false →
  fetchStatus (thr s tid) = ItlbWait
  ∨ fetchStatus (thr s tid) = IcacheWaitResponse
  ∨ fetchStatus (thr s tid) = IcacheWaitRetry
  ∨ fetchStatus (thr s tid) = QuiescePending →
  checkSignalsAndUpdate sig tid s = Ok b s' →
  b = false
  ∧ (∀ t, fetchStatus (thr s' t) = fetchStatus (thr s t)
          ∧ memReq (thr s' t) = memReq (thr s t))
  ∧ new_effects s s' = [].
Proof.
  intros Hc Hd Hst. unfold checkSignalsAndUpdate, checkStall.
  rewrite Hc, Hd. unfold_m. simpl.
  assert (Hnil : new_effects s s = [])
    by (apply new_effects_app; by rewrite app_nil_r).
  destruct (decodeBlock sig), (decodeUnblock sig); simpl.
  all: rewrite ?fn_lookup_alter; simpl; try done.
  all: try (destruct (stalls_decode (thr s tid)) eqn:Hsd; simpl; [|done]).
  all: rewrite ?fn_lookup_alter; simpl.
  all: destruct (stalls_drain (thr s tid)) eqn:Hdr; simpl.
  all: try (destruct (isDraining (world s)) eqn:Hdg; simpl; [|done]).
  all: rewrite ?fn_lookup_alter; simpl.
  all: destruct Hst as [Hst|[Hst|[Hst|Hst]]]; rewrite Hst; simpl.
  all: intros [= <- <-]; split; [done|]; split; [|exact Hnil].
  all: intros t; simpl; thread_cases t; simpl; by simplify_eq.
Qed.

(** X9: a squash of the thread that owns the retry packet deletes the
    packet and frees the retry slot but leaves the cache blocked; the
    retry notification of the I-cache that follows sends nothing and only
    unblocks the cache. *)
Theorem squash_then_retry new_pc si tid pkt s :
  retryTid s = tid → retryPkt s = Some pkt → cacheBlocked s = true →
  ∃ s1,
    doSquash new_pc si tid s = Ok tt s1
    ∧ new_effects s s1 = [EDecoderReset tid; EDeletePacket pkt]
    ∧ retryPkt s1 = None ∧ retryTid s1 = InvalidThreadID
    ∧ cacheBlocked s1 = true
    ∧ recvReqRetry s1 = Ok tt (set_cacheBlocked false s1).
Proof.
  intros Htid Hpkt Hblocked.
  destruct (doSquash_run new_pc si tid s)
    as (s1 & Hrun & _ & _ & _ & _ & _ & Hrt & Hrp & Hcb & _);
    [done|].
  rewrite bool_decide_eq_true_2 in Hrt, Hrp by done.
  exists s1. split; [done|]. split.
  { apply new_effects_app. revert Hrun. subst tid.
    unfold doSquash. unfold_m. simpl. rewrite !fn_lookup_alter. simpl.
    rewrite Hpkt, Hblocked,
      (bool_decide_eq_true_2 (retryTid s = retryTid s)) by done.
    destruct (fetchStatus (thr s (retryTid s))); simpl.
    all: intros [= <-]; simpl; by rewrite <-app_assoc. }
  split; [done|]. split; [done|]. split; [congruence|].
  unfold recvReqRetry. unfold_m. by rewrite Hrp, Hrt.
Qed.

(** X10: a demand request the I-cache rejects waits in the retry slot;
    when the I-cache then asks for the retry and accepts the packet, the
    thread waits for the response with the very packet pending in the
    I-cache, the retry slot is free and the cache unblocked.  The set of
    addresses in flight is as it was before the first attempt: the retry
    path does not record the address. *)
Theorem rejected_demand_is_retried vaddr tid mem_req s :
  isMemAddr (world s) (getPaddr mem_req) = true →
  vaddr = getVaddr mem_req →
  tid ≠ InvalidThreadID →
  retryPkt s = None → retryTid s = InvalidThreadID →
  portAccepts (world s) (sendCount (world s)) = false →
  portAccepts (world s) (S (sendCount (world s))) = true →
  ∃ s1 s2,
    performCacheAccess vaddr tid mem_req false s = Ok false s1
    ∧ fetchStatus (thr s1 tid) = IcacheWaitRetry
    ∧ recvReqRetry s1 = Ok tt s2
    ∧ fetchStatus (thr s2 tid) = IcacheWaitResponse
    ∧ retryPkt s2 = None ∧ retryTid s2 = InvalidThreadID
    ∧ cacheBlocked s2 = false
    ∧ icachePending (world s2)
      = icachePending (world s) ++ [fetch_packet (cfg s) mem_req]
    ∧ fetchesInProgress s2 = fetchesInProgress s
    ∧ memReq (thr s2 tid) = memReq (thr s tid).
Proof.
  intros Hmem -> Htid Hpkt Hrt Hrej Hacc.
  unfold performCacheAccess, sendTimingReq. unfold_m. simpl.
  rewrite Hmem. simpl.
  rewrite (bool_decide_eq_true_2 (getVaddr mem_req = getVaddr mem_req))
    by done.
  simpl. rewrite Hrej. simpl. rewrite Hpkt, Hrt. simpl.
  eexists _, _. split; [reflexivity|]. simpl.
  split; [by rewrite fn_lookup_alter|].
  unfold recvReqRetry, sendTimingReq. unfold_m. simpl.
  rewrite (bool_decide_eq_true_2 _ Htid), fn_lookup_alter. simpl.
  rewrite Hacc. simpl. split; [reflexivity|]. simpl.
  rewrite !fn_lookup_alter. by repeat split.
Qed.

(** * Accesses in flight *)

(** The set of addresses in flight after [processCacheCompletion]. *)
Lemma processCacheCompletion_erases pkt s :
  wp (processCacheCompletion pkt)
     (λ _ s', fetchesInProgress s'
              = fetchesInProgress s ∖ {[getPaddr (pkt_req pkt)]}) s.
Proof.
  unfold processCacheCompletion, trySatisfyPrefetch, switchToActive,
    checkStall.
  unfold wpx. msimpl.
  repeat (first [case_bool_decide | case_match]; simpl in *; simplify_eq;
          try done).
Qed.

(** X11: an access the I-cache accepts, demand or prefetch, records the
    physical address of its request in the set of addresses in flight, and
    the completion of a packet, whatever it is taken for (the demand of
    its thread, a prefetch of a fetch target, or a squashed access),
    erases the address of its request from the set. *)
Theorem in_flight_round_trip :
  (∀ vaddr tid mem_req (prefetch : bool) s,
     isMemAddr (world s) (getPaddr mem_req) = true →
     portAccepts (world s) (sendCount (world s)) = true →
     (prefetch = false → vaddr = getVaddr mem_req) →
     ∃ s1, performCacheAccess vaddr tid mem_req prefetch s = Ok true s1
           ∧ fetchesInProgress s1
             = {[getPaddr mem_req]} ∪ fetchesInProgress s)
  ∧ (∀ pkt s s',
       processCacheCompletion pkt s = Ok tt s' →
       fetchesInProgress s'
       = fetchesInProgress s ∖ {[getPaddr (pkt_req pkt)]}).
Proof.
  split.
  - intros vaddr tid mem_req prefetch s Hmem Hacc Hv.
    unfold performCacheAccess, sendTimingReq. unfold_m. simpl.
    rewrite Hmem. simpl. destruct prefetch; simpl.
    + rewrite Hacc. simpl. by eexists.
    + rewrite (bool_decide_eq_true_2 _ (Hv eq_refl)). simpl.
      rewrite Hacc. simpl. by eexists.
  - intros pkt s s' Hrun.
    exact (wp_run _ _ _ _ _ (processCacheCompletion_erases pkt s) Hrun).
Qed.

Lemma wp_any {A} (m : M A) s : wp m (λ _ _, True) s.
Proof. unfold wpx. by destruct (m s). Qed.

(** X12: [fetchCacheLine] returns false, and then changes nothing, exactly
    when the cache is blocked or an interrupt is pending outside of a
    delayed commit; in every other case that it returns from, whatever the
    state of the fetch target, it returns true. *)
Theorem fetchCacheLine_result vaddr tid pc_ ft s b s' :
  fetchCacheLine vaddr tid pc_ ft s = Ok b s' →
  b = negb (cacheBlocked s
            || interruptPending s && negb (delayedCommit (thr s tid)))
  ∧ (b = false → s' = s).
Proof.
  intros Hrun.
  cut (wp (fetchCacheLine vaddr tid pc_ ft)
         (λ b s', b = negb (cacheBlocked s
                            || interruptPending s
                               && negb (delayedCommit (thr s tid)))
                  ∧ (b = false → s' = s)) s).
  { intros Hwp. exact (wp_run _ _ _ _ _ Hwp Hrun). }
  clear Hrun. unfold fetchCacheLine, checkInterrupt.
  apply wpx_bind, wpx_get. apply wpx_bind, wpx_assert.
  destruct (negb (switchedOut (world s))); [|done].
  apply wpx_bind, wpx_bind, wpx_get, wpx_ret.
  destruct (cacheBlocked s); simpl; [by apply wpx_ret|].
  destruct (interruptPending s && negb (delayedCommit (thr s tid)));
    simpl; [by apply wpx_ret|].
  apply wpx_bind. eapply wpx_mono; [|apply wp_any]. simpl. intros ft' s1 _.
  apply wpx_bind, wpx_get. apply wpx_bind.
  eapply wpx_mono; [|apply wp_any]. simpl. intros done s2 _.
  destruct done; [by apply wpx_ret|].
  apply wpx_bind. eapply wpx_mono; [|apply wp_any]. simpl. intros req s3 _.
  apply wpx_bind. eapply wpx_mono; [|apply wp_any]. simpl. intros _ s4 _.
  apply wpx_bind. eapply wpx_mono; [|apply wp_any]. simpl. intros _ s5 _.
  by apply wpx_ret.
Qed.

#[local] Arguments req_ptr_eqb : simpl never.

(** X13: a translation that completes when its thread does not wait for
    it (the thread is not in ItlbWait, or holds another request or none)
    counts down [outstandingTranslations] and touches no thread: no cache
    access is made and no trap is raised.  It is recorded in its fetch
    target when that is still valid, and counted in [tlbSquashes]
    otherwise, with the FTQ unchanged. *)
Theorem finishTranslation_stale fault mem_req ft s s' :
  fetchStatus (thr s (contextToThread (world s) (req_contextId mem_req)))
    ≠ ItlbWait
  ∨ req_ptr_eqb (Some mem_req)
      (memReq (thr s (contextToThread (world s) (req_contextId mem_req))))
    = false →
  finishTranslation fault mem_req ft s = Ok tt s' →
  thr s' = thr s
  ∧ outstandingTranslations s' = outstandingTranslations s - 1
  ∧ Forall (λ e, is_quiet e = true) (new_effects s s')
  ∧ retryPkt s' = retryPkt s ∧ cacheBlocked s' = cacheBlocked s
  ∧ stage_status s' = stage_status s
  ∧ (ft_isValid_ptr (ftq s) ft = false →
     ftq s' = ftq s
     ∧ fetchStats s' tlbSquashes = fetchStats s tlbSquashes + 1).
Proof.
  intros Hstale. unfold finishTranslation. unfold_m. simpl.
  destruct (negb (switchedOut (world s))); simpl; [|done].
  assert (Hcond : negb (bool_decide
                          (fetchStatus
                             (thr s (contextToThread (world s)
                                       (req_contextId mem_req))) = ItlbWait))
                  || negb (req_ptr_eqb (Some mem_req)
                             (memReq (thr s (contextToThread (world s)
                                               (req_contextId mem_req)))))
                  = true).
  { destruct Hstale as [Hst| ->]; [|by rewrite orb_true_r].
    by rewrite (bool_decide_eq_false_2 _ Hst). }
  rewrite Hcond. simpl.
  destruct (ft_isValid_ptr (ftq s) ft) eqn:Hvalid; simpl.
  - destruct ft as [i|]; simpl; [|done].
    intros [= <-]. simpl. repeat split; try done.
    apply Forall_forall. intros e He. unfold new_effects in He. simpl in He.
    rewrite <-app_assoc, drop_app_length in He.
    apply elem_of_cons in He as [->|He]; [done|].
    by apply list_elem_of_singleton in He as ->.
  - intros [= <-]. simpl. repeat split; try done.
    unfold new_effects. simpl. rewrite drop_app_length. by constructor.
Qed.

(** * Traps *)

Lemma update_last_snoc {A} (f : A → A) l x :
  update_last f (l ++ [x]) = l ++ [f x].
Proof.
  unfold update_last. rewrite reverse_app. simpl.
  by rewrite reverse_involutive.
Qed.

(** What [processTrap] does when there is room for the instruction. *)
Lemma processTrap_room_run tid fault mem_req s :
  trap_room tid s →
  ∃ s',
    processTrap tid fault mem_req s = Ok tt s'
    ∧ fetchStatus (thr s' tid) = TrapPending
    ∧ memReq (thr s' tid) = None
    ∧ fetchQueue (thr s' tid)
      = fetchQueue (thr s tid) ++ [trap_inst tid fault s]
    ∧ delayedCommit (thr s' tid) = si_isDelayedCommit nopStaticInst
    ∧ (∀ t, t ≠ tid → thr s' t = thr s t)
    ∧ instSeq (world s') = instSeq (world s) + 1
    ∧ wroteToTimeBuffer s' = true
    ∧ numInst s' = numInst s
    ∧ processTrapEvent s' = processTrapEvent s
    ∧ new_effects s s'
      = [EAddInst {| seqNum := instSeq (world s); di_tid := tid;
                     staticInst := nopStaticInst; di_macroop := None;
                     pcState := pc (thr s tid); predTarg := pc (thr s tid);
                     notAnInst := false; di_fault := NoFault |};
         EActivityThisCycle].
Proof.
  intros [Hn Hq]. unfold processTrap, buildInst, getAndIncrementInstSeq.
  unfold_m. simpl.
  rewrite (bool_decide_eq_true_2 _ Hn), (bool_decide_eq_true_2 _ Hq). simpl.
  rewrite (bool_decide_eq_true_2 _ Hn). simpl.
  rewrite !fn_lookup_alter. simpl.
  rewrite bool_decide_eq_true_2 by (rewrite length_app; simpl; lia). simpl.
  eexists. split; [reflexivity|]. simpl. rewrite !fn_lookup_alter. simpl.
  rewrite update_last_snoc.
  repeat split; try done.
  - intros t Ht. by rewrite !fn_lookup_alter_ne.
  - apply new_effects_app. simpl. by rewrite <-app_assoc.
Qed.

(** X14: with room for one more instruction of the thread in this cycle,
    [processTrap] does not abort: it appends to the fetch queue of the
    thread one nop that carries the fault, takes the next sequence number
    of the CPU for it and marks it as no instruction, drops the demand
    request of the thread and leaves the thread in TrapPending.  No other
    thread changes and [numInst] is not counted up. *)
Theorem processTrap_delivers tid fault mem_req s :
  trap_room tid s →
  ∃ s',
    processTrap tid fault mem_req s = Ok tt s'
    ∧ fetchStatus (thr s' tid) = TrapPending
    ∧ memReq (thr s' tid) = None
    ∧ fetchQueue (thr s' tid)
      = fetchQueue (thr s tid) ++ [trap_inst tid fault s]
    ∧ (∀ t, t ≠ tid → thr s' t = thr s t)
    ∧ instSeq (world s') = instSeq (world s) + 1
    ∧ wroteToTimeBuffer s' = true
    ∧ numInst s' = numInst s.
Proof.
  intros Hroom.
  destruct (processTrap_room_run tid fault mem_req s Hroom)
    as (s' & ? & ? & ? & ? & ? & ? & ? & ? & ? & ? & ?).
  exists s'. by repeat split.
Qed.

(** X15: without room, [processTrap] leaves every thread as it is, makes
    no instruction and schedules the trap event with the thread, the fault
    and the request; a trap that finds no room while the event is scheduled
    aborts on the assertion that the event is free. *)
Theorem processTrap_defers tid fault mem_req s :
  ¬ trap_room tid s →
  processTrapEvent s = None →
  ∃ s1,
    processTrap tid fault mem_req s = Ok tt s1
    ∧ thr s1 = thr s
    ∧ processTrapEvent s1 = Some (tid, fault, mem_req)
    ∧ new_effects s s1 = [EScheduleProcessTrap]
    ∧ instSeq (world s1) = instSeq (world s)
    ∧ (∀ tid' fault' mem_req',
         ¬ trap_room tid' s1 →
         processTrap tid' fault' mem_req' s1
         = Abort "!processTrapEvent.scheduled()").
Proof.
  intros Hfull Hfree.
  assert (Hcond : ∀ t x,
    ¬ trap_room t x →
    negb (bool_decide (numInst x < fetchWidth (cfg x)))
    || negb (bool_decide (Z.of_nat (length (fetchQueue (thr x t)))
                          < fetchQueueSize (cfg x))) = true).
  { intros t x Hx. unfold trap_room in Hx.
    do 2 case_bool_decide; simpl; try done. tauto. }
  unfold processTrap at 1. unfold_m. simpl.
  rewrite (Hcond _ _ Hfull), Hfree. simpl.
  eexists. split; [reflexivity|]. simpl.
  split; [done|]. split; [done|].
  split; [by apply new_effects_app|]. split; [done|].
  intros tid' fault' mem_req' Hfull'. unfold processTrap. unfold_m.
  by rewrite (Hcond _ _ Hfull').
Qed.

(** * Draining *)

Lemma isDrained_loop_spec s sched l :
  isDrained_loop s sched l = true
  ↔ Forall (λ i, thread_drained (thr s i)) l ∧ sched = false.
Proof.
  unfold thread_drained. induction l as [|i l IH]; simpl.
  - split.
    + intros H. split; [done|]. by destruct sched.
    + by intros [_ ->].
  - rewrite Forall_cons. split.
    + intros Hrun.
      destruct (decide (fetchQueue (thr s i) = [])) as [Hq|Hq];
        [rewrite (bool_decide_eq_true_2 _ Hq) in Hrun
        |by rewrite (bool_decide_eq_false_2 _ Hq) in Hrun].
      simpl in Hrun.
      destruct (decide (fetchStatus (thr s i) = Idle)) as [Hidle|Hidle];
        [rewrite (bool_decide_eq_true_2 _ Hidle) in Hrun
        |rewrite (bool_decide_eq_false_2 _ Hidle) in Hrun];
        simpl in Hrun.
      * apply IH in Hrun as [? ?]. repeat split; auto.
      * destruct (decide (fetchStatus (thr s i) = Blocked)) as [Hb|Hb];
          [rewrite (bool_decide_eq_true_2 _ Hb) in Hrun
          |by rewrite (bool_decide_eq_false_2 _ Hb) in Hrun].
        simpl in Hrun.
        destruct (stalls_drain (thr s i)) eqn:Hd; [|done].
        apply IH in Hrun as [? ?]. repeat split; auto.
    + intros [[[Hq Hst] Hall] Hs].
      rewrite (bool_decide_eq_true_2 _ Hq). simpl.
      destruct Hst as [Hidle|[Hb Hd]].
      * rewrite (bool_decide_eq_true_2 _ Hidle). simpl. by apply IH.
      * rewrite Hb, Hd. simpl. by apply IH.
Qed.

(** [isDrained] is true exactly when every thread of the configuration
    has an empty fetch queue and is Idle, or Blocked with its drain stall
    set, and the translation event is not scheduled. *)
Lemma isDrained_iff sched s :
  isDrained sched s = true
  ↔ (∀ i, 0 ≤ i < numThreads (cfg s) → thread_drained (thr s i))
    ∧ sched = false.
Proof.
  unfold isDrained, threadIds. rewrite isDrained_loop_spec, Forall_forall.
  split; intros [Hall ?]; (split; [|done]); intros i Hi; apply Hall.
  - apply elem_of_seqZ. lia.
  - apply elem_of_seqZ in Hi. lia.
Qed.

Lemma drainSanityCheck_loop s l x :
  Forall (λ i, thread_drained (thr s i)) l →
  for_each l (λ i,
    assert (bool_decide (memReq (thr s i) = None)) "!memReq[i]";;
    assert (bool_decide (fetchStatus (thr s i) = Idle)
            || stalls_drain (thr s i))
      "fetchStatus[i] == Idle || stalls[i].drain") x
  = if bool_decide (Forall (λ i, memReq (thr s i) = None) l)
    then Ok tt x else Abort "!memReq[i]".
Proof.
  induction l as [|i l IH]; intros Hall.
  - cbn [for_each]. by rewrite bool_decide_eq_true_2 by constructor.
  - apply Forall_cons in Hall as [[_ Hst] Hall]. rewrite for_each_cons. unfold_m.
    destruct (decide (memReq (thr s i) = None)) as [Hreq|Hreq].
    + rewrite (bool_decide_eq_true_2 _ Hreq). simpl.
      assert (bool_decide (fetchStatus (thr s i) = Idle)
              || stalls_drain (thr s i) = true) as ->.
      { destruct Hst as [Hidle|[_ ->]]; [|by rewrite orb_true_r].
        by rewrite (bool_decide_eq_true_2 _ Hidle). }
      simpl. rewrite (IH Hall).
      destruct (decide (Forall (λ i, memReq (thr s i) = None) l)) as [Hl|Hl].
      * rewrite !bool_decide_eq_true_2; [done| |done]. by constructor.
      * rewrite !bool_decide_eq_false_2; [done| |done].
        by intros [_ ?]%Forall_cons.
    + rewrite (bool_decide_eq_false_2 _ Hreq). simpl.
      rewrite bool_decide_eq_false_2; [done|]. by intros [? _]%Forall_cons.
Qed.

(** X16: [isDrained] is true exactly when every thread of the
    configuration has an empty fetch queue and is Idle, or Blocked with its
    drain stall set, and the translation event is not scheduled.
    [drainSanityCheck] changes nothing and passes exactly when, beyond
    that, the retry slot is empty, the cache is not blocked, no interrupt
    is pending and no thread of the configuration holds a demand request.
    Its last assertion, on the status and the drain stall of each thread,
    follows from [isDrained] and is never the one that fails. *)
Theorem drainSanityCheck_passes sched s :
  (isDrained sched s = true
   ↔ (∀ i, 0 ≤ i < numThreads (cfg s) → thread_drained (thr s i))
     ∧ sched = false)
  ∧ (drainSanityCheck sched s = Ok tt s
     ↔ isDrained sched s = true
       ∧ retryPkt s = None ∧ retryTid s = InvalidThreadID
       ∧ cacheBlocked s = false ∧ interruptPending s = false
       ∧ ∀ i, 0 ≤ i < numThreads (cfg s) → memReq (thr s i) = None)
  ∧ (∀ s', drainSanityCheck sched s = Ok tt s' → s' = s)
  ∧ drainSanityCheck sched s
    ≠ Abort "fetchStatus[i] == Idle || stalls[i].drain".
Proof.
  split; [apply isDrained_iff|].
  assert (Hin : ∀ P : ThreadID → Prop,
            Forall P (threadIds (cfg s))
            ↔ ∀ i, 0 ≤ i < numThreads (cfg s) → P i).
  { intros P. unfold threadIds. rewrite Forall_forall.
    split; intros Hall i Hi; apply Hall.
    - apply elem_of_seqZ. lia.
    - apply elem_of_seqZ in Hi. lia. }
  destruct (isDrained sched s) eqn:Hd.
  2: { unfold drainSanityCheck. unfold_m. rewrite Hd. simpl.
       split; [|split]; [|done|done]. split; [done|]. by intros [? _]. }
  assert (Hall : Forall (λ i, thread_drained (thr s i)) (threadIds (cfg s))).
  { apply Hin. by apply isDrained_iff in Hd as [? _]. }
  pose proof (drainSanityCheck_loop s _ s Hall) as Hloop.
  unfold drainSanityCheck. unfold_m. rewrite Hd. simpl.
  destruct (retryPkt s) eqn:Hpkt; simpl.
  { split; [|split]; [|done|done]. split; [done|]. by intros (_ & ? & _). }
  destruct (decide (retryTid s = InvalidThreadID)) as [Htid|Htid];
    [rewrite (bool_decide_eq_true_2 _ Htid)
    |rewrite (bool_decide_eq_false_2 _ Htid)]; simpl.
  2: { split; [|split]; [|done|done]. split; [done|]. by intros (_ & _ & ? & _). }
  destruct (cacheBlocked s) eqn:Hb; simpl.
  { split; [|split]; [|done|done]. split; [done|].
    by intros (_ & _ & _ & ? & _). }
  destruct (interruptPending s) eqn:Hi; simpl.
  { split; [|split]; [|done|done]. split; [done|].
    by intros (_ & _ & _ & _ & ? & _). }
  rewrite Hloop. clear Hloop.
  destruct (decide (Forall (λ i, memReq (thr s i) = None)
                      (threadIds (cfg s)))) as [Hreq|Hreq].
  - rewrite (bool_decide_eq_true_2 _ Hreq).
    split; [|split]; [|by intros ? [= <-]|done].
    split; [|done]. intros _. repeat split; try done. by apply Hin.
  - rewrite (bool_decide_eq_false_2 _ Hreq).
    split; [|split]; [|done|done].
    split; [done|]. intros (_ & _ & _ & _ & _ & Hno). destruct Hreq.
    by apply Hin.
Qed.

(** What the loop of [drainResume] leaves. *)
Lemma drainResume_loop l s :
  ∃ s',
    for_each l (λ i, upd_thread i (set_stalls false false)) s = Ok tt s'
    ∧ s' = set_thr (thr s') s
    ∧ ∀ tid, thr s' tid
             = if bool_decide (tid ∈ l)
               then set_stalls false false (thr s tid) else thr s tid.
Proof.
  revert s. induction l as [|x l IH]; intros s.
  - exists s. split; [done|]. split; [by destruct s|done].
  - rewrite for_each_cons. unfold_m.
    match goal with
    | |- context [for_each l ?body ?s1] =>
        destruct (IH s1) as (s' & Hrun & Hs' & Hthr)
    end.
    exists s'. simpl in *. rewrite Hrun. split; [done|]. split.
    + by rewrite Hs' at 1.
    + intros tid. rewrite Hthr. clear Hrun Hs' Hthr.
      rewrite fn_alter_lookup.
      destruct (decide (x = tid)) as [->|Hne].
      * rewrite (bool_decide_eq_true_2 (tid ∈ tid :: l)) by (by left).
        by case_bool_decide.
      * destruct (decide (tid ∈ l)) as [Hin|Hout].
        -- rewrite !bool_decide_eq_true_2; [done|by right|done].
        -- rewrite !bool_decide_eq_false_2; [done| |done].
           intros [?|?]%elem_of_cons; congruence.
Qed.

(** X17: while the CPU drains, a drain stall on a thread that waits for
    nothing (not for the I-cache, the ITLB, the FTQ or a quiesce) makes the
    next signal check without squash block the thread; with an empty fetch
    queue the thread then counts as drained, and [isDrained] holds once
    every other thread is drained as well.  [drainResume] takes the stalls
    of every thread of the configuration away, and the signal check that
    follows lets the thread run again (or wait for the FTQ when that is
    empty). *)
Theorem drain_stall_blocks_and_resumes sig tid s :
  isDraining (world s) = true →
  stalls_drain (thr s tid) = false →
  0 ≤ tid < numThreads (cfg s) →
  commitInfo_squash sig = false → decodeInfo_squash sig = false →
  decodeBlock sig = false → decodeUnblock sig = false →
  holds_status (fetchStatus (thr s tid)) = false →
  ∃ s1 s2 s3 s4,
    drainStall tid s = Ok tt s1
    ∧ checkSignalsAndUpdate sig tid s1 = Ok true s2
    ∧ fetchStatus (thr s2 tid) = Blocked
    ∧ stalls_drain (thr s2 tid) = true
    ∧ (∀ t, t ≠ tid → thr s2 t = thr s t)
    ∧ (fetchQueue (thr s tid) = [] →
       (∀ i, 0 ≤ i < numThreads (cfg s) → i ≠ tid →
             thread_drained (thr s i)) →
       isDrained false s2 = true)
    ∧ drainResume s2 = Ok tt s3
    ∧ (∀ i, 0 ≤ i < numThreads (cfg s) →
            stalls_drain (thr s3 i) = false
            ∧ stalls_decode (thr s3 i) = false)
    ∧ checkSignalsAndUpdate sig tid s3 = Ok true s4
    ∧ fetchStatus (thr s4 tid)
      = (if decoupledFrontEnd (cfg s) && ftq_isEmpty (ftq s) tid
         then FTQEmpty else Running).
Proof.
  intros Hdrain Hstall Htid Hc Hd Hb Hu Hst.
  set (s1 := set_thr
               (alter (λ t, set_stalls (stalls_decode t) true t) tid (thr s))
               s).
  set (s2 := set_thr (alter (set_fetchStatus Blocked) tid (thr s1)) s1).
  assert (Hrun1 : drainStall tid s = Ok tt s1).
  { unfold drainStall. unfold_m. by rewrite Hdrain, Hstall. }
  assert (Hrun2 : checkSignalsAndUpdate sig tid s1 = Ok true s2).
  { unfold checkSignalsAndUpdate, checkStall. unfold_m.
    rewrite Hc, Hd, Hb, Hu. simpl. rewrite !fn_lookup_alter. simpl.
    rewrite Hdrain. simpl.
    by destruct (fetchStatus (thr s tid)). }
  assert (Hthr2 : thr s2 tid
                  = set_fetchStatus Blocked
                      (set_stalls (stalls_decode (thr s tid)) true
                         (thr s tid)))
    by (unfold s2, s1; simpl; by rewrite !fn_lookup_alter).
  assert (Hin : tid ∈ threadIds (cfg s2))
    by (unfold threadIds, s2, s1; simpl; apply elem_of_seqZ; lia).
  destruct (drainResume_loop (threadIds (cfg s2)) s2)
    as (s3 & Hrun3 & Hs3 & Hthr3).
  assert (Hcfg3 : cfg s3 = cfg s) by (by rewrite Hs3).
  assert (Hftq3 : ftq s3 = ftq s) by (by rewrite Hs3).
  exists s1, s2, s3,
    (set_thr
       (alter (set_fetchStatus
                 (if decoupledFrontEnd (cfg s) && ftq_isEmpty (ftq s) tid
                  then FTQEmpty else Running)) tid (thr s3)) s3).
  split; [done|]. split; [done|].
  split; [by rewrite Hthr2|]. split; [by rewrite Hthr2|]. split.
  { intros t Ht. unfold s2, s1. simpl. by rewrite !fn_lookup_alter_ne. }
  split.
  { intros Hq Hothers. apply isDrained_iff. split; [|done].
    intros i Hi. destruct (decide (i = tid)) as [->|Hne].
    - rewrite Hthr2. split; [done|]. by right.
    - unfold s2, s1. simpl. rewrite !fn_lookup_alter_ne by done.
      by apply Hothers. }
  split.
  { unfold drainResume. unfold_m. exact Hrun3. }
  split.
  { intros i Hi. rewrite Hthr3, bool_decide_eq_true_2; [done|].
    unfold threadIds, s2, s1. simpl. apply elem_of_seqZ. lia. }
  unfold checkSignalsAndUpdate, checkStall. unfold_m.
  rewrite Hc, Hd, Hb, Hu. simpl.
  rewrite Hthr3, (bool_decide_eq_true_2 _ Hin), Hthr2. simpl.
  rewrite Hcfg3, Hftq3.
  destruct (decoupledFrontEnd (cfg s) && ftq_isEmpty (ftq s) tid); simpl.
  all: split; [reflexivity|]; simpl; by rewrite fn_lookup_alter.
Qed.

(** * Start-up and the FTQ stall *)

(** X4: [startupStage] on a stage that was handed the BAC and the FTQ by
    [setBACandFTQPtr] and whose priority list is empty does not abort: it
    leaves every thread of the configuration Running without a request,
    the priority list with the thread ids in ascending order and the stage
    Active, and tells the CPU of the activation.  Called again it aborts on
    its assertion when the configuration has a thread, as the priority list
    is no longer empty.  Without the BAC, or without the FTQ, it aborts on
    the assertion of that pointer, whatever the rest of the stage is; so it
    does on the stage as the constructor leaves it. *)
Theorem startupStage_once s :
  bac_attached s = true → ftq_attached s = true →
  priorityList s = [] →
  (∃ s',
    startupStage s = Ok tt s'
    ∧ stage_status s' = Active
    ∧ new_effects s s' = [EActivateStage]
    ∧ priorityList s' = seqZ 0 (numThreads (cfg s))
    ∧ (∀ tid, 0 ≤ tid < numThreads (cfg s) →
              fetchStatus (thr s' tid) = Running
              ∧ memReq (thr s' tid) = None
              ∧ fetchQueue (thr s' tid) = [])
    ∧ (0 < numThreads (cfg s) →
       startupStage s' = Abort "priorityList.empty()"))
  ∧ (∀ ftq_ptr, startupStage (set_attached false ftq_ptr s)
                = Abort "bac != nullptr")
  ∧ startupStage (set_attached true false s) = Abort "ftq != nullptr"
  ∧ (∀ p w q pc0, startupStage (constructed p w q pc0)
                  = Abort "bac != nullptr").
Proof.
  intros Hbac Hftq Hempty. split; [|by repeat split].
  unfold startupStage. unfold_m. rewrite Hbac, Hftq, Hempty. simpl.
  destruct (resetStage_run s)
    as (s1 & Hrun & Hthr & Hpl & _ & _ & _ & _ & Hst & _ & _ & _ & _ & _
        & Hcfg & _ & Htrace & Hb1 & Hf1).
  rewrite Hrun. unfold switchToActive. unfold_m. rewrite Hst. simpl.
  eexists. split; [reflexivity|]. simpl. split; [done|].
  split; [by apply new_effects_app; rewrite Htrace|].
  split; [done|]. split.
  - intros tid Htid. by rewrite Hthr, bool_decide_eq_true_2.
  - intros Hn. rewrite Hb1, Hf1, Hbac, Hftq. simpl.
    rewrite Hpl. rewrite seqZ_cons by done. done.
Qed.

(** X18: a fetch pass of a single-threaded stage with the decoupled front
    end whose FTQ head is not ready runs no decode loop and makes no
    request: the thread goes to FTQEmpty, [ftqStallCycles] is counted once
    and the pass reports a status change.  The next signal check moves the
    thread back to Running when the FTQ is no longer empty, and leaves it
    in FTQEmpty otherwise. *)
Theorem fetch_waits_for_ftq dl sc sig tid rest s :
  ¬ 1 < numThreads (cfg s) →
  activeThreads (world s) = tid :: rest →
  tid ≠ InvalidThreadID →
  fetchable (fetchStatus (thr s tid)) = true →
  switchedOut (world s) = false →
  decoupledFrontEnd (cfg s) = true →
  ftq_isHeadReady (ftq s) tid = false →
  commitInfo_squash sig = false → decodeInfo_squash sig = false →
  decodeBlock sig = false → decodeUnblock sig = false →
  stalls_drain (thr s tid) = false →
  ∃ s1 s2,
    fetch dl sc s = Ok true s1
    ∧ fetchStatus (thr s1 tid) = FTQEmpty
    ∧ fetchStats s1 ftqStallCycles = fetchStats s ftqStallCycles + 1
    ∧ new_effects s s1 = []
    ∧ (∀ t, memReq (thr s1 t) = memReq (thr s t))
    ∧ checkSignalsAndUpdate sig tid s1
      = Ok (negb (ftq_isEmpty (ftq s) tid)) s2
    ∧ fetchStatus (thr s2 tid)
      = (if ftq_isEmpty (ftq s) tid then FTQEmpty else Running).
Proof.
  intros Hn Hact Htid Hf Hsw Hdfe Hhead Hc Hd Hb Hu Hstall.
  set (s1 := set_fetchStats
               (<[ftqStallCycles := fetchStats s ftqStallCycles + 1]>
                  (fetchStats s))
               (set_thr (alter (set_fetchStatus FTQEmpty) tid (thr s)) s)).
  assert (Hrun1 : fetch dl sc s = Ok true s1).
  { unfold fetch, getFetchingThread, ftqReady. unfold_m.
    rewrite (bool_decide_eq_false_2 _ Hn), Hact, Hf. simpl.
    rewrite Hsw, (bool_decide_eq_false_2 _ Htid). simpl.
    by rewrite Hdfe, Hhead. }
  assert (Hthr1 : thr s1 tid = set_fetchStatus FTQEmpty (thr s tid))
    by (unfold s1; simpl; by rewrite fn_lookup_alter).
  assert (Hstats : fetchStats s1 ftqStallCycles
                   = fetchStats s ftqStallCycles + 1)
    by (unfold s1; simpl; by rewrite fn_lookup_insert).
  assert (Heff : new_effects s s1 = [])
    by (by apply new_effects_app; rewrite app_nil_r).
  assert (Hreq : ∀ t, memReq (thr s1 t) = memReq (thr s t)).
  { intros t. unfold s1. simpl. rewrite fn_alter_lookup.
    by destruct (decide (tid = t)) as [->|?]. }
  assert (Hcfg : cfg s1 = cfg s) by done.
  assert (Hftq : ftq s1 = ftq s) by done.
  clearbody s1.
  exists s1,
    (if ftq_isEmpty (ftq s) tid then s1
     else set_thr (alter (set_fetchStatus Running) tid (thr s1)) s1).
  split; [done|]. split; [by rewrite Hthr1|].
  split; [done|]. split; [done|]. split; [done|].
  unfold checkSignalsAndUpdate, checkStall. unfold_m.
  rewrite Hc, Hd, Hb, Hu. simpl. rewrite Hthr1. simpl. rewrite Hstall. simpl.
  rewrite Hftq.
  destruct (ftq_isEmpty (ftq s) tid); simpl; [by rewrite Hthr1|].
  split; [done|]. by rewrite fn_lookup_alter.
Qed.

(** X19: a thread in Squashing leaves that status at the next signal
    check without a squash from commit, unless a drain stall blocks it: it
    runs again, or waits for the FTQ when that is empty, at the PC the
    squash gave it.  A squash from decode that arrives in that check is
    not applied: the PC stays, the decoder is not reset and nothing is
    removed from the CPU. *)
Theorem squashing_thread_resumes sig tid s b s' :
  fetchStatus (thr s tid) = Squashing →
  commitInfo_squash sig = false →
  stalls_drain (thr s tid) = false →
  checkSignalsAndUpdate sig tid s = Ok b s' →
  b = true
  ∧ fetchStatus (thr s' tid)
    = (if decoupledFrontEnd (cfg s) && ftq_isEmpty (ftq s) tid
       then FTQEmpty else Running)
  ∧ pc (thr s' tid) = pc (thr s tid)
  ∧ memReq (thr s' tid) = memReq (thr s tid)
  ∧ (∀ t, t ≠ tid → thr s' t = thr s t)
  ∧ new_effects s s' = [].
Proof.
  intros Hst Hc Hdr. unfold checkSignalsAndUpdate, checkStall.
  rewrite Hc. unfold_m. simpl.
  assert (Hnil : new_effects s s = [])
    by (apply new_effects_app; by rewrite app_nil_r).
  destruct (decodeBlock sig), (decodeUnblock sig); simpl.
  all: rewrite ?fn_lookup_alter; simpl; try done.
  all: try (destruct (stalls_decode (thr s tid)) eqn:Hsd; simpl; [|done]).
  all: rewrite ?fn_lookup_alter; simpl.
  all: rewrite Hst, ?andb_false_r; simpl.
  all: rewrite ?fn_lookup_alter; simpl; rewrite Hdr; simpl.
  all: destruct (decoupledFrontEnd (cfg s) && ftq_isEmpty (ftq s) tid);
    simpl.
  all: intros [= <- <-]; simpl; rewrite ?fn_lookup_alter; simpl.
  all: repeat (split; [done|]); split; [|exact Hnil].
  all: intros t Ht; by rewrite ?fn_lookup_alter_ne.
Qed.

Lemma squashing_thread_resumes_witness :
  fetchStatus (thr cx_one_squashed 0) = Squashing
  ∧ decodeInfo_squash (ex_decode_squash 12288) = true
  ∧ ∃ b s', checkSignalsAndUpdate (ex_decode_squash 12288) 0 cx_one_squashed
            = Ok b s'
            ∧ b = true
            ∧ fetchStatus (thr s' 0) = Running
            ∧ pc (thr s' 0) = ex_pc 8192.
Proof.
  assert (Hst : fetchStatus (thr cx_one_squashed 0) = Squashing)
    by (vm_compute; reflexivity).
  split; [exact Hst|]. split; [reflexivity|].
  assert (Hr : returns (checkSignalsAndUpdate (ex_decode_squash 12288) 0)
                 cx_one_squashed = true) by (vm_compute; reflexivity).
  destruct (returns_exec _ _ Hr) as [b Hrun].
  assert (Hdr : stalls_drain (thr cx_one_squashed 0) = false)
    by (vm_compute; reflexivity).
  destruct (squashing_thread_resumes (ex_decode_squash 12288) 0
              cx_one_squashed b
              (exec (checkSignalsAndUpdate (ex_decode_squash 12288) 0)
                 cx_one_squashed)
              Hst eq_refl Hdr Hrun)
    as (Hb & Hs' & Hpc & _).
  eexists b, _. split; [exact Hrun|]. split; [exact Hb|]. split.
  - rewrite Hs'. vm_compute. reflexivity.
  - rewrite Hpc. vm_compute. reflexivity.
Defined.

Lemma count_policies_pick_witness :
  ∃ t, iqCount cx_rr_state = Ok t cx_rr_state
       ∧ count_pick (iqCount_of (world cx_rr_state)) cx_rr_state t.
Proof.
  assert (Hr : returns iqCount cx_rr_state = true) by (vm_compute; reflexivity).
  destruct (returns_exec iqCount cx_rr_state Hr) as [t Hrun].
  destruct (proj1 (count_policies_pick cx_rr_state t _) Hrun) as [Hs Hpick].
  exists t. rewrite Hs in Hrun. by split.
Defined.

Lemma deactivateThread_removes_witness :
  ∃ s', deactivateThread 0 cx_two_threads = Ok tt s'
        ∧ priorityList s' = [1]
        ∧ ∀ t s'', roundRobin s' = Ok t s'' → t ≠ 0.
Proof.
  destruct (deactivateThread_removes 0 cx_two_threads)
    as (s' & Hrun & _ & _ & Hl & Hrr).
  exists s'. split; [exact Hrun|]. split.
  - apply (Hl [] [1]); [vm_compute; reflexivity|]. by intros ?%elem_of_nil.
  - apply Hrr; [|done].
    assert (Hpl : priorityList cx_two_threads = [0; 1])
      by (vm_compute; reflexivity).
    rewrite Hpl. apply NoDup_cons. split.
    + intros ?%list_elem_of_singleton. done.
    + apply NoDup_singleton.
Defined.

Lemma checkSignalsAndUpdate_keeps_waiting_witness :
  fetchStatus (thr cx_retry_state 0) = IcacheWaitRetry
  ∧ ∃ b s', checkSignalsAndUpdate ex_no_signals 0 cx_retry_state = Ok b s'
            ∧ b = false
            ∧ fetchStatus (thr s' 0) = IcacheWaitRetry.
Proof.
  assert (Hst : fetchStatus (thr cx_retry_state 0) = IcacheWaitRetry)
    by (vm_compute; reflexivity).
  split; [exact Hst|].
  assert (Hr : returns (checkSignalsAndUpdate ex_no_signals 0) cx_retry_state
               = true) by (vm_compute; reflexivity).
  destruct (returns_exec _ _ Hr) as [b Hrun].
  destruct (checkSignalsAndUpdate_keeps_waiting ex_no_signals 0
              cx_retry_state b _ eq_refl eq_refl
              (or_intror (or_intror (or_introl Hst))) Hrun)
    as (Hb & Hsame & _).
  eexists b, _. split; [exact Hrun|]. split; [exact Hb|].
  destruct (Hsame 0) as [-> _]. exact Hst.
Defined.

Lemma squash_then_retry_witness :
  ∃ s1, doSquash (ex_pc 8192) None 0 cx_retry_state = Ok tt s1
        ∧ retryPkt s1 = None
        ∧ recvReqRetry s1 = Ok tt (set_cacheBlocked false s1).
Proof.
  destruct (squash_then_retry (ex_pc 8192) None 0
              (fetch_packet (cfg cx_retry_state)
                 (ex_request 0 4096 (Some 20480)))
              cx_retry_state)
    as (s1 & Hrun & _ & Hpkt & _ & _ & Hretry);
    [vm_compute; reflexivity..|].
  by exists s1.
Defined.

Lemma rejected_demand_is_retried_witness :
  ∃ s1 s2,
    performCacheAccess 4096 0 (ex_request 0 4096 (Some 20480)) false
      cx_flaky_start = Ok false s1
    ∧ recvReqRetry s1 = Ok tt s2
    ∧ fetchStatus (thr s2 0) = IcacheWaitResponse
    ∧ cacheBlocked s2 = false.
Proof.
  destruct (rejected_demand_is_retried 4096 0
              (ex_request 0 4096 (Some 20480)) cx_flaky_start)
    as (s1 & s2 & Hrun1 & _ & Hrun2 & Hst & _ & _ & Hb & _);
    [vm_compute; reflexivity|reflexivity|done|vm_compute; reflexivity..|].
  by exists s1, s2.
Defined.

Lemma in_flight_round_trip_witness :
  (∃ s1, performCacheAccess 4096 0 (ex_request 0 4096 (Some 20480)) false
           cx_one_thread = Ok true s1
         ∧ fetchesInProgress s1
           = {[20480]} ∪ fetchesInProgress cx_one_thread)
  ∧ fetchesInProgress (exec (processCacheCompletion cx_pf_packet) cx_pf_state)
    = fetchesInProgress cx_pf_state ∖ {[20544]}.
Proof.
  destruct in_flight_round_trip as [Hin Hout]. split.
  - apply (Hin 4096 0 (ex_request 0 4096 (Some 20480)) false cx_one_thread);
      [vm_compute; reflexivity|vm_compute; reflexivity|reflexivity].
  - apply (Hout cx_pf_packet cx_pf_state).
    apply returns_exec_unit. vm_compute. reflexivity.
Defined.

Lemma fetchCacheLine_result_witness :
  cacheBlocked cx_retry_state = true
  ∧ ∃ b s', fetchCacheLine 4096 0 4096 None cx_retry_state = Ok b s'
            ∧ b = false ∧ s' = cx_retry_state.
Proof.
  assert (Hb : cacheBlocked cx_retry_state = true)
    by (vm_compute; reflexivity).
  split; [exact Hb|].
  assert (Hr : returns (fetchCacheLine 4096 0 4096 None) cx_retry_state
               = true) by (vm_compute; reflexivity).
  destruct (returns_exec _ _ Hr) as [b Hrun].
  destruct (fetchCacheLine_result 4096 0 4096 None cx_retry_state b _ Hrun)
    as [Hres Hsame].
  rewrite Hb in Hres. simpl in Hres.
  eexists b, _. split; [exact Hrun|]. split; [exact Hres|].
  exact (Hsame Hres).
Defined.

Lemma finishTranslation_stale_witness :
  fetchStatus (thr cx_one_thread 0) = Running
  ∧ outstandingTranslations
      (exec (finishTranslation NoFault (ex_request 0 4096 (Some 20480)) None)
         cx_one_thread)
    = outstandingTranslations cx_one_thread - 1.
Proof.
  assert (Hst : fetchStatus (thr cx_one_thread 0) = Running)
    by (vm_compute; reflexivity).
  split; [exact Hst|].
  refine (proj1 (proj2 (finishTranslation_stale NoFault
                          (ex_request 0 4096 (Some 20480)) None
                          cx_one_thread _ _ _))).
  - left. vm_compute. discriminate.
  - apply returns_exec_unit. vm_compute. reflexivity.
Defined.

Lemma processTrap_delivers_witness :
  trap_room 0 cx_one_thread
  ∧ ∃ s', processTrap 0 (Some 1%nat) None cx_one_thread = Ok tt s'
          ∧ fetchStatus (thr s' 0) = TrapPending
          ∧ fetchQueue (thr s' 0)
            = fetchQueue (thr cx_one_thread 0)
              ++ [trap_inst 0 (Some 1%nat) cx_one_thread].
Proof.
  assert (Hroom : trap_room 0 cx_one_thread)
    by (split; vm_compute; reflexivity).
  split; [exact Hroom|].
  destruct (processTrap_delivers 0 (Some 1%nat) None cx_one_thread Hroom)
    as (s' & Hrun & Hst & _ & Hq & _).
  by exists s'.
Defined.

Lemma processTrap_defers_witness :
  ¬ trap_room 0 cx_full_state
  ∧ ∃ s1, processTrap 0 (Some 1%nat) None cx_full_state = Ok tt s1
          ∧ processTrapEvent s1 = Some (0, Some 1%nat, None).
Proof.
  assert (Hfull : ¬ trap_room 0 cx_full_state).
  { intros [Hn _]. vm_compute in Hn. discriminate. }
  split; [exact Hfull|].
  destruct (processTrap_defers 0 (Some 1%nat) None cx_full_state Hfull)
    as (s1 & Hrun & _ & Hev & _); [vm_compute; reflexivity|].
  by exists s1.
Defined.

Lemma drainSanityCheck_passes_witness :
  isDrained false cx_constructed = true
  ∧ drainSanityCheck false cx_constructed = Ok tt cx_constructed.
Proof.
  destruct (drainSanityCheck_passes false cx_constructed)
    as (Hd & Hcheck & _).
  assert (Hdrained : isDrained false cx_constructed = true).
  { apply Hd. split; [|done]. intros i _. split; [done|]. by left. }
  split; [exact Hdrained|].
  apply Hcheck. by repeat split.
Defined.

Lemma drain_stall_blocks_and_resumes_witness :
  isDraining (world cx_draining) = true
  ∧ fetchStatus (thr cx_draining 0) = Running
  ∧ ∃ s1 s2 s3 s4,
      drainStall 0 cx_draining = Ok tt s1
      ∧ checkSignalsAndUpdate ex_no_signals 0 s1 = Ok true s2
      ∧ fetchStatus (thr s2 0) = Blocked
      ∧ isDrained false s2 = true
      ∧ drainResume s2 = Ok tt s3
      ∧ checkSignalsAndUpdate ex_no_signals 0 s3 = Ok true s4
      ∧ fetchStatus (thr s4 0) = Running.
Proof.
  assert (Hd : isDraining (world cx_draining) = true)
    by (vm_compute; reflexivity).
  assert (Hst : fetchStatus (thr cx_draining 0) = Running)
    by (vm_compute; reflexivity).
  assert (Hn : numThreads (cfg cx_draining) = 1)
    by (vm_compute; reflexivity).
  split; [exact Hd|]. split; [exact Hst|].
  destruct (drain_stall_blocks_and_resumes ex_no_signals 0 cx_draining)
    as (s1 & s2 & s3 & s4 & H1 & H2 & H3 & _ & _ & H4 & H5 & _ & H6 & H7);
    [exact Hd|vm_compute; reflexivity|rewrite Hn; lia
    |reflexivity..|by rewrite Hst|].
  assert (Hdrained : isDrained false s2 = true).
  { apply H4; [vm_compute; reflexivity|].
    intros i Hi Hne. rewrite Hn in Hi. lia. }
  assert (Hrunning : fetchStatus (thr s4 0) = Running)
    by (rewrite H7; vm_compute; reflexivity).
  exists s1, s2, s3, s4. by repeat split.
Defined.

Lemma startupStage_once_witness :
  startupStage cx_constructed = Abort "bac != nullptr"
  ∧ setBACandFTQPtr true true cx_constructed = Ok tt cx_attached
  ∧ ∃ s', startupStage cx_attached = Ok tt s'
          ∧ stage_status s' = Active
          ∧ fetchStatus (thr s' 0) = Running
          ∧ startupStage s' = Abort "priorityList.empty()".
Proof.
  destruct (startupStage_once cx_attached eq_refl eq_refl eq_refl)
    as ((s' & Hrun & Hst & _ & _ & Hthr & Habort) & _ & _ & Hc).
  split; [apply Hc|]. split; [reflexivity|].
  exists s'. split; [exact Hrun|]. split; [exact Hst|]. split.
  - apply Hthr. split; [done|]. vm_compute. reflexivity.
  - apply Habort. vm_compute. reflexivity.
Defined.

Lemma fetch_waits_for_ftq_witness :
  ftq_isHeadReady (ftq cx_empty_ftq) 0 = false
  ∧ ∃ s1 s2,
      fetch (decodeWrites (ex_no_decode (ex_ftq []))) false cx_empty_ftq
      = Ok true s1
      ∧ fetchStatus (thr s1 0) = FTQEmpty
      ∧ checkSignalsAndUpdate ex_no_signals 0 s1 = Ok false s2
      ∧ fetchStatus (thr s2 0) = FTQEmpty.
Proof.
  assert (Hhead : ftq_isHeadReady (ftq cx_empty_ftq) 0 = false)
    by (vm_compute; reflexivity).
  split; [exact Hhead|].
  destruct (fetch_waits_for_ftq (decodeWrites (ex_no_decode (ex_ftq [])))
              false ex_no_signals 0 [] cx_empty_ftq)
    as (s1 & s2 & H1 & H2 & _ & _ & _ & H3 & H4);
    [vm_compute; discriminate|vm_compute; reflexivity|done
    |vm_compute; reflexivity..|].
  assert (Hempty : ftq_isEmpty (ftq cx_empty_ftq) 0 = true)
    by (vm_compute; reflexivity).
  rewrite Hempty in H3, H4. by exists s1, s2.
Defined.
